(** * A shallow embedding of the Electrum light client

    The development follows the two source files of the client:
    - [ElectrumApi.ts]: the typed methods over the JSON-RPC socket
      (receipts, history, transactions with their Merkle proof, headers,
      broadcast);
    - [Agent.ts]: the per-peer agent (sync, block acceptance, receipt
      subscriptions, ping, close).

    JavaScript numbers that hold integers are [Z], byte arrays are
    [list byte], strings are [string], [Map]s are [gmap]s, a value that
    may be [null] or [undefined] is an [option].  A rejected promise or a
    thrown exception is the [Err] case of [Result].  The requests sent on
    the socket are recorded in a log that is threaded through every
    method. *)

From Stdlib Require Import ZArith List String Ascii Lia Bool.
From Stdlib Require Import Strings.Byte.
From Stdlib Require Import Sorting.Sorted.
From stdpp Require Import base option list gmap strings pretty.

Local Open Scope string_scope.
Local Open Scope list_scope.
Local Open Scope Z_scope.

(* ===================================================================== *)
(** * Errors and results                                                  *)
(* ===================================================================== *)

(** What a promise is rejected with.  [JsError m] is [new Error(m)] thrown
    by the client's own code, [TypeError] is the property access on [null]
    or [undefined] that the language raises, [Rejected m] is a request the
    socket rejected and [LibraryError m] an exception of the Bitcoin
    library (a raw transaction or an address that does not decode). *)
Inductive Error : Type :=
| JsError (message : string)
| TypeError (message : string)
| Rejected (message : string)
| LibraryError (message : string).

Inductive Result (A : Type) : Type :=
| Ok (a : A)
| Err (e : Error).
Arguments Ok {A} a.
Arguments Err {A} e.

Definition is_ok {A} (r : Result A) : bool :=
  match r with Ok _ => true | Err _ => false end.

Definition from_option {A} (e : Error) (o : option A) : Result A :=
  match o with Some a => Ok a | None => Err e end.

(* ===================================================================== *)
(** * Data model ([types.ts])                                             *)
(* ===================================================================== *)

Record Balance : Type := {
  confirmed : Z;
  unconfirmed : Z;
}.

Record Receipt : Type := {
  r_blockHeight : Z;
  r_transactionHash : string;
  r_fee : option Z;
}.

Record PlainBlockHeader : Type := {
  h_blockHash : string;
  h_blockHeight : Z;
  h_timestamp : Z;
  h_bits : Z;
  h_nonce : Z;
  h_version : Z;
  h_weight : Z;
  h_prevHash : option string;
  h_merkleRoot : option string;
}.

Record PlainInput : Type := {
  i_script : string;
  i_transactionHash : string;
  i_address : option string;
  i_witness : list string;
  i_index : nat;
  i_outputIndex : Z;
  i_sequence : Z;
}.

Record PlainOutput : Type := {
  o_script : string;
  o_address : string;
  o_value : Z;
  o_index : nat;
}.

Record PlainTransaction : Type := {
  t_transactionHash : string;
  t_inputs : list PlainInput;
  t_outputs : list PlainOutput;
  t_version : Z;
  t_vsize : Z;
  t_isCoinbase : bool;
  t_weight : Z;
  t_blockHash : option string;
  t_blockHeight : option Z;
  t_timestamp : option Z;
  t_replaceByFee : bool;
}.

(** The entries of a [blockchain.scripthash.get_history] response and the
    response of [blockchain.transaction.get_merkle]. *)
Record HistoryEntry : Type := {
  height : Z;
  tx_hash : string;
  fee : option Z;
}.

Record MerkleProof : Type := {
  block_height : Z;
  merkle : list string;
  pos : Z;
}.

Record Ports : Type := {
  tcp : option Z;
  ssl : option Z;
  wss : option Z;
}.

Record Peer : Type := {
  ip : string;
  host : string;
  p_version : string;
  pruningLimit : option Z;
  ports : Ports;
}.

(** The objects of the Bitcoin library, after decoding. *)
Record TxInput : Type := {
  in_hash : list byte;
  in_index : Z;
  in_script : list byte;
  in_sequence : Z;
  in_witness : list (list byte);
}.

Record TxOutput : Type := {
  out_script : list byte;
  out_value : Z;
}.

Record Transaction : Type := {
  tx_version : Z;
  tx_ins : list TxInput;
  tx_outs : list TxOutput;
  tx_locktime : Z;
}.

Record Block : Type := {
  blk_version : Z;
  blk_prevHash : option (list byte);
  blk_merkleRoot : option (list byte);
  blk_timestamp : Z;
  blk_bits : Z;
  blk_nonce : Z;
}.

(* ===================================================================== *)
(** * What the client takes from its platform and libraries               *)
(* ===================================================================== *)

(** [crypto.subtle.digest('SHA-256', _)], the two hex helpers that
    [ElectrumApi.ts] imports from the socket package, and
    [Number.parseInt(_, 10)] ([None] is [NaN]). *)
Class Platform : Type := {
  sha256 : list byte -> list byte;
  hexToBytes : string -> list byte;
  bytesToHex : list byte -> string;
  Number_parseInt : string -> option Z;
}.

(** The Bitcoin library: decoders, the derived figures of a transaction
    and of a block, and the address functions.  The decompiler of scripts
    and the payment constructors, which [deriveAddressFromInput] calls,
    are the class [Payments] below. *)
Class BitcoinLib : Type := {
  Transaction_fromHex : string -> option Transaction;
  Transaction_getId : Transaction -> string;
  Transaction_virtualSize : Transaction -> Z;
  Transaction_isCoinbase : Transaction -> bool;
  Transaction_weight : Transaction -> Z;
  Block_fromHex : string -> option Block;
  Block_getId : Block -> string;
  Block_weight : Block -> Z;
  address_fromOutputScript : list byte -> option string;
  address_toOutputScript : string -> option (list byte);
}.

(* ===================================================================== *)
(** * The socket: requests, and a peer that answers them                  *)
(* ===================================================================== *)

Inductive Request : Type :=
| ReqGetBalance (scriptHash : string)
| ReqGetHistory (scriptHash : string)
| ReqTransactionGet (hash : string)
| ReqGetMerkle (hash : string) (height : Z)
| ReqBlockHeader (height : Z)
| ReqFeeHistogram
| ReqBroadcast (rawTx : string)
| ReqEstimateFee (target : Z)
| ReqRelayFee
| ReqPeers
| ReqPing
| ReqSubscribeScriptHash (scriptHash : string)
| ReqSubscribeHeaders
| ReqVersion
| ReqFeatures.

(** How the peer answers each request during one method call. *)
Record Server : Type := {
  srv_get_balance : string -> Result Balance;
  srv_get_history : string -> Result (list HistoryEntry);
  srv_transaction_get : string -> Result string;
  srv_get_merkle : string -> Z -> Result MerkleProof;
  srv_block_header : Z -> Result string;
  srv_fee_histogram : Result (list (Z * Z));
  srv_broadcast : string -> Result string;
  srv_estimatefee : Z -> Result Z;
  srv_relayfee : Result Z;
  srv_peers : Result (list (string * string * list string));
  srv_ping : Result unit;
  srv_version : Result unit;
  srv_features_genesis_hash : Result string;
}.

(** A computation over a state [S] that may fail: the state reached is
    kept when it fails, as the effects of a method that throws midway
    stay. *)
Definition M (S A : Type) : Type := S -> Result A * S.

(** An asynchronous method of the connection: its state is the log of the
    requests sent so far. *)
Definition Api (A : Type) : Type := M (list Request) A.

Definition ret {S A} (a : A) : M S A := fun s => (Ok a, s).

Definition throw {S A} (e : Error) : M S A := fun s => (Err e, s).

Definition bind {S A B} (m : M S A) (k : A -> M S B) : M S B :=
  fun s =>
    match m s with
    | (Ok a, s') => k a s'
    | (Err e, s') => (Err e, s')
    end.

(** [try { m } catch (error) { h }]. *)
Definition try_catch {S A} (m : M S A) (h : Error -> M S A) : M S A :=
  fun s =>
    match m s with
    | (Ok a, s') => (Ok a, s')
    | (Err e, s') => h e s'
    end.

Definition lift {S A} (r : Result A) : M S A := fun s => (r, s).

(** Modelled from the spec: [await this.socket.request(...)] of the
    socket, whose class is not among the source files, sends one request
    and returns when the matching response arrives, or fails; the request
    is recorded and the peer's answer is the outcome. *)
Definition request {A} (r : Request) (answer : Result A) : Api A :=
  fun log => (answer, log ++ [r]).

Declare Scope api_scope.
Delimit Scope api_scope with api.
Notation "'let*' x := m 'in' k" := (bind m (fun x => k))
  (at level 10, x name, m at level 100, k at level 200) : api_scope.
Notation "'do*' m 'in' k" := (bind m (fun _ => k))
  (at level 10, m at level 100, k at level 200) : api_scope.
Local Open Scope api_scope.

(* ===================================================================== *)
(** * Array helpers of the language                                       *)
(* ===================================================================== *)

(** [Array.prototype.slice(0, end)] for an integer [end]: a negative
    [end] counts from the end of the array. *)
Definition slice0 {A} (l : list A) (end_ : Z) : list A :=
  let len := Z.of_nat (length l) in
  let k := if end_ <? 0 then Z.max (len + end_) 0 else Z.min end_ len in
  firstn (Z.to_nat k) l.

(** [Array.prototype.findIndex]: the first index whose element satisfies
    the predicate, [-1] when there is none. *)
Fixpoint findIndex_from {A} (p : A -> bool) (l : list A) (i : Z) : Z :=
  match l with
  | [] => -1
  | x :: l' => if p x then i else findIndex_from p l' (i + 1)
  end.

Definition findIndex {A} (p : A -> bool) (l : list A) : Z :=
  findIndex_from p l 0.

(** [Array.prototype.sort(compare)]: a stable sort; [x] is moved behind
    the elements it compares greater than. *)
Fixpoint sort_insert {A} (compare : A -> A -> Z) (x : A) (l : list A) : list A :=
  match l with
  | [] => [x]
  | y :: l' =>
      if compare x y >? 0 then y :: sort_insert compare x l' else x :: y :: l'
  end.

Definition sort {A} (compare : A -> A -> Z) (l : list A) : list A :=
  foldr (sort_insert compare) [] l.

Definition MAX_SAFE_INTEGER : Z := 9007199254740991.

(** [x || d] on numbers: [0] is the falsy integer. *)
Definition or_default (x d : Z) : Z := if x =? 0 then d else x.

(** JavaScript truthiness of a number that holds an integer. *)
Definition truthy (x : Z) : bool := negb (x =? 0).

(** The first failure of a list of outcomes, as [Array.prototype.map]
    with a callback that may throw. *)
Fixpoint all_ok {A} (l : list (Result A)) : Result (list A) :=
  match l with
  | [] => Ok []
  | Err e :: _ => Err e
  | Ok a :: l' =>
      match all_ok l' with
      | Ok l'' => Ok (a :: l'')
      | Err e => Err e
      end
  end.

(** A [Map] from transaction hash to receipt filled in the order of the
    list: of two receipts with one hash the later one stays. *)
Definition receipts_by_hash (receipts : list Receipt) : gmap string Receipt :=
  fold_left (fun m receipt => <[r_transactionHash receipt := receipt]> m)
            receipts ∅.

(** The outcome of a computation as a value, for the places where the
    source goes on after a failure. *)
Definition attempt {S A} (m : M S A) : M S (Result A) :=
  fun s => let '(r, s') := m s in (Ok r, s').

Fixpoint for_each {S A B} (f : A -> M S B) (l : list A) : M S (list B) :=
  match l with
  | [] => ret []
  | x :: l' =>
      let* y := f x in
      let* ys := for_each f l' in
      ret (y :: ys)
  end.

(* ===================================================================== *)
(** * [ElectrumApi.ts]                                                    *)
(* ===================================================================== *)

(** The second argument of [getTransaction]: nothing, a height, or a
    block header. *)
Inductive HeightOrBlockHeader : Type :=
| Undefined
| Height (h : Z)
| Header (b : PlainBlockHeader).

Definition header_arg (o : option PlainBlockHeader) : HeightOrBlockHeader :=
  match o with Some b => Header b | None => Undefined end.

Module ElectrumApi.

(** ** [deriveAddressFromInput]

    The classification of an input by the number of chunks of its script
    and of items of its witness, over the decompiler and the payment
    constructors of the Bitcoin library.  It comes first here because
    [inputToPlain] calls it. *)

(** A chunk of a decompiled script: an opcode or the data of a push. *)
Inductive Chunk : Type :=
| OpCode (n : Z)
| Data (b : list byte).

(** What [deriveAddressFromInput] takes from the Bitcoin library: the
    decompiler of scripts ([None] is [null]) and the constructors of the
    payments, which throw on an argument they do not accept; an argument
    read from an array may be [undefined]. *)
Class Payments : Type := {
  Payment : Type;
  script_decompile : option Chunk -> Result (option (list Chunk));
  payments_p2pkh : option Chunk -> Result Payment;
  payments_p2wpkh : option (list byte) -> Result Payment;
  payments_p2ms : Z -> list (list byte) -> Result Payment;
  payments_p2sh : Payment -> Result Payment;
  payments_p2wsh : Payment -> Result Payment;
  payment_address : Payment -> option string;
}.

(** The calls of [console.error]. *)
Definition Console (A : Type) : Type := M (list Error) A.

Definition console_error (e : Error) : Console unit :=
  fun lines => (Ok tt, lines ++ [e]).

Section WithPayments.
Context `{Payments}.

(** [BitcoinJS.script.decompile(chunk)!.filter(n => typeof n !== 'number')]:
    the pushed data of the script that the chunk holds. *)
Definition pubkeys_of (chunk : option Chunk) : Result (list (list byte)) :=
  match script_decompile chunk with
  | Err e => Err e
  | Ok None => Err (TypeError "Cannot read properties of null")
  | Ok (Some chunks) =>
      Ok (omap (fun c => match c with Data b => Some b | OpCode _ => None end)
               chunks)
  end.

(** [payment.address] of a payment that was built, or its exception. *)
Definition address_of (p : Result Payment) : Console (option string) :=
  let* payment := lift p in
  ret (payment_address payment).

Definition deriveAddressFromInput (input : TxInput) : Console (option string) :=
  let* decompiled := lift (script_decompile (Some (Data (in_script input)))) in
  let chunks := default [] decompiled in
  let witness := in_witness input in
  if (length chunks =? 2)%nat && (length witness =? 0)%nat then
    address_of (payments_p2pkh (chunks !! 1%nat))
  else if (length chunks =? 1)%nat && (length witness =? 2)%nat then
    let* redeem := lift (payments_p2wpkh (witness !! 1%nat)) in
    address_of (payments_p2sh redeem)
  else if (length chunks =? 0)%nat && (length witness =? 2)%nat then
    address_of (payments_p2wpkh (witness !! 1%nat))
  else if (2 <? length chunks)%nat && (length witness =? 0)%nat then
    let m := Z.of_nat (length chunks) - 2 in
    let* pubkeys := lift (pubkeys_of (last chunks)) in
    let* redeem := lift (payments_p2ms m pubkeys) in
    address_of (payments_p2sh redeem)
  else if (length chunks =? 1)%nat && (2 <? length witness)%nat then
    let m := Z.of_nat (length witness) - 2 in
    let* pubkeys := lift (pubkeys_of (Data <$> last witness)) in
    let* inner := lift (payments_p2ms m pubkeys) in
    let* redeem := lift (payments_p2wsh inner) in
    address_of (payments_p2sh redeem)
  else if (length chunks =? 0)%nat && (2 <? length witness)%nat then
    let m := Z.of_nat (length witness) - 2 in
    let* pubkeys := lift (pubkeys_of (Data <$> last witness)) in
    let* redeem := lift (payments_p2ms m pubkeys) in
    address_of (payments_p2wsh redeem)
  else
    do* console_error (JsError "Cannot decode address from input") in
    ret None.

(** What [deriveAddressFromInput] returns or throws for its caller.  The
    line that it may write on the console is no part of it. *)
Definition input_address (input : TxInput) : Result (option string) :=
  fst (deriveAddressFromInput input []).

End WithPayments.

(** The numbers of chunks and of witness items for which
    [deriveAddressFromInput] has no case. *)
Definition undecodable_shape (chunks witness : nat) : Prop :=
  (witness = 0 /\ chunks < 2)%nat
  \/ witness = 1%nat
  \/ (2 <= witness /\ 2 <= chunks)%nat.

(** ** The methods of the class *)

Section WithPeer.
Context `{Platform} `{BitcoinLib} `{Payments}.
Variable srv : Server.
(** [options.network] is the test network. *)
Variable testnet : bool.

(** [SHA-256(SHA-256(x))], written as two nested digests in the source. *)
Definition sha256d (b : list byte) : list byte := sha256 (sha256 b).

Definition addressToScriptHash (addr : string) : Api string :=
  let* outputScript :=
    lift (from_option (LibraryError addr) (address_toOutputScript addr)) in
  ret (bytesToHex (rev (sha256 outputScript))).

Definition getBalance (address : string) : Api Balance :=
  let* scriptHash := addressToScriptHash address in
  request (ReqGetBalance scriptHash) (srv_get_balance srv scriptHash).

(** One element of the [receipts.map] of [getReceipts]: the spread
    [...(r.fee ? { fee: r.fee } : {})] keeps the fee when it is truthy. *)
Definition receipt_of_entry (r : HistoryEntry) : Receipt := {|
  r_blockHeight := height r;
  r_transactionHash := tx_hash r;
  r_fee := match fee r with
           | Some f => if truthy f then Some f else None
           | None => None
           end;
|}.

Definition getReceipts (address : string) (isScriptHash : bool)
  : Api (list Receipt) :=
  let* scriptHash :=
    (if isScriptHash then ret address else addressToScriptHash address) in
  let* receipts :=
    request (ReqGetHistory scriptHash) (srv_get_history srv scriptHash) in
  ret (map receipt_of_entry receipts).

(** [address || null] on a string that may be [undefined]: the empty
    string is falsy. *)
Definition or_null (address : option string) : option string :=
  match address with
  | Some a => if decide (a = "") then None else Some a
  | None => None
  end.

(** [inputToPlain] throws what [deriveAddressFromInput] throws for the
    input. *)
Definition inputToPlain (input : TxInput) (index : nat) : Result PlainInput :=
  match input_address input with
  | Err e => Err e
  | Ok address => Ok {|
      i_script := bytesToHex (in_script input);
      i_transactionHash := bytesToHex (rev (in_hash input));
      i_address := or_null address;
      i_witness := map bytesToHex (in_witness input);
      i_index := index;
      i_outputIndex := in_index input;
      i_sequence := in_sequence input |}
  end.

Definition outputToPlain (output : TxOutput) (index : nat)
  : Result PlainOutput :=
  match address_fromOutputScript (out_script output) with
  | Some a => Ok {| o_script := bytesToHex (out_script output);
                    o_address := a;
                    o_value := out_value output;
                    o_index := index |}
  | None => Err (LibraryError "no matching Address")
  end.

Definition attach_block (plain : PlainTransaction)
  (plainHeader : option PlainBlockHeader) : PlainTransaction :=
  match plainHeader with
  | Some b => {|
      t_transactionHash := t_transactionHash plain;
      t_inputs := t_inputs plain;
      t_outputs := t_outputs plain;
      t_version := t_version plain;
      t_vsize := t_vsize plain;
      t_isCoinbase := t_isCoinbase plain;
      t_weight := t_weight plain;
      t_blockHash := Some (h_blockHash b);
      t_blockHeight := Some (h_blockHeight b);
      t_timestamp := Some (h_timestamp b);
      t_replaceByFee := t_replaceByFee plain |}
  | None => plain
  end.

(** The inputs are converted before the outputs, and the first exception
    of either [map] ends the conversion. *)
Definition transactionToPlain (raw : string)
  (plainHeader : option PlainBlockHeader) : Result PlainTransaction :=
  match Transaction_fromHex raw with
  | None => Err (LibraryError "Transaction.fromHex")
  | Some tx =>
      match all_ok (imap (fun index input => inputToPlain input index) (tx_ins tx)) with
      | Err e => Err e
      | Ok inputs =>
          match all_ok (imap (fun index output => outputToPlain output index) (tx_outs tx)) with
          | Err e => Err e
          | Ok outputs =>
              let plain := {|
                t_transactionHash := Transaction_getId tx;
                t_inputs := inputs;
                t_outputs := outputs;
                t_version := tx_version tx;
                t_vsize := Transaction_virtualSize tx;
                t_isCoinbase := Transaction_isCoinbase tx;
                t_weight := Transaction_weight tx;
                t_blockHash := None;
                t_blockHeight := None;
                t_timestamp := None;
                t_replaceByFee :=
                  existsb (fun input => i_sequence input <? 4294967294) inputs |} in
              Ok (attach_block plain plainHeader)
          end
      end
  end.

Definition blockHeaderToPlain (raw : string) (height : Z)
  : Result PlainBlockHeader :=
  match Block_fromHex raw with
  | None => Err (LibraryError "Block.fromHex")
  | Some header => Ok {|
      h_blockHash := Block_getId header;
      h_blockHeight := height;
      h_timestamp := blk_timestamp header;
      h_bits := blk_bits header;
      h_nonce := blk_nonce header;
      h_version := blk_version header;
      h_weight := Block_weight header;
      h_prevHash := (fun b => bytesToHex (rev b)) <$> blk_prevHash header;
      h_merkleRoot := (fun b => bytesToHex (rev b)) <$> blk_merkleRoot header |}
  end.

Definition getBlockHeader (height : Z) : Api PlainBlockHeader :=
  let* raw := request (ReqBlockHeader height) (srv_block_header srv height) in
  lift (blockHeaderToPlain raw height).

(** One turn of the loop of [getTransactionMerkleRoot] over the index [i]
    and the current [node]. *)
Definition merkle_step (st : Z * list byte) (pairHash : string)
  : Z * list byte :=
  let '(i, node) := st in
  let pairNode := rev (hexToBytes pairHash) in
  let concatenated :=
    if Z.rem i 2 =? 0 then node ++ pairNode else pairNode ++ node in
  (i / 2, sha256 (sha256 concatenated)).

Definition merkle_root_of (hash : string) (proof : MerkleProof) : string :=
  let st := fold_left merkle_step (merkle proof)
                      (pos proof, rev (hexToBytes hash)) in
  bytesToHex (rev (snd st)).

Definition getTransactionMerkleRoot (hash : string) (height : Z) : Api string :=
  let* proof :=
    request (ReqGetMerkle hash height) (srv_get_merkle srv hash height) in
  ret (merkle_root_of hash proof).

Definition invalid_merkle_proof (hash : string) (blockHeight : Z) : Error :=
  JsError ("Invalid merkle proof for given block height: "
           +:+ hash +:+ ", " +:+ pretty blockHeight).

Definition getTransaction (hash : string)
  (heightOrBlockHeader : HeightOrBlockHeader) : Api PlainTransaction :=
  let* blockHeader :=
    match heightOrBlockHeader with
    | Header b => ret (Some b)
    | Height h =>
        if h >? 0 then (let* b := getBlockHeader h in ret (Some b))
        else ret None
    | Undefined => ret None
    end in
  do* match blockHeader with
      | Some b =>
          let* transactionMerkleRoot :=
            getTransactionMerkleRoot hash (h_blockHeight b) in
          if bool_decide (Some transactionMerkleRoot = h_merkleRoot b)
          then ret tt
          else throw (invalid_merkle_proof hash (h_blockHeight b))
      | None => ret tt
      end in
  let* raw := request (ReqTransactionGet hash) (srv_transaction_get srv hash) in
  lift (transactionToPlain raw blockHeader).

Definition getFeeHistogram : Api (list (Z * Z)) :=
  request ReqFeeHistogram (srv_fee_histogram srv).

Definition broadcastTransaction (rawTx : string) : Api PlainTransaction :=
  let* tx := lift (transactionToPlain rawTx None) in
  let* hash := request (ReqBroadcast rawTx) (srv_broadcast srv rawTx) in
  if bool_decide (hash = t_transactionHash tx) then ret tx
  else throw (JsError hash).

(** ** [getHistory] *)

(** The comparison function of the sort: newest first, a height of [0]
    (unconfirmed) counting as the largest. *)
Definition by_height_desc (a b : Receipt) : Z :=
  or_default (r_blockHeight b) MAX_SAFE_INTEGER
  - or_default (r_blockHeight a) MAX_SAFE_INTEGER.

Definition unwanted (sinceBlockHeight : Z) (receipt : Receipt) : bool :=
  (r_blockHeight receipt >? 0) && (r_blockHeight receipt <? sinceBlockHeight).

(** The history after the sort and the cut to [limit] ([None] is
    [Infinity]). *)
Definition sorted_history (limit : option Z) (receipts : list Receipt)
  : list Receipt :=
  let history := sort by_height_desc receipts in
  match limit with
  | Some n => slice0 history n
  | None => history
  end.

(** The receipts whose transactions the loop goes through: the sorted
    history, cut again when [sinceBlockHeight] is positive. *)
Definition history_to_fetch (sinceBlockHeight : Z) (limit : option Z)
  (receipts : list Receipt) : list Receipt :=
  let history := sorted_history limit receipts in
  if sinceBlockHeight >? 0 then
    let firstUnwantedHistoryIndex := findIndex (unwanted sinceBlockHeight) history in
    slice0 history firstUnwantedHistoryIndex
  else history.

Definition is_known (knownTxs : gmap string Receipt) (receipt : Receipt) : bool :=
  match knownTxs !! r_transactionHash receipt with
  | Some knownTx =>
      bool_decide (r_blockHeight knownTx = Z.max (r_blockHeight receipt) 0)
  | None => false
  end.

(** The header of the inner [try] of the loop: from the local cache, or
    fetched and cached when the height is positive. *)
Definition header_for (blockHeaders : gmap Z PlainBlockHeader) (blockHeight : Z)
  : Api (option PlainBlockHeader * gmap Z PlainBlockHeader) :=
  match blockHeaders !! blockHeight with
  | Some b => ret (Some b, blockHeaders)
  | None =>
      if blockHeight >? 0 then
        let* b := getBlockHeader blockHeight in
        ret (Some b, <[blockHeight := b]> blockHeaders)
      else ret (None, blockHeaders)
  end.

(** How one turn of the loop ends: with [continue] (or by falling
    through), or with the [return txs] of the outer [catch]. *)
Inductive LoopExit : Type :=
| Continue (blockHeaders : gmap Z PlainBlockHeader) (txs : list PlainTransaction)
| Return (txs : list PlainTransaction).

(** The body of the loop for a receipt that is not skipped: a failing
    header request ends the loop with the transactions found so far, a
    failing transaction is left out. *)
Definition fetch_one (receipt : Receipt)
  (blockHeaders : gmap Z PlainBlockHeader) (txs : list PlainTransaction)
  : Api LoopExit :=
  try_catch
    (let* hb := header_for blockHeaders (r_blockHeight receipt) in
     try_catch
       (let* tx := getTransaction (r_transactionHash receipt)
                                  (header_arg (fst hb)) in
        ret (Continue (snd hb) (txs ++ [tx])))
       (fun _ => ret (Continue (snd hb) txs)))
    (fun _ => ret (Return txs)).

Fixpoint fetch_transactions (knownTxs : gmap string Receipt)
  (history : list Receipt) (blockHeaders : gmap Z PlainBlockHeader)
  (txs : list PlainTransaction) : Api (list PlainTransaction) :=
  match history with
  | [] => ret txs
  | receipt :: rest =>
      if is_known knownTxs receipt
      then fetch_transactions knownTxs rest blockHeaders txs
      else
        let* exit := fetch_one receipt blockHeaders txs in
        match exit with
        | Continue blockHeaders' txs' =>
            fetch_transactions knownTxs rest blockHeaders' txs'
        | Return txs' => ret txs'
        end
  end.

Definition getHistory (address : string) (sinceBlockHeight : Z)
  (knownReceipts : list Receipt) (limit : option Z)
  : Api (list PlainTransaction) :=
  let knownTxs := receipts_by_hash knownReceipts in
  let* history := getReceipts address false in
  fetch_transactions knownTxs
    (history_to_fetch sinceBlockHeight limit history) ∅ [].

(** ** Subscriptions and the peer list *)

(** The request that [socket.subscribe] sends for a script hash; the
    callback is then called with the first answer and with every later
    notification. *)
Definition subscribeReceipts (address : string) : Api string :=
  let* scriptHash := addressToScriptHash address in
  let* _ := request (ReqSubscribeScriptHash scriptHash) (Ok tt) in
  ret scriptHash.

(** The receipts that the callback of [subscribeReceipts] passes on for a
    status: none for a falsy status, the history otherwise. *)
Definition receipts_of_status (scriptHash : string) (status : option string)
  : Api (list Receipt) :=
  match status with
  | None => ret []
  | Some "" => ret []
  | Some _ => getReceipts scriptHash true
  end.

Definition subscribeHeaders : Api unit :=
  request ReqSubscribeHeaders (Ok tt).

Definition default_port (main test : Z) : Z := if testnet then test else main.

Definition port_of (rest : string) (main test : Z) : option Z :=
  if bool_decide (rest = "") then Some (default_port main test)
  else Number_parseInt rest.

(** One turn of the loop over the features of a peer. *)
Definition peer_meta (p : Peer) (meta : string) : Peer :=
  match meta with
  | String "v" rest =>
      {| ip := ip p; host := host p; p_version := rest;
         pruningLimit := pruningLimit p; ports := ports p |}
  | String "p" rest =>
      {| ip := ip p; host := host p; p_version := p_version p;
         pruningLimit := Number_parseInt rest; ports := ports p |}
  | String "t" rest =>
      {| ip := ip p; host := host p; p_version := p_version p;
         pruningLimit := pruningLimit p;
         ports := {| tcp := port_of rest 50001 60001;
                     ssl := ssl (ports p); wss := wss (ports p) |} |}
  | String "s" rest =>
      {| ip := ip p; host := host p; p_version := p_version p;
         pruningLimit := pruningLimit p;
         ports := {| tcp := tcp (ports p);
                     ssl := port_of rest 50002 60002; wss := wss (ports p) |} |}
  | String "w" rest =>
      {| ip := ip p; host := host p; p_version := p_version p;
         pruningLimit := pruningLimit p;
         ports := {| tcp := tcp (ports p); ssl := ssl (ports p);
                     wss := port_of rest 50004 60004 |} |}
  | _ => p
  end.

Definition peer_of (peer : string * string * list string) : Peer :=
  let '(ip0, host0, metas) := peer in
  fold_left peer_meta metas
    {| ip := ip0; host := host0; p_version := ""; pruningLimit := None;
       ports := {| tcp := None; ssl := None; wss := None |} |}.

Definition getPeers : Api (list Peer) :=
  let* peers := request ReqPeers (srv_peers srv) in
  ret (map peer_of peers).

(** ** Methods of the connection that the agent calls and whose code is
    not part of the two files *)

(** Modelled from the spec: [estimate_fee(target)] is one of the thin typed
    methods over the socket, here over [blockchain.estimatefee]. *)
Definition estimateFee (target : Z) : Api Z :=
  request (ReqEstimateFee target) (srv_estimatefee srv target).


(** Modelled from the spec: the liveness probe, over [server.ping]. *)
Definition ping_request : Api unit :=
  request ReqPing (srv_ping srv).

(** Modelled from the spec: [set_protocol_version(client_id, [min, max])]
    is [server.version] and fails if the server cannot satisfy the range. *)
Definition setProtocolVersion : Api unit :=
  request ReqVersion (srv_version srv).

(** [getFeatures], of which the agent reads the genesis hash. *)
Definition getFeatures : Api string :=
  request ReqFeatures (srv_features_genesis_hash srv).

(** Modelled from the spec: [proofTransaction] is the standalone Merkle
    proof, the verification of section 4.4.1 without the fetch of the raw
    transaction. *)
Definition proofTransaction (hash : string) (block : PlainBlockHeader)
  : Api bool :=
  let* transactionMerkleRoot :=
    getTransactionMerkleRoot hash (h_blockHeight block) in
  if bool_decide (Some transactionMerkleRoot = h_merkleRoot block)
  then ret true
  else throw (invalid_merkle_proof hash (h_blockHeight block)).

End WithPeer.

(** ** Notions that the properties of the methods are stated with *)

(** The rest of a feature that starts with the character [c]. *)
Definition feature_rest (c : ascii) (meta : string) : option string :=
  match meta with
  | String c' rest => if Ascii.eqb c' c then Some rest else None
  | EmptyString => None
  end.

(** The rest of the last feature of a peer that starts with [c]. *)
Definition last_feature (c : ascii) (metas : list string) : option string :=
  last (omap (feature_rest c) metas).

#[global] Instance Request_eq_dec : EqDecision Request.
Proof. solve_decision. Defined.

(** How often the header of height [h] was requested in a log. *)
Definition header_requests (h : Z) (log : list Request) : nat :=
  length (filter (fun r => r = ReqBlockHeader h) log).

(** The height that [getHistory] sorts a receipt by. *)
Definition sort_key (r : Receipt) : Z :=
  or_default (r_blockHeight r) MAX_SAFE_INTEGER.

(** The script hash that [addressToScriptHash] gives for an address. *)
Definition scriptHash_of `{Platform} `{BitcoinLib} (address : string)
  : Result string :=
  fst (addressToScriptHash address []).

End ElectrumApi.

(* ===================================================================== *)
(** * The Merkle proof in the words of the specification                  *)
(* ===================================================================== *)

Module Spec.
Section Merkle.
Context `{Platform}.

(** Section 4.4.1, step 3: for each [pair_hash] in order,
    [pair = reverse_bytes(hex_decode(pair_hash))]; if [i % 2 == 0] then
    [node = SHA-256d(node || pair)] else [node = SHA-256d(pair || node)];
    [i = i >> 1]. *)
Fixpoint fold_path (node : list byte) (i : Z) (path : list string) : list byte :=
  match path with
  | [] => node
  | pair_hash :: rest =>
      let pair := rev (hexToBytes pair_hash) in
      let node' :=
        if i mod 2 =? 0 then ElectrumApi.sha256d (node ++ pair)
        else ElectrumApi.sha256d (pair ++ node) in
      fold_path node' (Z.shiftr i 1) rest
  end.

(** Steps 1, 2 and 4: the node starts as the reversed bytes of the
    transaction hash at index [pos]; the computed root is the hex of the
    reversed final node. *)
Definition computed_root (tx_hash : string) (proof : MerkleProof) : string :=
  bytesToHex (rev (fold_path (rev (hexToBytes tx_hash)) (pos proof) (merkle proof))).

End Merkle.
End Spec.

(* ===================================================================== *)
(** * [Agent.ts]                                                          *)
(* ===================================================================== *)

Module Agent.

Inductive Event : Type :=
| BLOCK (block : PlainBlockHeader)
| TRANSACTION_ADDED (tx : PlainTransaction)
| TRANSACTION_MINED (tx : PlainTransaction) (block : PlainBlockHeader)
| SYNCING
| SYNCED
| CLOSE (reason : string).

Inductive LogEntry : Type :=
| LogDebug (message : string)
| LogWarn (message : string) (block : PlainBlockHeader)
| LogError (e : Error).

Definition HANDSHAKE_TIMEOUT : Z := 1000 * 4.
Definition PING_TIMEOUT : Z := 1000 * 10.
Definition CONNECTIVITY_CHECK_INTERVAL : Z := 1000 * 60.

(** The connection object that the constructor builds. *)
Record Connection : Type := {
  endpoint : string;
  proxy : bool;
  token : option string;
}.

(** The fields of the class. *)
Record Fields : Type := {
  connection : option Connection;
  handshaking : bool;
  syncing : bool;
  synced : bool;
  knownReceipts : gmap string (gmap string Receipt);
  pingInterval : Z;
}.

(** Modelled from the spec: [BlockStore] and [TransactionStore], whose
    module is not among the source files, are process-wide key-value
    caches keyed by height and by transaction hash, where a write replaces
    the value of its key.  The record holds them with what else the agent
    acts on outside its fields: the events given to the observers, the
    lines given to the logger, the requests sent on the connection and the
    reasons the connection was closed with. *)
Record World : Type := {
  BlockStore : gmap Z PlainBlockHeader;
  TransactionStore : gmap string PlainTransaction;
  fired : list Event;
  logged : list LogEntry;
  sent : list Request;
  closes : list string;
}.

(** The timers of the window and the continuations that wait for the
    peer: the active intervals [(id, period)], the pending ping timeouts
    [(id, delay, failedTries)], the calls of [sync] that wait for the
    connection or for the handshake, and the subscriptions. *)
Record Pending : Type := {
  intervals : list (Z * Z);
  timeouts : list (Z * Z * Z);
  nextTimer : Z;
  awaitingConnection : nat;
  awaitingHandshake : nat;
  headSubscriptions : nat;
  subscriptions : list (string * string);
}.

Record State : Type := {
  agent : Fields;
  world : World;
  pending : Pending;
}.

(** ** Updates *)

Definition with_agent (f : Fields -> Fields) (s : State) : State :=
  {| agent := f (agent s); world := world s; pending := pending s |}.

Definition with_world (f : World -> World) (s : State) : State :=
  {| agent := agent s; world := f (world s); pending := pending s |}.

Definition with_pending (f : Pending -> Pending) (s : State) : State :=
  {| agent := agent s; world := world s; pending := f (pending s) |}.

Definition set_connection (c : option Connection) (a : Fields) : Fields :=
  {| connection := c; handshaking := handshaking a; syncing := syncing a;
     synced := synced a; knownReceipts := knownReceipts a;
     pingInterval := pingInterval a |}.

Definition set_handshaking (b : bool) (a : Fields) : Fields :=
  {| connection := connection a; handshaking := b; syncing := syncing a;
     synced := synced a; knownReceipts := knownReceipts a;
     pingInterval := pingInterval a |}.

Definition set_syncing (b : bool) (a : Fields) : Fields :=
  {| connection := connection a; handshaking := handshaking a; syncing := b;
     synced := synced a; knownReceipts := knownReceipts a;
     pingInterval := pingInterval a |}.

Definition set_synced (b : bool) (a : Fields) : Fields :=
  {| connection := connection a; handshaking := handshaking a;
     syncing := syncing a; synced := b; knownReceipts := knownReceipts a;
     pingInterval := pingInterval a |}.

Definition set_knownReceipts (k : gmap string (gmap string Receipt))
  (a : Fields) : Fields :=
  {| connection := connection a; handshaking := handshaking a;
     syncing := syncing a; synced := synced a; knownReceipts := k;
     pingInterval := pingInterval a |}.

Definition set_pingInterval (id : Z) (a : Fields) : Fields :=
  {| connection := connection a; handshaking := handshaking a;
     syncing := syncing a; synced := synced a;
     knownReceipts := knownReceipts a; pingInterval := id |}.

Definition set_BlockStore (m : gmap Z PlainBlockHeader) (w : World) : World :=
  {| BlockStore := m; TransactionStore := TransactionStore w;
     fired := fired w; logged := logged w; sent := sent w;
     closes := closes w |}.

Definition set_TransactionStore (m : gmap string PlainTransaction)
  (w : World) : World :=
  {| BlockStore := BlockStore w; TransactionStore := m;
     fired := fired w; logged := logged w; sent := sent w;
     closes := closes w |}.

Definition set_fired (l : list Event) (w : World) : World :=
  {| BlockStore := BlockStore w; TransactionStore := TransactionStore w;
     fired := l; logged := logged w; sent := sent w; closes := closes w |}.

Definition set_logged (l : list LogEntry) (w : World) : World :=
  {| BlockStore := BlockStore w; TransactionStore := TransactionStore w;
     fired := fired w; logged := l; sent := sent w; closes := closes w |}.

Definition set_sent (l : list Request) (w : World) : World :=
  {| BlockStore := BlockStore w; TransactionStore := TransactionStore w;
     fired := fired w; logged := logged w; sent := l; closes := closes w |}.

Definition set_closes (l : list string) (w : World) : World :=
  {| BlockStore := BlockStore w; TransactionStore := TransactionStore w;
     fired := fired w; logged := logged w; sent := sent w; closes := l |}.

Definition set_intervals (l : list (Z * Z)) (p : Pending) : Pending :=
  {| intervals := l; timeouts := timeouts p; nextTimer := nextTimer p;
     awaitingConnection := awaitingConnection p;
     awaitingHandshake := awaitingHandshake p;
     headSubscriptions := headSubscriptions p;
     subscriptions := subscriptions p |}.

Definition set_timeouts (l : list (Z * Z * Z)) (p : Pending) : Pending :=
  {| intervals := intervals p; timeouts := l; nextTimer := nextTimer p;
     awaitingConnection := awaitingConnection p;
     awaitingHandshake := awaitingHandshake p;
     headSubscriptions := headSubscriptions p;
     subscriptions := subscriptions p |}.

Definition set_nextTimer (n : Z) (p : Pending) : Pending :=
  {| intervals := intervals p; timeouts := timeouts p; nextTimer := n;
     awaitingConnection := awaitingConnection p;
     awaitingHandshake := awaitingHandshake p;
     headSubscriptions := headSubscriptions p;
     subscriptions := subscriptions p |}.

Definition set_awaitingConnection (n : nat) (p : Pending) : Pending :=
  {| intervals := intervals p; timeouts := timeouts p;
     nextTimer := nextTimer p; awaitingConnection := n;
     awaitingHandshake := awaitingHandshake p;
     headSubscriptions := headSubscriptions p;
     subscriptions := subscriptions p |}.

Definition set_awaitingHandshake (n : nat) (p : Pending) : Pending :=
  {| intervals := intervals p; timeouts := timeouts p;
     nextTimer := nextTimer p; awaitingConnection := awaitingConnection p;
     awaitingHandshake := n; headSubscriptions := headSubscriptions p;
     subscriptions := subscriptions p |}.

Definition set_headSubscriptions (n : nat) (p : Pending) : Pending :=
  {| intervals := intervals p; timeouts := timeouts p;
     nextTimer := nextTimer p; awaitingConnection := awaitingConnection p;
     awaitingHandshake := awaitingHandshake p; headSubscriptions := n;
     subscriptions := subscriptions p |}.

Definition set_subscriptions (l : list (string * string)) (p : Pending)
  : Pending :=
  {| intervals := intervals p; timeouts := timeouts p;
     nextTimer := nextTimer p; awaitingConnection := awaitingConnection p;
     awaitingHandshake := awaitingHandshake p;
     headSubscriptions := headSubscriptions p; subscriptions := l |}.

(** ** Effects *)

Definition Act (A : Type) : Type := M State A.

Definition modify (f : State -> State) : Act unit := fun s => (Ok tt, f s).

Definition get {A} (f : State -> A) : Act A := fun s => (Ok (f s), s).

(** Modelled from the spec: [fire] of the observable, whose class is not
    among the source files, hands the event to the observers; the events
    are kept in the order they were fired. *)
Definition fire (e : Event) : Act unit :=
  modify (with_world (fun w => set_fired (fired w ++ [e]) w)).

Definition logger (l : LogEntry) : Act unit :=
  modify (with_world (fun w => set_logged (logged w ++ [l]) w)).

Definition BlockStore_set (h : Z) (b : PlainBlockHeader) : Act unit :=
  modify (with_world (fun w => set_BlockStore (<[h := b]> (BlockStore w)) w)).

Definition TransactionStore_set (h : string) (tx : PlainTransaction)
  : Act unit :=
  modify (with_world
            (fun w => set_TransactionStore (<[h := tx]> (TransactionStore w)) w)).

Definition null_connection : Error :=
  TypeError "Cannot read properties of null".

(** [this.connection!.method(...)]: the method runs on the log of the
    connection; on a [null] connection the access throws. *)
Definition call {A} (m : Api A) : Act A :=
  fun s =>
    match connection (agent s) with
    | None => (Err null_connection, s)
    | Some _ =>
        let '(r, log) := m (sent (world s)) in
        (r, with_world (set_sent log) s)
    end.

(** [window.setInterval(handler, period)] and [clearInterval(id)]. *)
Definition setInterval (period : Z) : Act Z :=
  fun s =>
    let id := nextTimer (pending s) in
    (Ok id,
     with_pending
       (fun p => set_nextTimer (id + 1)
                   (set_intervals (intervals p ++ [(id, period)]) p)) s).

Definition clearInterval (id : Z) : Act unit :=
  modify (with_pending
            (fun p => set_intervals
                        (filter (fun t => fst t ≠ id) (intervals p)) p)).

(** [setTimeout(handler, delay)] of [ping], whose handler is determined
    by [failedTries], and [clearTimeout(id)]. *)
Definition setTimeout (delay failedTries : Z) : Act Z :=
  fun s =>
    let id := nextTimer (pending s) in
    (Ok id,
     with_pending
       (fun p => set_nextTimer (id + 1)
                   (set_timeouts (timeouts p ++ [(id, delay, failedTries)]) p))
       s).

Definition clearTimeout (id : Z) : Act unit :=
  modify (with_pending
            (fun p => set_timeouts
                        (filter (fun t => fst (fst t) ≠ id) (timeouts p)) p)).

(** A method of the connection object itself, whatever the agent's field
    holds. *)
Definition on_connection {A} (m : Api A) : Act A :=
  fun s =>
    let '(r, log) := m (sent (world s)) in
    (r, with_world (set_sent log) s).

Section WithPeer.
Context `{Platform} `{BitcoinLib} `{ElectrumApi.Payments}.
Variable srv : Server.
Variable testnet : bool.
(** [GenesisConfig.GENESIS_HASH]. *)
Variable GENESIS_HASH : string.

(** ** The public methods *)

Definition not_synced : Error := JsError "Agent not synced".

(** [if (!this.synced) throw new Error("Agent not synced");] *)
Definition require_synced : Act unit :=
  fun s => if synced (agent s) then (Ok tt, s) else (Err not_synced, s).

Definition getBalance (address : string) : Act Balance :=
  do* require_synced in
  call (ElectrumApi.getBalance srv address).


Definition getTransaction (hash : string) (block : option PlainBlockHeader)
  : Act PlainTransaction :=
  do* require_synced in
  call (ElectrumApi.getTransaction srv hash (header_arg block)).

Definition getBlockHeader (height : Z) : Act PlainBlockHeader :=
  do* require_synced in
  call (ElectrumApi.getBlockHeader srv height).

(** [this.connection!.estimateFee(target).catch(() => -1)]: the access to
    the connection is outside the promise that [catch] guards. *)
Definition estimateFees (targetBlocks : list Z) : Act (list Z) :=
  for_each
    (fun target =>
       call (try_catch (ElectrumApi.estimateFee srv target)
                       (fun _ => ret (-1))))
    targetBlocks.

Definition getFeeHistogram : Act (list (Z * Z)) :=
  do* require_synced in
  call (ElectrumApi.getFeeHistogram srv).


Definition broadcastTransaction (rawTx : string) : Act PlainTransaction :=
  do* require_synced in
  call (ElectrumApi.broadcastTransaction srv rawTx).

Definition subscribe (addresses : list string) : Act unit :=
  do* require_synced in
  let* _ :=
    for_each
      (fun address =>
         let* scriptHash := call (ElectrumApi.subscribeReceipts address) in
         modify (with_pending
                   (fun p => set_subscriptions
                               (subscriptions p ++ [(address, scriptHash)]) p)))
      addresses in
  ret tt.

Definition getPeers : Act (list Peer) :=
  do* require_synced in
  call (ElectrumApi.getPeers srv testnet).

Definition close (reason : string) : Act unit :=
  do* logger (LogDebug ("Agent: Closed: " +:+ reason)) in
  do* (fun s =>
         match connection (agent s) with
         | Some _ =>
             (Ok tt, with_world (fun w => set_closes (closes w ++ [reason]) w) s)
         | None => (Ok tt, s)
         end) in
  do* modify (with_agent (set_connection None)) in
  do* modify (with_agent (set_syncing false)) in
  do* modify (with_agent (set_synced false)) in
  do* fire (CLOSE reason) in
  let* id := get (fun s => pingInterval (agent s)) in
  clearInterval id.

(** ** [sync], in the three parts that its two [await]s separate *)

(** The guard, up to [await this.connection!.waitForConnectionEstablished()]. *)
Definition sync_call : Act unit :=
  fun s =>
    if handshaking (agent s) || syncing (agent s) || synced (agent s)
    then (Ok tt, s)
    else
      match connection (agent s) with
      | None => (Err null_connection, s)
      | Some _ =>
          (Ok tt,
           with_pending
             (fun p => set_awaitingConnection (S (awaitingConnection p)) p) s)
      end.

(** From the established connection to [await this.handshake()]. *)
Definition sync_connected : Act unit :=
  fun s =>
    match awaitingConnection (pending s) with
    | O => (Ok tt, s)
    | S n =>
        (do* modify (with_pending (set_awaitingConnection n)) in
         do* modify (with_agent (set_handshaking true)) in
         fun s' =>
           match connection (agent s') with
           | None => (Err (JsError "Agent not connected"), s')
           | Some _ =>
               (Ok tt,
                with_pending
                  (fun p => set_awaitingHandshake (S (awaitingHandshake p)) p)
                  s')
           end) s
    end.

(** The body of the promise of [handshake]: the protocol version, then
    the genesis hash of the peer's features. *)
Definition handshake_answers : Act bool :=
  let* _ :=
    try_catch (call (ElectrumApi.setProtocolVersion srv))
              (fun _ => throw (JsError "Incompatible protocol version")) in
  let* genesis_hash := call (ElectrumApi.getFeatures srv) in
  if negb (bool_decide (genesis_hash = GENESIS_HASH))
  then throw (JsError "Wrong genesis hash")
  else ret true.

(** [handshake]; with [timedOut] the handshake timeout fires before the
    body has settled the promise, and the body still runs to its end. *)
Definition handshake (timedOut : bool) : Act bool :=
  fun s =>
    let '(r, s') := handshake_answers s in
    (if timedOut then Err (JsError "Handshake timeout") else r, s').

(** [requestHead]. *)
Definition requestHead : Act unit :=
  fun s =>
    match connection (agent s) with
    | None => (Err (JsError "Agent not connected"), s)
    | Some _ =>
        (do* on_connection ElectrumApi.subscribeHeaders in
         modify (with_pending
                   (fun p => set_headSubscriptions (S (headSubscriptions p)) p)))
          s
    end.

(** From the end of the handshake on.  The promise that [sync] returns,
    which the next [BLOCK] event resolves and the block timeout rejects,
    changes nothing of the agent and is left out. *)
Definition sync_handshaken (timedOut : bool) : Act unit :=
  fun s =>
    match awaitingHandshake (pending s) with
    | O => (Ok tt, s)
    | S n =>
        (do* modify (with_pending (set_awaitingHandshake n)) in
         let* _ := handshake timedOut in
         do* modify (with_agent (set_handshaking false)) in
         do* modify (with_agent (set_syncing true)) in
         do* fire SYNCING in
         requestHead) s
    end.

(** ** [close] is above; [ping] and its timers *)

Definition ping (failedTries : Z) : Act unit :=
  let* timeout := setTimeout PING_TIMEOUT failedTries in
  try_catch
    (do* call (ElectrumApi.ping_request srv) in
     clearTimeout timeout)
    (fun _ => ret tt).

(** The handler of the timeout that [ping failedTries] has set. *)
Definition ping_timeout (failedTries : Z) : Act unit :=
  if failedTries >? 1 then close "Ping timeout"
  else ping (failedTries + 1).

(** The timeout [id] fires, if it is still pending. *)
Definition on_timeout (id : Z) : Act unit :=
  fun s =>
    match List.find (fun t => fst (fst t) =? id) (timeouts (pending s)) with
    | None => (Ok tt, s)
    | Some (_, _, failedTries) =>
        (do* clearTimeout id in ping_timeout failedTries) s
    end.

(** The interval [id] fires, if it is still active: [ping()] with the
    default [failedTries = 0]. *)
Definition on_interval (id : Z) : Act unit :=
  fun s =>
    if existsb (fun t => fst t =? id) (intervals (pending s))
    then ping 0 s
    else (Ok tt, s).

(** ** [onBlock] *)

(** The test of the [if]: [(!prevBlock && block.blockHeight === 0) ||
    prevBlock!.blockHash === block.prevHash]. *)
Definition consecutive (prevBlock : option PlainBlockHeader)
  (block : PlainBlockHeader) : Result bool :=
  match prevBlock with
  | None =>
      if h_blockHeight block =? 0 then Ok true
      else Err (TypeError "Cannot read properties of undefined")
  | Some p => Ok (bool_decide (Some (h_blockHash p) = h_prevHash block))
  end.

(** [onBlock] from the acceptance test on, once [prevBlock] is known. *)
Definition onBlock_decide (block : PlainBlockHeader)
  (prevBlock : option PlainBlockHeader) : Act unit :=
  let* ok := lift (consecutive prevBlock block) in
  do* (if ok : bool then
         do* BlockStore_set (h_blockHeight block) block in
         fire (BLOCK block)
       else
         logger (LogWarn "Agent: Received non-consecutive block:" block)) in
  let* is_syncing := get (fun s => syncing (agent s)) in
  if is_syncing : bool then
    do* modify (with_agent (set_syncing false)) in
    do* modify (with_agent (set_synced true)) in
    do* fire SYNCED in
    let* id := setInterval CONNECTIVITY_CHECK_INTERVAL in
    modify (with_agent (set_pingInterval id))
  else ret tt.

(** [onBlock] after the [await] of the predecessor's header. *)
Definition onBlock_fetched (block prevBlock : PlainBlockHeader) : Act unit :=
  do* BlockStore_set (h_blockHeight prevBlock) prevBlock in
  onBlock_decide block (Some prevBlock).

(** [onBlock] as one run: the request for the predecessor's header is
    answered within it. *)
Definition onBlock (block : PlainBlockHeader) : Act unit :=
  let* prevBlock := get (fun s => BlockStore (world s) !! (h_blockHeight block - 1)) in
  match prevBlock with
  | None =>
      if h_blockHeight block >? 0 then
        let* fetched :=
          call (ElectrumApi.getBlockHeader srv (h_blockHeight block - 1)) in
        onBlock_fetched block fetched
      else onBlock_decide block None
  | Some p => onBlock_decide block (Some p)
  end.

(** ** [onReceipts] *)

(** A call of an asynchronous method of the connection runs up to its
    first [await]: the first request of the method is sent at the call,
    and the method goes on when the response has arrived.  [begun] is the
    part at the call, [resumed] the rest with the outcome of the method;
    the requests of a method do not depend on the log they are added
    to. *)
Definition begun {A} (m : Api A) : Api unit :=
  fun log => (Ok tt, log ++ take 1 (snd (m []))).

Definition resumed {A} (m : Api A) : Api A :=
  fun log => let '(r, requests) := m [] in (r, log ++ drop 1 requests).

(** The method adds its requests to the log and looks at nothing in it. *)
Definition appends {A} (m : Api A) : Prop :=
  forall log, m log = (fst (m []), log ++ snd (m [])).

(** The check of a transaction that a changed receipt starts; its promise
    settles after the loop has gone on. *)
Inductive TxCheck : Type :=
| FetchTransaction (hash : string) (block : option PlainBlockHeader)
| ProofStored (stored : PlainTransaction) (block : PlainBlockHeader)
| Stored (stored : PlainTransaction).

(** [knownReceipt && knownReceipt.blockHeight === receipt.blockHeight]. *)
Definition unchanged (known : gmap string Receipt) (receipt : Receipt) : bool :=
  match known !! r_transactionHash receipt with
  | Some knownReceipt =>
      bool_decide (r_blockHeight knownReceipt = r_blockHeight receipt)
  | None => false
  end.

(** The block of a receipt: none for a height that is not positive, else
    the header of the store, fetched and stored when it is missing. *)
Definition block_of_receipt (receipt : Receipt) : Act (option PlainBlockHeader) :=
  if r_blockHeight receipt >? 0 then
    let* stored := get (fun s => BlockStore (world s) !! r_blockHeight receipt) in
    match stored with
    | Some b => ret (Some b)
    | None =>
        let* b := getBlockHeader (r_blockHeight receipt) in
        do* BlockStore_set (h_blockHeight b) b in
        ret (Some b)
    end
  else ret None.

(** The check that is started for a receipt and its block: the call of
    [getTransaction] or of [proofTransaction] is made inside the loop, and
    a stored transaction without a block is a promise that is resolved
    already. *)
Definition start_check (receipt : Receipt) (block : option PlainBlockHeader)
  : Act TxCheck :=
  let* storedTransaction :=
    get (fun s => TransactionStore (world s) !! r_transactionHash receipt) in
  match storedTransaction, block with
  | None, _ =>
      do* call (begun (ElectrumApi.getTransaction srv
                         (r_transactionHash receipt) (header_arg block))) in
      ret (FetchTransaction (r_transactionHash receipt) block)
  | Some stored, Some b =>
      do* call (begun (ElectrumApi.proofTransaction srv
                         (t_transactionHash stored) b)) in
      ret (ProofStored stored b)
  | Some stored, None => ret (Stored stored)
  end.

(** The loop: the checks started, and the exception that ended the loop
    early if there was one. *)
Fixpoint start_checks (known : gmap string Receipt) (receipts : list Receipt)
  : Act (list TxCheck * option Error) :=
  match receipts with
  | [] => ret ([], None)
  | receipt :: rest =>
      if unchanged known receipt then start_checks known rest
      else
        let* started :=
          attempt (let* block := block_of_receipt receipt in
                   start_check receipt block) in
        match started with
        | Err e => ret ([], Some e)
        | Ok check =>
            let* more := start_checks known rest in
            ret (check :: fst more, snd more)
        end
  end.

Definition fire_transaction (tx : PlainTransaction)
  (block : option PlainBlockHeader) : Act unit :=
  match block with
  | Some b => fire (TRANSACTION_MINED tx b)
  | None => fire (TRANSACTION_ADDED tx)
  end.

(** A check settles: the transaction is stored when it was fetched, the
    event is fired, a failure is logged. *)
Definition settle (check : TxCheck) : Act unit :=
  match check with
  | FetchTransaction hash block =>
      let* r := attempt (on_connection
                           (resumed (ElectrumApi.getTransaction srv hash
                                       (header_arg block)))) in
      match r with
      | Ok tx =>
          do* TransactionStore_set (t_transactionHash tx) tx in
          fire_transaction tx block
      | Err e => logger (LogError e)
      end
  | ProofStored stored b =>
      let* r := attempt (on_connection
                           (resumed (ElectrumApi.proofTransaction srv
                                       (t_transactionHash stored) b))) in
      match r with
      | Ok _ => fire_transaction stored (Some b)
      | Err e => logger (LogError e)
      end
  | Stored stored => fire_transaction stored None
  end.

(** The promise of a stored transaction without a block is resolved when
    it is made: its callbacks run before the response to any request
    arrives. *)
Definition resolved (check : TxCheck) : bool :=
  match check with
  | Stored _ => true
  | FetchTransaction _ _ | ProofStored _ _ => false
  end.

(** The order in which the checks of a run settle.  The resolved ones
    come first, in the order of the loop.  When the responses to the
    requests of the others arrive is not in the hands of the agent: the run
    takes them after the loop, check by check in the order of the loop. *)
Definition settle_order (checks : list TxCheck) : list TxCheck :=
  List.filter resolved checks
  ++ List.filter (fun check => negb (resolved check)) checks.

(** [onReceipts] as one run: the loop starts the checks, and their
    promises settle in [settle_order]. *)
Definition onReceipts (address : string) (receipts : list Receipt) : Act unit :=
  let* known := get (fun s => knownReceipts (agent s) !! address) in
  match known with
  | None =>
      modify (with_agent
                (fun a => set_knownReceipts
                            (<[address := receipts_by_hash receipts]>
                               (knownReceipts a)) a))
  | Some knownReceipts =>
      let* started := start_checks knownReceipts receipts in
      let* _ := for_each settle (settle_order (fst started)) in
      match snd started with
      | Some e => throw e
      | None => ret tt
      end
  end.

(** The callback that [subscribe] registers for an address, called with
    a status of its script hash. *)
Definition on_status (address scriptHash : string) (status : option string)
  : Act unit :=
  let* receipts :=
    on_connection (ElectrumApi.receipts_of_status srv scriptHash status) in
  onReceipts address receipts.

End WithPeer.

(** ** The agent as a transition system

    A label is one run of the agent's code between two suspensions: a call
    of a public method, or a callback of the connection or of a timer.
    The labels that come from the peer carry how the peer answers during
    that run. *)
Inductive Label : Type :=
| CallSync
| ConnectionEstablished
| HandshakeAnswered (srv : Server) (GENESIS_HASH : string) (timedOut : bool)
| HeaderNotified (srv : Server) (block : PlainBlockHeader)
| StatusNotified (srv : Server) (address scriptHash : string)
                 (status : option string)
| CallSubscribe (addresses : list string)
| CallClose (reason : string)
| IntervalFired (srv : Server) (id : Z)
| TimeoutFired (srv : Server) (id : Z).

Definition run `{Platform} `{BitcoinLib} `{ElectrumApi.Payments}
  (l : Label) : Act unit :=
  match l with
  | CallSync => sync_call
  | ConnectionEstablished => sync_connected
  | HandshakeAnswered srv GENESIS_HASH timedOut =>
      sync_handshaken srv GENESIS_HASH timedOut
  | HeaderNotified srv block =>
      fun s =>
        match headSubscriptions (pending s) with
        | O => (Ok tt, s)
        | S _ => onBlock srv block s
        end
  | StatusNotified srv address scriptHash status =>
      fun s =>
        if bool_decide ((address, scriptHash) ∈ subscriptions (pending s))
        then on_status srv address scriptHash status s
        else (Ok tt, s)
  | CallSubscribe addresses => subscribe addresses
  | CallClose reason => close reason
  | IntervalFired srv id => on_interval srv id
  | TimeoutFired srv id => on_timeout srv id
  end.

(** The state after a run; an exception leaves the state it was thrown
    in. *)
Definition step `{Platform} `{BitcoinLib} `{ElectrumApi.Payments}
  (s : State) (l : Label) : State :=
  snd (run l s).

Definition steps `{Platform} `{BitcoinLib} `{ElectrumApi.Payments}
  (s : State) (ls : list Label) : State :=
  fold_left step ls s.

(** The agent that the constructor returns for a connection, in a process
    whose stores hold [blocks] and [transactions]. *)
Definition init (c : Connection) (blocks : gmap Z PlainBlockHeader)
  (transactions : gmap string PlainTransaction) : State := {|
  agent := {| connection := Some c; handshaking := false; syncing := false;
              synced := false; knownReceipts := ∅; pingInterval := -1 |};
  world := {| BlockStore := blocks; TransactionStore := transactions;
              fired := []; logged := []; sent := []; closes := [] |};
  pending := {| intervals := []; timeouts := []; nextTimer := 1;
                awaitingConnection := 0; awaitingHandshake := 0;
                headSubscriptions := 0; subscriptions := [] |};
|}.

(** ** What a run of [onBlock] does to a header *)

(** The events of the transition to the synced state, fired by a run that
    starts in the syncing state. *)
Definition sync_events (s : State) : list Event :=
  if syncing (agent s) then [SYNCED] else [].

(** The header is accepted by the run from [s] to [s']: it is written to
    [store], the store of [s] with the predecessor cached, a [BLOCK] event
    is fired and nothing is logged. *)
Definition accepted (block : PlainBlockHeader)
  (store : gmap Z PlainBlockHeader) (s s' : State) : Prop :=
  BlockStore (world s') = <[h_blockHeight block := block]> store
  /\ fired (world s') = fired (world s) ++ [BLOCK block] ++ sync_events s
  /\ logged (world s') = logged (world s).

(** The header is dropped: the store stays [store], no [BLOCK] event is
    fired and the warning is logged. *)
Definition dropped (block : PlainBlockHeader)
  (store : gmap Z PlainBlockHeader) (s s' : State) : Prop :=
  BlockStore (world s') = store
  /\ fired (world s') = fired (world s) ++ sync_events s
  /\ logged (world s') =
     logged (world s) ++ [LogWarn "Agent: Received non-consecutive block:" block].

(** The predecessor that a run of [onBlock] from [s] compares with: the
    header of the store at the height below, or the one fetched from the
    peer when the store has none. *)
Definition predecessor `{Platform} `{BitcoinLib} (srv : Server) (s : State)
  (block p : PlainBlockHeader) : Prop :=
  BlockStore (world s) !! (h_blockHeight block - 1) = Some p
  \/ (BlockStore (world s) !! (h_blockHeight block - 1) = None
      /\ is_Some (connection (agent s))
      /\ fst (ElectrumApi.getBlockHeader srv (h_blockHeight block - 1)
                 (sent (world s))) = Ok p).

(** How often an event was fired. *)
Definition is_SYNCED (e : Event) : bool :=
  match e with SYNCED => true | _ => false end.

Definition is_SYNCING (e : Event) : bool :=
  match e with SYNCING => true | _ => false end.

Definition is_CLOSE (e : Event) : bool :=
  match e with CLOSE _ => true | _ => false end.

Definition count (p : Event -> bool) (s : State) : nat :=
  length (List.filter p (fired (world s))).

(** ** The effect of [onBlock] and of [ping] as functions on the state *)

(** The state after the [if] of [onBlock]: the header stored and the
    [BLOCK] event fired, or the warning logged. *)
Definition record_block (ok : bool) (block : PlainBlockHeader) (s : State)
  : State :=
  if ok then
    with_world
      (fun w => set_fired (fired w ++ [BLOCK block])
                  (set_BlockStore (<[h_blockHeight block := block]> (BlockStore w)) w))
      s
  else
    with_world
      (fun w => set_logged
                  (logged w
                   ++ [LogWarn "Agent: Received non-consecutive block:" block]) w)
      s.

(** The state after the last [if] of [onBlock]: in the syncing state the
    agent becomes synced, fires [SYNCED] and starts the interval of the
    pings. *)
Definition sync_transition (s : State) : State :=
  if syncing (agent s) then
    {| agent := set_pingInterval (nextTimer (pending s))
                  (set_synced true (set_syncing false (agent s)));
       world := set_fired (fired (world s) ++ [SYNCED]) (world s);
       pending := set_nextTimer (nextTimer (pending s) + 1)
                    (set_intervals
                       (intervals (pending s)
                        ++ [(nextTimer (pending s), CONNECTIVITY_CHECK_INTERVAL)])
                       (pending s)) |}
  else s.

(** The state after [j] pings were sent and their timeouts are gone. *)
Definition after_pings (j : nat) (s : State) : State :=
  {| agent := agent s;
     world := set_sent (sent (world s) ++ repeat ReqPing j) (world s);
     pending := set_nextTimer (nextTimer (pending s) + Z.of_nat j) (pending s) |}.

(** The timeout [id] of a ping with [failedTries] is pending. *)
Definition awaiting (id failedTries : Z) (s : State) : State :=
  with_pending
    (fun p => set_timeouts (timeouts p ++ [(id, PING_TIMEOUT, failedTries)]) p)
    s.


(** ** Relations between the state before and after a run *)

(** Every run of [m] takes a state to one that is related to it by [R]. *)
Definition Sat {A} (R : State -> State -> Prop) (m : Act A) : Prop :=
  forall s, R s (snd (m s)).


Definition b2n (b : bool) : nat := if b then 1%nat else 0%nat.

Definition occurrences (p : Event -> bool) (es : list Event) : nat :=
  length (List.filter p es).

(** The run only adds events, and it does not fire [SYNCED] more often
    than it leaves the syncing state or fires [SYNCING]. *)
Definition sync_order (s s' : State) : Prop :=
  exists es,
    fired (world s') = fired (world s) ++ es
    /\ (occurrences is_SYNCED es + b2n (syncing (agent s'))
        <= occurrences is_SYNCING es + b2n (syncing (agent s)))%nat.

(** The run does not touch the fields of the class and fires no [SYNCED]
    event. *)
Definition agent_kept (s s' : State) : Prop :=
  agent s' = agent s
  /\ exists es,
      fired (world s') = fired (world s) ++ es
      /\ occurrences is_SYNCED es = 0%nat.

(** The notifications [(peer, address, receipts)] handed to [onReceipts]
    one after the other. *)
Definition deliver `{Platform} `{BitcoinLib} `{ElectrumApi.Payments}
  (s : State)
  (notifications : list (Server * string * list Receipt)) : State :=
  fold_left (fun s0 n => snd (onReceipts (fst (fst n)) (snd (fst n)) (snd n) s0))
            notifications s.

(** The store has no header at a negative height; a run keeps this. *)
Definition heights_ok (s : State) : Prop :=
  forall k, k < 0 -> BlockStore (world s) !! k = None.

Definition heights_kept (s s' : State) : Prop := heights_ok s -> heights_ok s'.

(** The identifiers of the pending timeouts are below the next one. *)
Definition timers_fresh (s : State) : Prop :=
  Forall (fun t => fst (fst t) < nextTimer (pending s)) (timeouts (pending s)).

(** The fields of the state that a second [close] leaves as they are. *)
Definition same_but_trace (s s' : State) : Prop :=
  agent s' = agent s
  /\ pending s' = pending s
  /\ BlockStore (world s') = BlockStore (world s)
  /\ TransactionStore (world s') = TransactionStore (world s)
  /\ sent (world s') = sent (world s)
  /\ closes (world s') = closes (world s).

(** ** More relations between the state before and after a run *)

(** The run leaves the connection, the three flags and the calls of
    [sync] that wait for the peer as they are. *)
Definition control_kept (s s' : State) : Prop :=
  connection (agent s') = connection (agent s)
  /\ handshaking (agent s') = handshaking (agent s)
  /\ syncing (agent s') = syncing (agent s)
  /\ synced (agent s') = synced (agent s)
  /\ awaitingConnection (pending s') = awaitingConnection (pending s)
  /\ awaitingHandshake (pending s') = awaitingHandshake (pending s).

(** The agent is closed: it has no connection and is neither syncing nor
    synced. *)
Definition closed (s : State) : Prop :=
  connection (agent s) = None
  /\ syncing (agent s) = false
  /\ synced (agent s) = false.

(** The agent is left in the handshake: [handshaking] is set, no call of
    [sync] waits for the peer, and the agent is neither syncing nor
    synced. *)
Definition stuck_in_handshake (s : State) : Prop :=
  handshaking (agent s) = true
  /\ syncing (agent s) = false
  /\ synced (agent s) = false
  /\ awaitingConnection (pending s) = 0%nat
  /\ awaitingHandshake (pending s) = 0%nat.

(** The run fires no event and logs nothing. *)
Definition trace_kept (s s' : State) : Prop :=
  fired (world s') = fired (world s) /\ logged (world s') = logged (world s).

(** The two events that [onReceipts] fires. *)
Definition is_transaction_event (e : Event) : bool :=
  match e with
  | TRANSACTION_ADDED _ | TRANSACTION_MINED _ _ => true
  | _ => false
  end.

(** The receipts of a notification that the loop of [onReceipts] does not
    skip. *)
Definition changed (known : gmap string Receipt) (receipts : list Receipt)
  : list Receipt :=
  List.filter (fun r => negb (unchanged known r)) receipts.

(** No header and no transaction leaves the stores. *)
Definition stores_grow (s s' : State) : Prop :=
  (forall k, is_Some (BlockStore (world s) !! k) ->
             is_Some (BlockStore (world s') !! k))
  /\ (forall k, is_Some (TransactionStore (world s) !! k) ->
                is_Some (TransactionStore (world s') !! k)).

(** The state after the [addresses] were subscribed with their script
    [hashes]: the requests are sent and the callbacks registered, in the
    order of the addresses. *)
Definition subscribed (addresses hashes : list string) (s : State) : State :=
  {| agent := agent s;
     world := set_sent (sent (world s) ++ map ReqSubscribeScriptHash hashes)
                       (world s);
     pending := set_subscriptions
                  (subscriptions (pending s) ++ zip addresses hashes)
                  (pending s) |}.

(** The state after the handshake of [sync] has passed: the two requests
    of the handshake and the subscription to the headers are sent, the
    agent is syncing and has said so. *)
Definition handshaken (s : State) : State :=
  {| agent := set_syncing true (set_handshaking false (agent s));
     world := set_fired (fired (world s) ++ [SYNCING])
                (set_sent (sent (world s)
                           ++ [ReqVersion; ReqFeatures; ReqSubscribeHeaders])
                          (world s));
     pending := set_headSubscriptions (S (headSubscriptions (pending s)))
                  (pending s) |}.

(** ** The constructor *)

(** Modelled from the spec: [Transport], whose declaration is not among
    the source files, is the tagged variant [{TCP, SSL, WSS}]; a transport
    that is set is truthy. *)
Inductive Transport : Type := TCP | SSL | WSS.

#[global] Instance Transport_eq_dec : EqDecision Transport.
Proof. solve_decision. Defined.

(** Modelled from the spec: a peer as the constructor takes it, with the
    optional [wssPath] and [preferTransport] beside the fields that the
    peer list fills. *)
Record AgentPeer : Type := {
  info : Peer;
  wssPath : option string;
  preferTransport : option Transport;
}.

(** [string | false]. *)
Inductive ProxyUrl : Type :=
| Url (url : string)
| Off.

(** The options without the logger, which takes the lines of [logged]. *)
Record ElectrumAgentOptions : Type := {
  tcpProxyUrl : ProxyUrl;
  sslProxyUrl : ProxyUrl;
}.

(** [Partial<ElectrumAgentOptions>]: [None] is a key that is not given. *)
Record PartialOptions : Type := {
  given_tcpProxyUrl : option ProxyUrl;
  given_sslProxyUrl : option ProxyUrl;
}.

(** The options of the constructor: the defaults, with the given keys
    spread over them. *)
Definition spread (options : PartialOptions) : ElectrumAgentOptions := {|
  tcpProxyUrl := default (Url "wss://electrum.nimiq.network:50001")
                         (given_tcpProxyUrl options);
  sslProxyUrl := default (Url "wss://electrum.nimiq.network:50002")
                         (given_sslProxyUrl options);
|}.

(** [transportToString]. *)
Definition transportToString (transport : Transport) : string :=
  match transport with
  | WSS => "wss"
  | SSL => "ssl"
  | TCP => "tcp"
  end.

(** [peer.ports[name]]. *)
Definition ports_get (p : Ports) (name : string) : option Z :=
  if bool_decide (name = "tcp") then tcp p
  else if bool_decide (name = "ssl") then ssl p
  else if bool_decide (name = "wss") then wss p
  else None.

(** A port that is truthy: a number that is not [0]. *)
Definition truthy_port (port : option Z) : option Z :=
  match port with
  | Some n => if truthy n then Some n else None
  | None => None
  end.

(** A proxy that is truthy: a string that is not empty. *)
Definition truthy_url (u : ProxyUrl) : option string :=
  match u with
  | Url url => if bool_decide (url = "") then None else Some url
  | Off => None
  end.

Definition no_transport : Error :=
  JsError "No suitable transport protocol and port for peer".

Section WithGenesis.
(** [GenesisConfig.NETWORK_NAME] and the two names of [Network]. *)
Variables NETWORK_NAME Network_MAIN Network_TEST : string.

(** [networkToTokenPrefix]: [None] is [undefined]. *)
Definition networkToTokenPrefix (name : string) : option string :=
  if bool_decide (name = Network_MAIN) then Some "mainnet"
  else if bool_decide (name = Network_TEST) then Some "testnet"
  else None.

(** [`${this.networkToTokenPrefix(GenesisConfig.NETWORK_NAME)}:${peer.host}`] *)
Definition token_of (peer : AgentPeer) : string :=
  default "undefined" (networkToTokenPrefix NETWORK_NAME)
  +:+ ":" +:+ host (info peer).

(** The agent with its new connection, after the line for the logger. *)
Definition connecting (c : Connection) (line : string)
  (blocks : gmap Z PlainBlockHeader)
  (transactions : gmap string PlainTransaction) : State :=
  with_world (set_logged [LogDebug line]) (init c blocks transactions).

(** The preferred transport, if it is given and the peer has its port. *)
Definition enforced (peer : AgentPeer) : option Transport :=
  match preferTransport peer with
  | Some t =>
      match truthy_port (ports_get (ports (info peer)) (transportToString t)) with
      | Some _ => Some t
      | None => None
      end
  | None => None
  end.

(** [!transport || transport === t]. *)
Definition allows (transport : option Transport) (t : Transport) : bool :=
  match transport with
  | None => true
  | Some t' => bool_decide (t' = t)
  end.

(** The constructor: the transport chosen and the new agent, in a process
    whose stores hold [blocks] and [transactions]. *)
Definition constructor (peer : AgentPeer) (options : PartialOptions)
  (blocks : gmap Z PlainBlockHeader)
  (transactions : gmap string PlainTransaction) : Result (Transport * State) :=
  let options := spread options in
  let transport := enforced peer in
  let p := ports (info peer) in
  match truthy_port (wss p), allows transport WSS with
  | Some port, true =>
      let url := "wss://" +:+ host (info peer) +:+ ":" +:+ pretty port
                 +:+ "/" +:+ default "" (wssPath peer) in
      Ok (WSS,
          connecting {| endpoint := url; proxy := false; token := None |}
                     ("Agent: Connecting to " +:+ url) blocks transactions)
  | _, _ =>
      match truthy_port (ssl p), truthy_url (sslProxyUrl options),
            allows transport SSL with
      | Some port, Some url, true =>
          Ok (SSL,
              connecting {| endpoint := url; proxy := true;
                            token := Some (token_of peer) |}
                         ("Agent: Connecting to ssl://" +:+ host (info peer)
                          +:+ ":" +:+ pretty port) blocks transactions)
      | _, _, _ =>
          match truthy_port (tcp p), truthy_url (tcpProxyUrl options),
                allows transport TCP with
          | Some port, Some url, true =>
              Ok (TCP,
                  connecting {| endpoint := url; proxy := true;
                                token := Some (token_of peer) |}
                             ("Agent: Connecting to tcp://" +:+ host (info peer)
                              +:+ ":" +:+ pretty port) blocks transactions)
          | _, _, _ => Err no_transport
          end
      end
  end.

End WithGenesis.

(** The option holds a value. *)
Definition is_some {A} (o : option A) : bool :=
  match o with Some _ => true | None => false end.

(** The port of a transport on a peer. *)
Definition port_for (peer : AgentPeer) (t : Transport) : option Z :=
  match t with
  | WSS => wss (ports (info peer))
  | SSL => ssl (ports (info peer))
  | TCP => tcp (ports (info peer))
  end.

(** The transport can be used: the peer has its port and, for the two
    that go through a proxy, the options give its proxy. *)
Definition usable (peer : AgentPeer) (options : PartialOptions)
  (t : Transport) : bool :=
  is_some (truthy_port (port_for peer t))
  && match t with
     | WSS => true
     | SSL => is_some (truthy_url (sslProxyUrl (spread options)))
     | TCP => is_some (truthy_url (tcpProxyUrl (spread options)))
     end.

(** The transports that the constructor considers, in its order. *)
Definition candidates (peer : AgentPeer) : list Transport :=
  match preferTransport peer with
  | Some t =>
      if is_some (truthy_port (port_for peer t)) then [t]
      else [WSS; SSL; TCP]
  | None => [WSS; SSL; TCP]
  end.

End Agent.

(* ===================================================================== *)
(** * An instance of the platform and of the library, for the examples    *)
(* ===================================================================== *)

Module Vectors.

(** ** SHA-256 (FIPS 180-4) on 32-bit words held in [Z] *)

Definition w32 (x : Z) : Z := x mod 4294967296.

Definition rotr (n x : Z) : Z :=
  Z.lor (Z.shiftr x n) (w32 (Z.shiftl x (32 - n))).

Definition Ch (x y z : Z) : Z :=
  Z.lxor (Z.land x y) (Z.land (Z.lxor x 4294967295) z).

Definition Maj (x y z : Z) : Z :=
  Z.lxor (Z.lxor (Z.land x y) (Z.land x z)) (Z.land y z).

Definition Sigma0 (x : Z) : Z :=
  Z.lxor (Z.lxor (rotr 2 x) (rotr 13 x)) (rotr 22 x).

Definition Sigma1 (x : Z) : Z :=
  Z.lxor (Z.lxor (rotr 6 x) (rotr 11 x)) (rotr 25 x).

Definition sigma0 (x : Z) : Z :=
  Z.lxor (Z.lxor (rotr 7 x) (rotr 18 x)) (Z.shiftr x 3).

Definition sigma1 (x : Z) : Z :=
  Z.lxor (Z.lxor (rotr 17 x) (rotr 19 x)) (Z.shiftr x 10).

(** The constants of the standard are the first 32 bits of the fractional
    parts of the cube roots (for [K]) and of the square roots (for [H0]) of
    the first primes. *)
Fixpoint cube_root_bits (n : nat) (x r : Z) : Z :=
  match n with
  | O => r
  | S n' =>
      let c := r + 2 ^ Z.of_nat n' in
      cube_root_bits n' x (if c * c * c <=? x then c else r)
  end.

Definition cube_root (x : Z) : Z := cube_root_bits 40 x 0.

Definition is_prime (p : Z) : bool :=
  forallb (fun d => negb (p mod Z.of_nat d =? 0)) (seq 2 (Z.to_nat p - 2)).

Definition first_primes : list Z :=
  List.filter is_prime (map Z.of_nat (seq 2 310)).

Definition K : list Z :=
  Eval vm_compute in
    map (fun p => w32 (cube_root (p * 2 ^ 96))) first_primes.

Definition H0 : list Z :=
  Eval vm_compute in
    map (fun p => w32 (Z.sqrt (p * 2 ^ 64))) (firstn 8 first_primes).

Definition Z_of_byte (b : byte) : Z := Z.of_N (Byte.to_N b).

Definition byte_of_Z (z : Z) : byte :=
  match Byte.of_N (Z.to_N (z mod 256)) with
  | Some b => b
  | None => x00
  end.

(** The big-endian words of a run of bytes. *)
Fixpoint words (bs : list byte) : list Z :=
  match bs with
  | a :: b :: c :: d :: rest =>
      (Z_of_byte a * 16777216 + Z_of_byte b * 65536
       + Z_of_byte c * 256 + Z_of_byte d) :: words rest
  | _ => []
  end.

Definition bytes_of_word (w : Z) : list byte :=
  [byte_of_Z (Z.shiftr w 24); byte_of_Z (Z.shiftr w 16);
   byte_of_Z (Z.shiftr w 8); byte_of_Z w].

(** The message schedule, newest word first. *)
Fixpoint schedule (n : nat) (w : list Z) : list Z :=
  match n with
  | O => w
  | S n' =>
      schedule n'
        (w32 (sigma1 (nth 1 w 0) + nth 6 w 0 + sigma0 (nth 14 w 0) + nth 15 w 0)
         :: w)
  end.

Definition round (st : list Z) (kw : Z * Z) : list Z :=
  match st with
  | [a; b; c; d; e; f; g; h] =>
      let t1 := h + Sigma1 e + Ch e f g + fst kw + snd kw in
      let t2 := Sigma0 a + Maj a b c in
      [w32 (t1 + t2); a; b; c; w32 (d + t1); e; f; g]
  | _ => st
  end.

Definition compress (h : list Z) (block : list byte) : list Z :=
  let w := rev (schedule 48 (rev (words block))) in
  let st := fold_left round (combine K w) h in
  map (fun p => w32 (fst p + snd p)) (combine h st).

Definition pad (msg : list byte) : list byte :=
  let len := Z.of_nat (length msg) in
  let zeros := Z.to_nat ((55 - len) mod 64) in
  msg ++ [x80] ++ repeat x00 zeros
      ++ bytes_of_word (Z.shiftr (8 * len) 32) ++ bytes_of_word (8 * len).

Fixpoint blocks (n : nat) (h : list Z) (bs : list byte) : list Z :=
  match n with
  | O => h
  | S n' => blocks n' (compress h (firstn 64 bs)) (skipn 64 bs)
  end.

Definition digest (msg : list byte) : list byte :=
  let padded := pad msg in
  concat (map bytes_of_word (blocks (length padded / 64) H0 padded)).

(** ** Hexadecimal *)

Definition hex_digit (n : Z) : ascii :=
  match n with
  | 0 => "0" | 1 => "1" | 2 => "2" | 3 => "3" | 4 => "4" | 5 => "5"
  | 6 => "6" | 7 => "7" | 8 => "8" | 9 => "9" | 10 => "a" | 11 => "b"
  | 12 => "c" | 13 => "d" | 14 => "e" | _ => "f"
  end%char.

Definition hex_value (c : ascii) : option Z :=
  let n := Z.of_N (N_of_ascii c) in
  if (48 <=? n) && (n <=? 57) then Some (n - 48)
  else if (97 <=? n) && (n <=? 102) then Some (n - 87)
  else if (65 <=? n) && (n <=? 70) then Some (n - 55)
  else None.

(** Modelled from the spec: the hex helpers of the socket package, which
    are not among the source files; the spec uses them as [hex_decode] and
    as lowercase [hex].  A pair of characters that is no hex number is
    read as the byte zero here and a last single character is left out;
    the spec is silent on both. *)
Fixpoint hex_decode (s : string) : list byte :=
  match s with
  | String a (String b rest) =>
      match hex_value a, hex_value b with
      | Some h, Some l => byte_of_Z (16 * h + l)
      | _, _ => x00
      end :: hex_decode rest
  | _ => []
  end.

Fixpoint hex_encode (bs : list byte) : string :=
  match bs with
  | [] => ""
  | b :: rest =>
      String (hex_digit (Z_of_byte b / 16))
             (String (hex_digit (Z_of_byte b mod 16)) (hex_encode rest))
  end.

(** [Number.parseInt(_, 10)] on a run of decimal digits. *)
Fixpoint parse_digits (s : string) (acc : option Z) : option Z :=
  match s with
  | String c rest =>
      let n := Z.of_N (N_of_ascii c) in
      if (48 <=? n) && (n <=? 57)
      then parse_digits rest (Some (10 * default 0 acc + (n - 48)))
      else acc
  | EmptyString => acc
  end.

#[export] Instance platform : Platform := {|
  sha256 := digest;
  hexToBytes := hex_decode;
  bytesToHex := hex_encode;
  Number_parseInt := fun s => parse_digits s None;
|}.

(** ** The Bitcoin library on transactions without witness

    Serialization and the identifiers are computed; decoding is a search
    among the transactions and headers below, and the address functions
    know the one pay-to-pubkey-hash script that the examples pay to. *)

Fixpoint le_bytes (n : nat) (z : Z) : list byte :=
  match n with
  | O => []
  | S n' => byte_of_Z z :: le_bytes n' (Z.shiftr z 8)
  end.

Definition varint (n : Z) : list byte :=
  if n <? 253 then [byte_of_Z n] else xfd :: le_bytes 2 n.

Definition var_bytes (bs : list byte) : list byte :=
  varint (Z.of_nat (length bs)) ++ bs.

Definition serialize_input (i : TxInput) : list byte :=
  in_hash i ++ le_bytes 4 (in_index i) ++ var_bytes (in_script i)
  ++ le_bytes 4 (in_sequence i).

Definition serialize_output (o : TxOutput) : list byte :=
  le_bytes 8 (out_value o) ++ var_bytes (out_script o).

Definition serialize (tx : Transaction) : list byte :=
  le_bytes 4 (tx_version tx)
  ++ varint (Z.of_nat (length (tx_ins tx)))
  ++ concat (map serialize_input (tx_ins tx))
  ++ varint (Z.of_nat (length (tx_outs tx)))
  ++ concat (map serialize_output (tx_outs tx))
  ++ le_bytes 4 (tx_locktime tx).

Definition serialize_header (b : Block) : list byte :=
  le_bytes 4 (blk_version b)
  ++ default (repeat x00 32) (blk_prevHash b)
  ++ default (repeat x00 32) (blk_merkleRoot b)
  ++ le_bytes 4 (blk_timestamp b) ++ le_bytes 4 (blk_bits b)
  ++ le_bytes 4 (blk_nonce b).

(** The payment of block 170, the first between two parties. *)
Definition tx_f4184 : Transaction := {|
  tx_version := 1;
  tx_ins := [ {|
    in_hash := hex_decode
      "c997a5e56e104102fa209c6a852dd90660a20b2d9c352423edce25857fcd3704";
    in_index := 0;
    in_script := hex_decode
      ("47304402204e45e16932b8af514961a1d3a1a25fdf3f4f7732e9d624c6c61548ab5f"
       +:+ "b8cd410220181522ec8eca07de4860a4acdd12909d831cc56cbbac4622082221a8"
       +:+ "768d1d0901");
    in_sequence := 4294967295;
    in_witness := [] |} ];
  tx_outs := [
    {| out_value := 1000000000;
       out_script := hex_decode
         ("4104ae1a62fe09c5f51b13905f07f06b99a2f7159b2225f374cd378d71302fa284"
          +:+ "14e7aab37397f554a7df5f142c21c1b7303b8a0626f1baded5c72a704f7e6cd8"
          +:+ "4cac") |};
    {| out_value := 4000000000;
       out_script := hex_decode
         ("410411db93e1dcdb8a016b49840f8c53bc1eb68a382e97b1482ecad7b148a6909a"
          +:+ "5cb2e0eaddfb84ccf9744464f82e160bfa9b8b64f9d4c03f999b8643f656b412"
          +:+ "a3ac") |} ];
  tx_locktime := 0;
|}.

Definition p2pkh_script : list byte :=
  hex_decode "76a91462e907b15cbf27d5425399ebf6f0fb50ebb88f1888ac".

Definition p2pkh_address : string := "1A1zP1eP5QGefi2DMPTfTL5SLmv7DivfNa".

(** A transaction that spends the first output of [tx_f4184] to
    [p2pkh_address] and signals replace-by-fee. *)
Definition tx_spend : Transaction := {|
  tx_version := 2;
  tx_ins := [ {|
    in_hash := hex_decode
      "169e1e83e930853391bc6f35f605c6754cfead57cf8387639d3b4096c54f18f4";
    in_index := 0;
    in_script := [];
    in_sequence := 4294967293;
    in_witness := [] |} ];
  tx_outs := [ {| out_value := 5000; out_script := p2pkh_script |} ];
  tx_locktime := 0;
|}.

(** A transaction whose input script pushes one byte and ends with the
    opcode [OP_0]: two chunks, of which the second is no public key. *)
Definition tx_opcode_input : Transaction := {|
  tx_version := 2;
  tx_ins := [ {|
    in_hash := hex_decode
      "169e1e83e930853391bc6f35f605c6754cfead57cf8387639d3b4096c54f18f4";
    in_index := 1;
    in_script := hex_decode "01aa00";
    in_sequence := 4294967295;
    in_witness := [] |} ];
  tx_outs := [ {| out_value := 5000; out_script := p2pkh_script |} ];
  tx_locktime := 0;
|}.

Definition known_transactions : list Transaction :=
  [tx_f4184; tx_spend; tx_opcode_input].

Definition header_0 : Block := {|
  blk_version := 1;
  blk_prevHash := Some (repeat x00 32);
  blk_merkleRoot := Some (rev (hex_decode
    "4a5e1e4baab89f3a32518a88c31bc87f618f76673e2cc77ab2127b7afdeda33b"));
  blk_timestamp := 1231006505;
  blk_bits := 486604799;
  blk_nonce := 2083236893;
|}.

Definition header_1 : Block := {|
  blk_version := 1;
  blk_prevHash := Some (rev (hex_decode
    "000000000019d6689c085ae165831e934ff763ae46a2a6c172b3f1b60a8ce26f"));
  blk_merkleRoot := Some (rev (hex_decode
    "0e3e2357e806b6cdb1f70b54c3a3a17b6714ee1f0e68bebb44a74b1efd512098"));
  blk_timestamp := 1231469665;
  blk_bits := 486604799;
  blk_nonce := 2573394689;
|}.

Definition header_170 : Block := {|
  blk_version := 1;
  blk_prevHash := Some (rev (hex_decode
    "000000002a22cfee1f2c846adbd12b3e183d4f97683f85dad08a79780a84bd55"));
  blk_merkleRoot := Some (rev (hex_decode
    "7dac2c5666815c17a3b36427de37bb9d2e2c5ccec3f8633eb91a4205cb4c10ff"));
  blk_timestamp := 1231731025;
  blk_bits := 486604799;
  blk_nonce := 1889418792;
|}.

(** The header of block 2, which follows [header_1]. *)
Definition header_2 : Block := {|
  blk_version := 1;
  blk_prevHash := Some (rev (hex_decode
    "00000000839a8e6886ab5951d76f411475428afc90947ee320161bbf18eb6048"));
  blk_merkleRoot := Some (rev (hex_decode
    "9b0fc92260312ce44e74ef369f5c66bbb85848f2eddd5a7a1cde251e54ccfdd5"));
  blk_timestamp := 1231469744;
  blk_bits := 486604799;
  blk_nonce := 1639830024;
|}.

(** A rival of [header_1]: the same header with another nonce, and so
    with another hash.  It follows [header_0] as [header_1] does. *)
Definition header_1_rival : Block := {|
  blk_version := 1;
  blk_prevHash := blk_prevHash header_1;
  blk_merkleRoot := blk_merkleRoot header_1;
  blk_timestamp := blk_timestamp header_1;
  blk_bits := blk_bits header_1;
  blk_nonce := blk_nonce header_1 + 1;
|}.

Definition known_headers : list Block :=
  [header_0; header_1; header_170; header_2; header_1_rival].

Definition all_zero (bs : list byte) : bool :=
  forallb (fun b => Z_of_byte b =? 0) bs.

#[export] Instance library : BitcoinLib := {|
  Transaction_fromHex := fun raw =>
    List.find (fun tx => String.eqb (hex_encode (serialize tx)) raw)
              known_transactions;
  Transaction_getId := fun tx => hex_encode (rev (digest (digest (serialize tx))));
  Transaction_virtualSize := fun tx => Z.of_nat (length (serialize tx));
  Transaction_isCoinbase := fun tx =>
    match tx_ins tx with
    | [i] => all_zero (in_hash i)
    | _ => false
    end;
  Transaction_weight := fun tx => 4 * Z.of_nat (length (serialize tx));
  Block_fromHex := fun raw =>
    List.find (fun b => String.eqb (hex_encode (serialize_header b)) raw)
              known_headers;
  Block_getId := fun b => hex_encode (rev (digest (digest (serialize_header b))));
  Block_weight := fun _ => 320;
  address_fromOutputScript := fun script =>
    if String.eqb (hex_encode script) (hex_encode p2pkh_script)
    then Some p2pkh_address else None;
  address_toOutputScript := fun addr =>
    if String.eqb addr p2pkh_address then Some p2pkh_script else None;
|}.

(** ** A decompiler and payments for the examples *)

(** The chunks of a script of direct pushes of up to 75 bytes and of
    opcodes; [None] for a push that runs over the end. *)
Fixpoint decompile (fuel : nat) (script : list byte)
  : option (list ElectrumApi.Chunk) :=
  match fuel, script with
  | _, [] => Some []
  | O, _ :: _ => None
  | S fuel', b :: rest =>
      let n := Z_of_byte b in
      if (0 <? n) && (n <=? 75) then
        if Z.of_nat (length rest) <? n then None
        else
          (fun chunks => ElectrumApi.Data (firstn (Z.to_nat n) rest) :: chunks)
            <$> decompile fuel' (skipn (Z.to_nat n) rest)
      else (fun chunks => ElectrumApi.OpCode n :: chunks) <$> decompile fuel' rest
  end.

(** A payment is given by its description, which stands for its
    address. *)
#[export] Instance payments : ElectrumApi.Payments := {|
  ElectrumApi.Payment := string;
  ElectrumApi.script_decompile := fun chunk =>
    match chunk with
    | Some (ElectrumApi.Data script) => Ok (decompile (length script) script)
    | _ => Err (TypeError "Expected Buffer")
    end;
  ElectrumApi.payments_p2pkh := fun pubkey =>
    match pubkey with
    | Some (ElectrumApi.Data key) => Ok ("p2pkh:" +:+ hex_encode key)
    | _ => Err (TypeError "Expected property pubkey of type ?isPoint")
    end;
  ElectrumApi.payments_p2wpkh := fun pubkey =>
    match pubkey with
    | Some key => Ok ("p2wpkh:" +:+ hex_encode key)
    | None => Err (TypeError "Not enough data")
    end;
  ElectrumApi.payments_p2ms := fun m pubkeys =>
    Ok ("p2ms:" +:+ pretty m +:+ "/" +:+ pretty (Z.of_nat (length pubkeys)));
  ElectrumApi.payments_p2sh := fun redeem => Ok ("p2sh:" +:+ redeem);
  ElectrumApi.payments_p2wsh := fun redeem => Ok ("p2wsh:" +:+ redeem);
  ElectrumApi.payment_address := fun payment => Some payment;
|}.

Definition raw_f4184 : string := hex_encode (serialize tx_f4184).
Definition raw_spend : string := hex_encode (serialize tx_spend).
Definition raw_opcode_input : string := hex_encode (serialize tx_opcode_input).
Definition raw_header (b : Block) : string := hex_encode (serialize_header b).

(** ** Headers, proofs and peers of the examples *)

Definition block_0 : PlainBlockHeader := {|
  h_blockHash := "000000000019d6689c085ae165831e934ff763ae46a2a6c172b3f1b60a8ce26f";
  h_blockHeight := 0;
  h_timestamp := 1231006505;
  h_bits := 486604799;
  h_nonce := 2083236893;
  h_version := 1;
  h_weight := 320;
  h_prevHash := Some "0000000000000000000000000000000000000000000000000000000000000000";
  h_merkleRoot := Some "4a5e1e4baab89f3a32518a88c31bc87f618f76673e2cc77ab2127b7afdeda33b";
|}.

Definition block_1 : PlainBlockHeader := {|
  h_blockHash := "00000000839a8e6886ab5951d76f411475428afc90947ee320161bbf18eb6048";
  h_blockHeight := 1;
  h_timestamp := 1231469665;
  h_bits := 486604799;
  h_nonce := 2573394689;
  h_version := 1;
  h_weight := 320;
  h_prevHash := Some "000000000019d6689c085ae165831e934ff763ae46a2a6c172b3f1b60a8ce26f";
  h_merkleRoot := Some "0e3e2357e806b6cdb1f70b54c3a3a17b6714ee1f0e68bebb44a74b1efd512098";
|}.

Definition block_2 : PlainBlockHeader := {|
  h_blockHash := "000000006a625f06636b8bb6ac7b960a8d03705d1ace08b1a19da3fdcc99ddbd";
  h_blockHeight := 2;
  h_timestamp := 1231469744;
  h_bits := 486604799;
  h_nonce := 1639830024;
  h_version := 1;
  h_weight := 320;
  h_prevHash := Some "00000000839a8e6886ab5951d76f411475428afc90947ee320161bbf18eb6048";
  h_merkleRoot := Some "9b0fc92260312ce44e74ef369f5c66bbb85848f2eddd5a7a1cde251e54ccfdd5";
|}.

Definition block_1_rival : PlainBlockHeader := {|
  h_blockHash := "cfccca4cffdbdd61b809472457ded9d975d01038b0460a742398dd6cbe0bcb2f";
  h_blockHeight := 1;
  h_timestamp := 1231469665;
  h_bits := 486604799;
  h_nonce := 2573394690;
  h_version := 1;
  h_weight := 320;
  h_prevHash := Some "000000000019d6689c085ae165831e934ff763ae46a2a6c172b3f1b60a8ce26f";
  h_merkleRoot := Some "0e3e2357e806b6cdb1f70b54c3a3a17b6714ee1f0e68bebb44a74b1efd512098";
|}.

Definition block_170 : PlainBlockHeader := {|
  h_blockHash := "00000000d1145790a8694403d4063f323d499e655c83426834d4ce2f8dd4a2ee";
  h_blockHeight := 170;
  h_timestamp := 1231731025;
  h_bits := 486604799;
  h_nonce := 1889418792;
  h_version := 1;
  h_weight := 320;
  h_prevHash := Some "000000002a22cfee1f2c846adbd12b3e183d4f97683f85dad08a79780a84bd55";
  h_merkleRoot := Some "7dac2c5666815c17a3b36427de37bb9d2e2c5ccec3f8633eb91a4205cb4c10ff";
|}.

Definition hash_coinbase_170 : string :=
  "b1fea52486ce0c62bb442b530a3f0132b826c74e473d1f2c220bfa78111c5082".

Definition hash_f4184 : string :=
  "f4184fc596403b9d638783cf57adfe4c75c605f6356fbc91338530e9831e9e16".

Definition hash_spend : string :=
  "87af055a4e5a83b935c187327588e8e41e4fc21fe2e6565184bd54d9a71d08bc".

(** The Merkle path of [hash_f4184], the second of the two transactions
    of block 170. *)
Definition proof_f4184 : MerkleProof := {|
  block_height := 170;
  merkle := [hash_coinbase_170];
  pos := 1;
|}.

(** The same path with the last character of the pair hash changed. *)
Definition proof_flipped : MerkleProof := {|
  block_height := 170;
  merkle :=
    ["b1fea52486ce0c62bb442b530a3f0132b826c74e473d1f2c220bfa78111c5083"];
  pos := 1;
|}.

(** A block of two transactions, the coinbase of block 170 and
    [tx_spend], with the path of the latter. *)
Definition proof_spend : MerkleProof := {|
  block_height := 171;
  merkle := [hash_coinbase_170];
  pos := 1;
|}.

Definition block_spend : PlainBlockHeader := {|
  h_blockHash := "00000000000000000000000000000000000000000000000000000000000000ab";
  h_blockHeight := 171;
  h_timestamp := 1231731625;
  h_bits := 486604799;
  h_nonce := 0;
  h_version := 1;
  h_weight := 320;
  h_prevHash := Some (h_blockHash block_170);
  h_merkleRoot :=
    Some "9bc9c29abcb63fd7eba7e826a62609a67dcfcddbfaab561aa7a312ca201c5c6d";
|}.

Definition lost {A} : Result A := Err (Rejected "connection lost").

(** A peer given by its answers to the requests of the examples; it
    answers the version, the features and the ping, and no other
    request. *)
Definition peer (get_history : string -> Result (list HistoryEntry))
  (transaction_get : string -> Result string)
  (get_merkle : string -> Z -> Result MerkleProof)
  (block_header : Z -> Result string)
  (broadcast : string -> Result string) : Server := {|
  srv_get_balance := fun _ => lost;
  srv_get_history := get_history;
  srv_transaction_get := transaction_get;
  srv_get_merkle := get_merkle;
  srv_block_header := block_header;
  srv_fee_histogram := lost;
  srv_broadcast := broadcast;
  srv_estimatefee := fun target => if target =? 3 then lost else Ok (10 * target);
  srv_relayfee := lost;
  srv_peers := lost;
  srv_ping := Ok tt;
  srv_version := Ok tt;
  srv_features_genesis_hash := Ok (h_blockHash block_0);
|}.

Definition no_history : string -> Result (list HistoryEntry) := fun _ => lost.
Definition no_raw : string -> Result string := fun _ => lost.
Definition no_merkle : string -> Z -> Result MerkleProof := fun _ _ => lost.
Definition no_header : Z -> Result string := fun _ => lost.
Definition no_broadcast : string -> Result string := fun _ => lost.

Definition merkle_answers (hash : string) (height : Z) : Result MerkleProof :=
  if String.eqb hash hash_f4184 && (height =? 170) then Ok proof_f4184
  else if String.eqb hash hash_spend && (height =? 171) then Ok proof_spend
  else lost.

Definition raw_answers (hash : string) : Result string :=
  if String.eqb hash hash_f4184 then Ok raw_f4184
  else if String.eqb hash hash_spend then Ok raw_spend
  else lost.

Definition header_answers (height : Z) : Result string :=
  if height =? 0 then Ok (raw_header header_0)
  else if height =? 1 then Ok (raw_header header_1)
  else if height =? 170 then Ok (raw_header header_170)
  else lost.

(** The history of an address: an unconfirmed transaction with a fee, the
    payment of block 170 with a fee of zero, the coinbase of block 1. *)
Definition history_answers (scriptHash : string)
  : Result (list HistoryEntry) :=
  Ok [ {| height := 1;
          tx_hash := "0e3e2357e806b6cdb1f70b54c3a3a17b6714ee1f0e68bebb44a74b1efd512098";
          fee := None |};
       {| height := 170; tx_hash := hash_f4184; fee := Some 0 |};
       {| height := 0; tx_hash := hash_spend; fee := Some 226 |} ].

(** A peer that answers everything the examples ask. *)
Definition honest : Server :=
  peer history_answers raw_answers merkle_answers header_answers
       (fun _ => Ok hash_spend).

(** A peer that gives the Merkle path and then does not answer the
    request for the raw transaction. *)
Definition peer_without_raw : Server :=
  peer no_history no_raw merkle_answers no_header no_broadcast.

(** A peer that gives a wrong Merkle path. *)
Definition peer_flipped : Server :=
  peer no_history raw_answers (fun _ _ => Ok proof_flipped) no_header
       no_broadcast.

(** A peer that answers a broadcast in the manner of protocol 1.0. *)
Definition peer_rejecting : Server :=
  peer no_history no_raw no_merkle no_header (fun _ => Ok "non-final").

(** A peer that does not answer any more. *)
Definition silent : Server := {|
  srv_get_balance := fun _ => lost;
  srv_get_history := no_history;
  srv_transaction_get := no_raw;
  srv_get_merkle := no_merkle;
  srv_block_header := no_header;
  srv_fee_histogram := lost;
  srv_broadcast := no_broadcast;
  srv_estimatefee := fun _ => lost;
  srv_relayfee := lost;
  srv_peers := lost;
  srv_ping := lost;
  srv_version := lost;
  srv_features_genesis_hash := lost;
|}.

(** ** States of the examples *)

Definition connection_wss : Agent.Connection := {|
  Agent.endpoint := "wss://electrum.example:50004/";
  Agent.proxy := false;
  Agent.token := None;
|}.

Definition genesis : string := h_blockHash block_0.

(** A new agent in a process with empty stores. *)
Definition fresh : Agent.State := Agent.init connection_wss ∅ ∅.

(** The run of one call of [sync] up to the subscription to the headers. *)
Definition sync_run : list Agent.Label :=
  [Agent.CallSync; Agent.ConnectionEstablished;
   Agent.HandshakeAnswered honest genesis false].

(** The agent in the syncing state. *)
Definition syncing_agent : Agent.State := Agent.steps fresh sync_run.

(** The agent after the header of block 1 has arrived. *)
Definition synced_agent : Agent.State :=
  Agent.steps syncing_agent [Agent.HeaderNotified honest block_1].

(** The header of block 170, announced at height 1. *)
Definition misplaced_header : PlainBlockHeader := {|
  h_blockHash := h_blockHash block_170;
  h_blockHeight := 1;
  h_timestamp := h_timestamp block_170;
  h_bits := h_bits block_170;
  h_nonce := h_nonce block_170;
  h_version := h_version block_170;
  h_weight := h_weight block_170;
  h_prevHash := h_prevHash block_170;
  h_merkleRoot := h_merkleRoot block_170;
|}.

(** Two calls of [sync] before the connection is established; the
    handshake of the second is answered after the first header has
    arrived. *)
Definition overlapping_syncs : list Agent.Label :=
  [Agent.CallSync; Agent.CallSync;
   Agent.ConnectionEstablished; Agent.ConnectionEstablished;
   Agent.HandshakeAnswered honest genesis false;
   Agent.HeaderNotified honest block_1;
   Agent.HandshakeAnswered honest genesis false;
   Agent.HeaderNotified honest block_1].

(** The interval of the pings fires and the peer is silent from then on:
    the timeouts of the first and of the second ping fire. *)
Definition two_timeouts : list Agent.Label :=
  [Agent.IntervalFired silent 1; Agent.TimeoutFired silent 2;
   Agent.TimeoutFired silent 3].

(** The receipts of the examples. *)
Definition receipt_spend_unconfirmed : Receipt :=
  {| r_blockHeight := 0; r_transactionHash := hash_spend; r_fee := Some 226 |}.

Definition receipt_spend_mined : Receipt :=
  {| r_blockHeight := 171; r_transactionHash := hash_spend; r_fee := Some 226 |}.

Definition receipt_f4184 : Receipt :=
  {| r_blockHeight := 170; r_transactionHash := hash_f4184; r_fee := None |}.

Definition receipt_coinbase_1 : Receipt :=
  {| r_blockHeight := 1;
     r_transactionHash :=
       "0e3e2357e806b6cdb1f70b54c3a3a17b6714ee1f0e68bebb44a74b1efd512098";
     r_fee := None |}.

Definition script_hash : string :=
  "8b01df4e368ea28f8dc0423bcf7a4923e3a12d307c875e47a0cfbf90b5c39161".

(** The synced agent in a process whose store has the header of the
    block of [tx_spend]. *)
Definition watching : Agent.State :=
  Agent.with_world
    (fun w => Agent.set_BlockStore
                (<[171 := block_spend]> (Agent.BlockStore w)) w)
    synced_agent.

(** The same agent after the first notification for the address. *)
Definition watching_with_baseline : Agent.State :=
  snd (Agent.onReceipts honest p2pkh_address [receipt_spend_unconfirmed] watching).

(** [tx_spend] in plain form, without block fields. *)
Definition plain_spend : PlainTransaction := {|
  t_transactionHash := hash_spend;
  t_inputs := [ {|
    i_script := "";
    i_transactionHash := hash_f4184;
    i_address := None;
    i_witness := [];
    i_index := 0;
    i_outputIndex := 0;
    i_sequence := 4294967293 |} ];
  t_outputs := [ {|
    o_script := "76a91462e907b15cbf27d5425399ebf6f0fb50ebb88f1888ac";
    o_address := p2pkh_address;
    o_value := 5000;
    o_index := 0 |} ];
  t_version := 2;
  t_vsize := 85;
  t_isCoinbase := false;
  t_weight := 340;
  t_blockHash := None;
  t_blockHeight := None;
  t_timestamp := None;
  t_replaceByFee := true;
|}.

(** ** More peers and agents of the examples *)

(** The entries of the history that [honest] answers with. *)
Definition history_entries : list HistoryEntry :=
  Eval vm_compute in
    match history_answers script_hash with
    | Ok entries => entries
    | Err _ => []
    end.

(** A peer that answers every request for a Merkle path with the empty
    path. *)
Definition peer_single : Server :=
  peer no_history no_raw
       (fun _ _ => Ok {| block_height := 1; merkle := []; pos := 0 |})
       no_header no_broadcast.

(** The path of [proof_f4184] with another position of the same parity
    and another block height. *)
Definition proof_shifted : MerkleProof := {|
  block_height := 0;
  merkle := merkle proof_f4184;
  pos := pos proof_f4184 + 2;
|}.

(** An agent whose call of [sync] waits for the handshake. *)
Definition handshaking_agent : Agent.State :=
  Agent.steps fresh [Agent.CallSync; Agent.ConnectionEstablished].

(** The receipt of [tx_spend] while a parent of it is unconfirmed. *)
Definition receipt_spend_unconfirmed_parent : Receipt :=
  {| r_blockHeight := -1; r_transactionHash := hash_spend; r_fee := Some 226 |}.

(** A peer of the peer list with the three ports, and the same peer
    preferring SSL. *)
Definition peer_entry : Peer := {|
  ip := "203.0.113.5";
  host := "electrum.example";
  p_version := "1.4.2";
  pruningLimit := None;
  ports := {| tcp := Some 50001; ssl := Some 50002; wss := Some 50004 |};
|}.

Definition peer_any : Agent.AgentPeer := {|
  Agent.info := peer_entry;
  Agent.wssPath := None;
  Agent.preferTransport := None;
|}.

Definition peer_preferring_ssl : Agent.AgentPeer := {|
  Agent.info := peer_entry;
  Agent.wssPath := None;
  Agent.preferTransport := Some Agent.SSL;
|}.

Definition default_options : Agent.PartialOptions := {|
  Agent.given_tcpProxyUrl := None;
  Agent.given_sslProxyUrl := None;
|}.

Definition without_ssl_proxy : Agent.PartialOptions := {|
  Agent.given_tcpProxyUrl := None;
  Agent.given_sslProxyUrl := Some Agent.Off;
|}.

(** The connection through the default proxy for SSL. *)
Definition connection_ssl : Agent.Connection := {|
  Agent.endpoint := "wss://electrum.nimiq.network:50002";
  Agent.proxy := true;
  Agent.token := Some "mainnet:electrum.example";
|}.

(** ** Inputs of the examples *)

(** The input of [tx_f4184], which spends a pay-to-pubkey output: its
    script is the signature alone. *)
Definition input_f4184 : TxInput :=
  Eval vm_compute in
    match tx_ins tx_f4184 with
    | input :: _ => input
    | [] => {| in_hash := []; in_index := 0; in_script := [];
               in_sequence := 0; in_witness := [] |}
    end.

(** An input that spends a pay-to-pubkey-hash output: a signature and a
    public key, here of two and of three bytes. *)
Definition input_p2pkh : TxInput := {|
  in_hash := in_hash input_f4184;
  in_index := 1;
  in_script := hex_decode "023045030279be";
  in_sequence := 4294967295;
  in_witness := [];
|}.

End Vectors.

(* ===================================================================== *)
(** * Properties of [ElectrumApi.ts]                                      *)
(* ===================================================================== *)

(** ** Array helpers *)

Lemma slice0_minus_one {A} (l : list A) : slice0 l (-1) = removelast l.
Proof.
  unfold slice0. rewrite removelast_firstn_len.
  replace (-1 <? 0) with true by reflexivity. f_equal. lia.
Qed.

Lemma slice0_prefix {A} (pre post : list A) :
  slice0 (pre ++ post) (Z.of_nat (length pre)) = pre.
Proof.
  unfold slice0.
  replace (Z.of_nat (length pre) <? 0) with false by (symmetry; apply Z.ltb_ge; lia).
  rewrite length_app, Z.min_l by lia.
  rewrite Nat2Z.id. apply take_app_length.
Qed.

Lemma findIndex_from_none {A} (p : A -> bool) (l : list A) (i : Z) :
  (forall x, x ∈ l -> p x = false) -> findIndex_from p l i = -1.
Proof.
  revert i. induction l as [|x l IH]; intros i Hall; simpl; [reflexivity|].
  rewrite (Hall x) by left. apply IH. intros y Hy. apply Hall. by right.
Qed.

Lemma findIndex_from_first {A} (p : A -> bool) (pre : list A) (x : A)
  (post : list A) (i : Z) :
  (forall y, y ∈ pre -> p y = false) -> p x = true ->
  findIndex_from p (pre ++ x :: post) i = i + Z.of_nat (length pre).
Proof.
  revert i. induction pre as [|y pre IH]; intros i Hpre Hx; simpl.
  - rewrite Hx. lia.
  - rewrite (Hpre y) by left. rewrite IH; [lia| |done].
    intros z Hz. apply Hpre. by right.
Qed.

Lemma unwanted_spec (since : Z) (r : Receipt) :
  ElectrumApi.unwanted since r = true <-> 0 < r_blockHeight r < since.
Proof.
  unfold ElectrumApi.unwanted. rewrite andb_true_iff, Z.gtb_lt, Z.ltb_lt. lia.
Qed.

Lemma unwanted_false (since : Z) (r : Receipt) :
  ~ (0 < r_blockHeight r < since) -> ElectrumApi.unwanted since r = false.
Proof.
  intros Hn. destruct (ElectrumApi.unwanted since r) eqn:E; [|reflexivity].
  apply unwanted_spec in E. contradiction.
Qed.

Section ApiProperties.
Context `{Platform} `{BitcoinLib} `{ElectrumApi.Payments}.

(** ** The cut of the history *)

Lemma history_to_fetch_none (since : Z) (limit : option Z)
  (receipts : list Receipt) :
  since > 0 ->
  (forall r, r ∈ ElectrumApi.sorted_history limit receipts ->
             ~ (0 < r_blockHeight r < since)) ->
  ElectrumApi.history_to_fetch since limit receipts
  = removelast (ElectrumApi.sorted_history limit receipts).
Proof.
  intros Hs Hall. unfold ElectrumApi.history_to_fetch.
  replace (since >? 0) with true by (symmetry; apply Z.gtb_lt; lia).
  unfold findIndex. rewrite findIndex_from_none.
  - apply slice0_minus_one.
  - intros r Hr. apply unwanted_false. by apply Hall.
Qed.

Lemma history_to_fetch_first (since : Z) (limit : option Z)
  (receipts pre : list Receipt) (r : Receipt) (post : list Receipt) :
  since > 0 ->
  ElectrumApi.sorted_history limit receipts = pre ++ r :: post ->
  (forall y, y ∈ pre -> ~ (0 < r_blockHeight y < since)) ->
  0 < r_blockHeight r < since ->
  ElectrumApi.history_to_fetch since limit receipts = pre.
Proof.
  intros Hs Hsplit Hpre Hr. unfold ElectrumApi.history_to_fetch.
  replace (since >? 0) with true by (symmetry; apply Z.gtb_lt; lia).
  rewrite Hsplit. unfold findIndex. rewrite findIndex_from_first.
  - apply slice0_prefix.
  - intros y Hy. apply unwanted_false. by apply Hpre.
  - by apply unwanted_spec.
Qed.

Lemma getHistory_unfold (srv : Server) (address : string) (since : Z)
  (known : list Receipt) (limit : option Z) (log log1 : list Request)
  (history : list Receipt) :
  ElectrumApi.getReceipts srv address false log = (Ok history, log1) ->
  ElectrumApi.getHistory srv address since known limit log
  = ElectrumApi.fetch_transactions srv (receipts_by_hash known)
      (ElectrumApi.history_to_fetch since limit history) ∅ [] log1.
Proof.
  intros Hr. unfold ElectrumApi.getHistory, bind. by rewrite Hr.
Qed.

(** C10.  In a call of [getHistory] with a positive [sinceBlockHeight],
    when no receipt of the sorted and limit-cut history has a height
    strictly between [0] and [sinceBlockHeight], the index found is [-1]
    and the slice drops the last receipt of that history: the loop that
    fetches the transactions runs over the history without its last
    element.  When there is such a receipt, the loop runs over the
    receipts before the first one. *)
Theorem getHistory_drops_last_when_nothing_unwanted
  (srv : Server) (address : string) (since : Z) (known : list Receipt)
  (limit : option Z) (log log1 : list Request) (history : list Receipt) :
  since > 0 ->
  ElectrumApi.getReceipts srv address false log = (Ok history, log1) ->
  (forall init last,
      ElectrumApi.sorted_history limit history = init ++ [last] ->
      (forall r, r ∈ init ++ [last] -> ~ (0 < r_blockHeight r < since)) ->
      ElectrumApi.history_to_fetch since limit history = init
      /\ ElectrumApi.getHistory srv address since known limit log
         = ElectrumApi.fetch_transactions srv (receipts_by_hash known)
             init ∅ [] log1)
  /\ (forall pre r post,
      ElectrumApi.sorted_history limit history = pre ++ r :: post ->
      (forall y, y ∈ pre -> ~ (0 < r_blockHeight y < since)) ->
      0 < r_blockHeight r < since ->
      ElectrumApi.history_to_fetch since limit history = pre
      /\ ElectrumApi.getHistory srv address since known limit log
         = ElectrumApi.fetch_transactions srv (receipts_by_hash known)
             pre ∅ [] log1).
Proof.
  intros Hs Hr. split.
  - intros init last Hsorted Hall.
    assert (ElectrumApi.history_to_fetch since limit history = init) as E.
    { rewrite history_to_fetch_none; [|done|by rewrite Hsorted].
      rewrite Hsorted. apply removelast_last. }
    split; [exact E|]. rewrite (getHistory_unfold _ _ _ _ _ _ _ _ Hr).
    by rewrite E.
  - intros pre r post Hsorted Hpre Hbad.
    assert (ElectrumApi.history_to_fetch since limit history = pre) as E
      by (eapply history_to_fetch_first; eauto).
    split; [exact E|]. rewrite (getHistory_unfold _ _ _ _ _ _ _ _ Hr).
    by rewrite E.
Qed.

(** ** Receipts *)

Lemma receipt_of_entry_fee (e : HistoryEntry) (f : Z) :
  r_fee (ElectrumApi.receipt_of_entry e) = Some f <-> fee e = Some f /\ f <> 0.
Proof.
  unfold ElectrumApi.receipt_of_entry, truthy. simpl.
  destruct (fee e) as [g|]; [|split; [discriminate|intros [? _]; discriminate]].
  destruct (Z.eqb_spec g 0) as [->|Hg]; simpl.
  - split; [discriminate|]. intros [[= <-] Hf]. contradiction.
  - split.
    + intros [= <-]. by split.
    + by intros [-> _].
Qed.

(** C9.  When the peer answers the history request for the script hash
    with [entries], [getReceipts] returns one receipt for each entry, in
    order, with the height and the transaction hash of the entry; the
    receipt has a fee exactly when the entry has one that is not zero, and
    then it is that fee. *)
Theorem getReceipts_keeps_fee_iff_nonzero
  (srv : Server) (address scriptHash : string) (isScriptHash : bool)
  (entries : list HistoryEntry) (log : list Request) :
  (if isScriptHash then Ok address
   else fst (ElectrumApi.addressToScriptHash address log)) = Ok scriptHash ->
  srv_get_history srv scriptHash = Ok entries ->
  exists receipts,
    ElectrumApi.getReceipts srv address isScriptHash log
    = (Ok receipts, log ++ [ReqGetHistory scriptHash])
    /\ length receipts = length entries
    /\ forall (i : nat) (e : HistoryEntry),
        entries !! i = Some e ->
        exists r, receipts !! i = Some r
          /\ r_blockHeight r = height e
          /\ r_transactionHash r = tx_hash e
          /\ (forall f, r_fee r = Some f <-> fee e = Some f /\ f <> 0)
          /\ (fee e = Some 0 -> r_fee r = None).
Proof.
  intros Hsh Hans. exists (map ElectrumApi.receipt_of_entry entries).
  split; [|split].
  - unfold ElectrumApi.getReceipts, bind, request, ret.
    destruct isScriptHash.
    + injection Hsh as ->. by rewrite Hans.
    + unfold ElectrumApi.addressToScriptHash, bind, lift, ret in *.
      destruct (address_toOutputScript address); simpl in *; [|discriminate].
      injection Hsh as ->. by rewrite Hans.
  - apply length_map.
  - intros i e He. exists (ElectrumApi.receipt_of_entry e).
    split; [by rewrite list_lookup_fmap, He|].
    split; [reflexivity|]. split; [reflexivity|].
    split; [apply receipt_of_entry_fee|].
    intros H0f. destruct (r_fee (ElectrumApi.receipt_of_entry e)) as [f|] eqn:E;
      [|reflexivity].
    apply receipt_of_entry_fee in E as [E Hf]. congruence.
Qed.

(** ** Broadcast *)

(** C7.  [broadcastTransaction] decodes the raw transaction before it
    sends anything: if that fails the call fails and no request is sent.
    Otherwise the request is sent, and when the peer answers it with a
    string, the call returns the decoded transaction if the string is the
    transaction's hash and fails with an error whose message is the
    string if it is not. *)
Theorem broadcastTransaction_checks_returned_hash
  (srv : Server) (rawTx reply : string) (log : list Request) :
  srv_broadcast srv rawTx = Ok reply ->
  match ElectrumApi.transactionToPlain rawTx None with
  | Err e => ElectrumApi.broadcastTransaction srv rawTx log = (Err e, log)
  | Ok tx =>
      (reply = t_transactionHash tx ->
       ElectrumApi.broadcastTransaction srv rawTx log
       = (Ok tx, log ++ [ReqBroadcast rawTx]))
      /\ (reply <> t_transactionHash tx ->
          ElectrumApi.broadcastTransaction srv rawTx log
          = (Err (JsError reply), log ++ [ReqBroadcast rawTx]))
  end.
Proof.
  intros Hans. unfold ElectrumApi.broadcastTransaction, bind, lift, request.
  destruct (ElectrumApi.transactionToPlain rawTx None) as [tx|e]; [|reflexivity].
  rewrite Hans. split; intros Hr.
  - by rewrite bool_decide_eq_true_2.
  - by rewrite bool_decide_eq_false_2.
Qed.

(** ** The Merkle proof *)

Lemma merkle_step_fold_path (path : list string) (i : Z) (node : list byte) :
  snd (fold_left ElectrumApi.merkle_step path (i, node))
  = Spec.fold_path node i path.
Proof.
  revert i node. induction path as [|pairHash path IH]; intros i node; simpl;
    [reflexivity|].
  rewrite IH. unfold ElectrumApi.sha256d.
  replace (i / 2) with (Z.shiftr i 1)
    by (rewrite Z.shiftr_div_pow2 by lia; reflexivity).
  assert ((Z.rem i 2 =? 0) = (i mod 2 =? 0)) as ->;
    [|by destruct (i mod 2 =? 0)].
  destruct (Z.eqb_spec (Z.rem i 2) 0) as [E|E], (Z.eqb_spec (i mod 2) 0) as [F|F];
    try reflexivity; exfalso.
  - apply F. by apply Z.rem_mod_eq_0.
  - apply E. by apply Z.rem_mod_eq_0.
Qed.

(** The loop of the source computes the root of the specification. *)
Lemma merkle_root_of_spec (hash : string) (proof : MerkleProof) :
  ElectrumApi.merkle_root_of hash proof = Spec.computed_root hash proof.
Proof.
  unfold ElectrumApi.merkle_root_of, Spec.computed_root.
  by rewrite merkle_step_fold_path.
Qed.

Lemma transactionToPlain_block_fields (raw : string) (b : PlainBlockHeader)
  (tx : PlainTransaction) :
  ElectrumApi.transactionToPlain raw (Some b) = Ok tx ->
  t_blockHash tx = Some (h_blockHash b)
  /\ t_blockHeight tx = Some (h_blockHeight b)
  /\ t_timestamp tx = Some (h_timestamp b).
Proof.
  unfold ElectrumApi.transactionToPlain.
  destruct (Transaction_fromHex raw); [|discriminate].
  destruct (all_ok _); [|discriminate].
  destruct (all_ok _); [|discriminate].
  intros [= <-]. by simpl.
Qed.

Lemma getTransaction_header (srv : Server) (hash : string)
  (b : PlainBlockHeader) (proof : MerkleProof) (log : list Request) :
  srv_get_merkle srv hash (h_blockHeight b) = Ok proof ->
  ElectrumApi.getTransaction srv hash (Header b) log
  = if bool_decide (Some (Spec.computed_root hash proof) = h_merkleRoot b)
    then
      (match srv_transaction_get srv hash with
       | Ok raw => ElectrumApi.transactionToPlain raw (Some b)
       | Err e => Err e
       end,
       log ++ [ReqGetMerkle hash (h_blockHeight b)] ++ [ReqTransactionGet hash])
    else
      (Err (ElectrumApi.invalid_merkle_proof hash (h_blockHeight b)),
       log ++ [ReqGetMerkle hash (h_blockHeight b)]).
Proof.
  intros Hm.
  unfold ElectrumApi.getTransaction, ElectrumApi.getTransactionMerkleRoot,
    bind, ret, request, throw, lift.
  rewrite Hm, merkle_root_of_spec.
  case_bool_decide; [|reflexivity].
  rewrite <- app_assoc. by destruct (srv_transaction_get srv hash).
Qed.

(** C1, as the code has it.  In a call of [getTransaction] with a block
    header [b], when the peer answers the request for the Merkle path with
    [proof]: the root that the code computes is the root of section 4.4.1
    of the specification; the call returns a transaction exactly when that
    root is the Merkle root of [b] and, after that, the request for the
    raw transaction is answered and the raw transaction decodes; when the
    roots differ the call fails with the error of the invalid Merkle proof
    and the raw transaction is not requested; a transaction that is
    returned has the block fields of [b]; and a positive height that
    resolves to [b] is treated as [b]. *)
Theorem getTransaction_succeeds_iff_root_and_raw
  (srv : Server) (hash : string) (b : PlainBlockHeader) (proof : MerkleProof)
  (log : list Request) :
  srv_get_merkle srv hash (h_blockHeight b) = Ok proof ->
  ElectrumApi.getTransactionMerkleRoot srv hash (h_blockHeight b) log
  = (Ok (Spec.computed_root hash proof),
     log ++ [ReqGetMerkle hash (h_blockHeight b)])
  /\ (forall tx,
        fst (ElectrumApi.getTransaction srv hash (Header b) log) = Ok tx
        <-> h_merkleRoot b = Some (Spec.computed_root hash proof)
            /\ exists raw, srv_transaction_get srv hash = Ok raw
                 /\ ElectrumApi.transactionToPlain raw (Some b) = Ok tx)
  /\ (h_merkleRoot b <> Some (Spec.computed_root hash proof) ->
      ElectrumApi.getTransaction srv hash (Header b) log
      = (Err (ElectrumApi.invalid_merkle_proof hash (h_blockHeight b)),
         log ++ [ReqGetMerkle hash (h_blockHeight b)]))
  /\ (forall tx,
        fst (ElectrumApi.getTransaction srv hash (Header b) log) = Ok tx ->
        t_blockHash tx = Some (h_blockHash b)
        /\ t_blockHeight tx = Some (h_blockHeight b)
        /\ t_timestamp tx = Some (h_timestamp b))
  /\ (forall h log0,
        h > 0 ->
        ElectrumApi.getBlockHeader srv h log0 = (Ok b, log) ->
        ElectrumApi.getTransaction srv hash (Height h) log0
        = ElectrumApi.getTransaction srv hash (Header b) log).
Proof.
  intros Hm.
  assert (forall tx,
    fst (ElectrumApi.getTransaction srv hash (Header b) log) = Ok tx
    <-> h_merkleRoot b = Some (Spec.computed_root hash proof)
        /\ exists raw, srv_transaction_get srv hash = Ok raw
             /\ ElectrumApi.transactionToPlain raw (Some b) = Ok tx) as Hiff.
  { intros tx. rewrite (getTransaction_header _ _ _ _ _ Hm).
    case_bool_decide as Hroot; simpl.
    - destruct (srv_transaction_get srv hash) as [raw|e].
      + split; [intros Htx; split; [done|by exists raw]|].
        intros [_ (raw' & [= <-] & Htx)]. exact Htx.
      + split; [discriminate|]. intros [_ (raw' & Hraw & _)]. discriminate.
    - split; [discriminate|]. intros [Hr _]. by rewrite Hr in Hroot. }
  split; [|split; [exact Hiff|split; [|split]]].
  - unfold ElectrumApi.getTransactionMerkleRoot, bind, ret, request.
    by rewrite Hm, merkle_root_of_spec.
  - intros Hne. rewrite (getTransaction_header _ _ _ _ _ Hm).
    by rewrite bool_decide_eq_false_2.
  - intros tx Htx. apply Hiff in Htx as [_ (raw & _ & Htx)].
    by eapply transactionToPlain_block_fields.
  - intros h log0 Hh Hb.
    unfold ElectrumApi.getTransaction at 1.
    replace (h >? 0) with true by (symmetry; apply Z.gtb_lt; lia).
    unfold bind at 1 2 3. rewrite Hb. reflexivity.
Qed.

End ApiProperties.

(* ===================================================================== *)
(** * Properties of [Agent.ts]                                            *)
(* ===================================================================== *)

(** The state is its three parts. *)
Lemma state_eta (s : Agent.State) :
  s = {| Agent.agent := Agent.agent s; Agent.world := Agent.world s;
         Agent.pending := Agent.pending s |}.
Proof. by destruct s. Qed.

Lemma world_eta (w : Agent.World) :
  w = {| Agent.BlockStore := Agent.BlockStore w;
         Agent.TransactionStore := Agent.TransactionStore w;
         Agent.fired := Agent.fired w; Agent.logged := Agent.logged w;
         Agent.sent := Agent.sent w; Agent.closes := Agent.closes w |}.
Proof. by destruct w. Qed.

Lemma filter_twice {A} (P : A -> Prop) `{forall x, Decision (P x)} (l : list A) :
  filter P (filter P l) = filter P l.
Proof.
  induction l as [|x l IH]; [reflexivity|].
  rewrite filter_cons. case_decide as Hx.
  - rewrite filter_cons. rewrite decide_True by done. by rewrite IH.
  - exact IH.
Qed.

Lemma occurrences_app (p : Agent.Event -> bool) (l1 l2 : list Agent.Event) :
  Agent.occurrences p (l1 ++ l2)
  = (Agent.occurrences p l1 + Agent.occurrences p l2)%nat.
Proof. unfold Agent.occurrences. by rewrite List.filter_app, length_app. Qed.

(** Unfolds the effects of the agent and computes on the records. *)
Ltac unfold_act :=
  unfold Agent.modify, Agent.get, Agent.fire, Agent.logger,
    Agent.BlockStore_set, Agent.TransactionStore_set, Agent.setInterval,
    Agent.clearInterval, Agent.setTimeout, Agent.clearTimeout,
    Agent.with_world, Agent.with_agent, Agent.with_pending,
    bind, ret, throw, lift, try_catch, attempt in *;
  simpl in *.

Ltac unfold_setters :=
  unfold Agent.set_connection, Agent.set_handshaking, Agent.set_syncing,
    Agent.set_synced, Agent.set_knownReceipts, Agent.set_pingInterval,
    Agent.set_BlockStore, Agent.set_TransactionStore, Agent.set_fired,
    Agent.set_logged, Agent.set_sent, Agent.set_closes, Agent.set_intervals,
    Agent.set_timeouts, Agent.set_nextTimer, Agent.set_awaitingConnection,
    Agent.set_awaitingHandshake, Agent.set_headSubscriptions,
    Agent.set_subscriptions in *;
  simpl in *.

Section AgentProperties.
Context `{Platform} `{BitcoinLib} `{ElectrumApi.Payments}.

(** ** The guard of the public methods *)






(** ** [close] *)

Lemma close_state (reason : string) (s : Agent.State) :
  snd (Agent.close reason s)
  = {| Agent.agent :=
         Agent.set_synced false
           (Agent.set_syncing false
              (Agent.set_connection None (Agent.agent s)));
       Agent.world :=
         Agent.set_fired (Agent.fired (Agent.world s) ++ [Agent.CLOSE reason])
           (Agent.set_closes
              (Agent.closes (Agent.world s)
               ++ match Agent.connection (Agent.agent s) with
                  | Some _ => [reason]
                  | None => []
                  end)
              (Agent.set_logged
                 (Agent.logged (Agent.world s)
                  ++ [Agent.LogDebug ("Agent: Closed: " +:+ reason)])
                 (Agent.world s)));
       Agent.pending :=
         Agent.set_intervals
           (filter (fun t => fst t ≠ Agent.pingInterval (Agent.agent s))
                   (Agent.intervals (Agent.pending s)))
           (Agent.pending s) |}.
Proof.
  unfold Agent.close. unfold_act.
  destruct (Agent.connection (Agent.agent s)); simpl;
    unfold Agent.set_closes; simpl; [reflexivity|].
  by rewrite app_nil_r.
Qed.

Lemma close_ok (reason : string) (s : Agent.State) :
  fst (Agent.close reason s) = Ok tt.
Proof.
  unfold Agent.close. unfold_act.
  by destruct (Agent.connection (Agent.agent s)).
Qed.

Lemma close_fired (reason : string) (s : Agent.State) :
  Agent.fired (Agent.world (snd (Agent.close reason s)))
  = Agent.fired (Agent.world s) ++ [Agent.CLOSE reason].
Proof. by rewrite close_state. Qed.

(** C4, as the code has it.  [close] has no guard: every call fires one
    [CLOSE] event with its reason and logs one line.  A second call leaves
    the fields of the agent, the timers, the stores, the requests sent
    and the connection (closed once) as the first call left them, and
    fires a second [CLOSE] event; after any number of calls the number of
    [CLOSE] events has grown by the number of calls. *)
Theorem close_fires_on_every_call :
  (forall (reason1 reason2 : string) (s : Agent.State),
      let s1 := snd (Agent.close reason1 s) in
      let s2 := snd (Agent.close reason2 s1) in
      Agent.same_but_trace s1 s2
      /\ Agent.fired (Agent.world s2)
         = Agent.fired (Agent.world s1) ++ [Agent.CLOSE reason2]
      /\ Agent.logged (Agent.world s2)
         = Agent.logged (Agent.world s1)
           ++ [Agent.LogDebug ("Agent: Closed: " +:+ reason2)])
  /\ (forall (reasons : list string) (s : Agent.State),
      Agent.count Agent.is_CLOSE
        (fold_left (fun s0 reason => snd (Agent.close reason s0)) reasons s)
      = (Agent.count Agent.is_CLOSE s + length reasons)%nat).
Proof.
  split.
  - intros reason1 reason2 s s1 s2. subst s1 s2.
    rewrite (close_state reason2), (close_state reason1).
    unfold Agent.same_but_trace. simpl.
    rewrite filter_twice, app_nil_r.
    repeat split.
  - intros reasons. induction reasons as [|reason reasons IH]; intros s; simpl.
    + lia.
    + rewrite IH. unfold Agent.count. rewrite close_fired.
      rewrite List.filter_app, length_app. simpl. lia.
Qed.

(** ** [onBlock] *)

Lemma onBlock_decide_ok (block : PlainBlockHeader)
  (prevBlock : option PlainBlockHeader) (ok : bool) (s : Agent.State) :
  Agent.consecutive prevBlock block = Ok ok ->
  Agent.onBlock_decide block prevBlock s
  = (Ok tt, Agent.sync_transition (Agent.record_block ok block s)).
Proof.
  intros Hc. unfold Agent.onBlock_decide, Agent.sync_transition,
    Agent.record_block.
  unfold_act. rewrite Hc.
  destruct ok; unfold_act; destruct (Agent.syncing (Agent.agent s)) eqn:E;
    unfold_act; rewrite ?E; try reflexivity.
  all: by destruct s as [a w p].
Qed.

Lemma onBlock_decide_err (block : PlainBlockHeader)
  (prevBlock : option PlainBlockHeader) (e : Error) (s : Agent.State) :
  Agent.consecutive prevBlock block = Err e ->
  Agent.onBlock_decide block prevBlock s = (Err e, s).
Proof.
  intros Hc. unfold Agent.onBlock_decide. unfold_act. by rewrite Hc.
Qed.

(** The part of [onBlock] after the [await], from whatever state the run
    is resumed in: the fetched header is cached and decides. *)
Lemma onBlock_fetched_ok (block p : PlainBlockHeader) (s : Agent.State) :
  Agent.onBlock_fetched block p s
  = (Ok tt,
     Agent.sync_transition
       (Agent.record_block
          (bool_decide (Some (h_blockHash p) = h_prevHash block)) block
          (Agent.with_world
             (fun w => Agent.set_BlockStore
                         (<[h_blockHeight p := p]> (Agent.BlockStore w)) w) s))).
Proof.
  unfold Agent.onBlock_fetched. unfold bind at 1.
  unfold Agent.BlockStore_set, Agent.modify.
  by rewrite (onBlock_decide_ok _ _ (bool_decide (Some (h_blockHash p) = h_prevHash block))).
Qed.

Lemma getBlockHeader_ok (srv : Server) (height : Z) (log log' : list Request)
  (p : PlainBlockHeader) :
  ElectrumApi.getBlockHeader srv height log = (Ok p, log') ->
  h_blockHeight p = height /\ log' = log ++ [ReqBlockHeader height].
Proof.
  unfold ElectrumApi.getBlockHeader, ElectrumApi.blockHeaderToPlain,
    bind, request, lift.
  destruct (srv_block_header srv height) as [raw|e]; [|discriminate].
  destruct (Block_fromHex raw); [|discriminate].
  intros [= <- <-]. by split.
Qed.

Lemma onBlock_stored (srv : Server) (block p : PlainBlockHeader)
  (s : Agent.State) :
  Agent.BlockStore (Agent.world s) !! (h_blockHeight block - 1) = Some p ->
  Agent.onBlock srv block s = Agent.onBlock_decide block (Some p) s.
Proof.
  intros Hp. unfold Agent.onBlock. unfold bind at 1. unfold Agent.get.
  by rewrite Hp.
Qed.

Lemma onBlock_first (srv : Server) (block : PlainBlockHeader) (s : Agent.State) :
  Agent.BlockStore (Agent.world s) !! (h_blockHeight block - 1) = None ->
  h_blockHeight block <= 0 ->
  Agent.onBlock srv block s = Agent.onBlock_decide block None s.
Proof.
  intros Hp Hh. unfold Agent.onBlock. unfold bind at 1. unfold Agent.get.
  rewrite Hp.
  by replace (h_blockHeight block >? 0) with false
    by (rewrite Z.gtb_ltb; symmetry; apply Z.ltb_ge; lia).
Qed.

Lemma onBlock_fetches (srv : Server) (block : PlainBlockHeader)
  (s : Agent.State) :
  Agent.BlockStore (Agent.world s) !! (h_blockHeight block - 1) = None ->
  h_blockHeight block > 0 ->
  Agent.onBlock srv block s
  = match Agent.connection (Agent.agent s) with
    | None => (Err Agent.null_connection, s)
    | Some _ =>
        match ElectrumApi.getBlockHeader srv (h_blockHeight block - 1)
                (Agent.sent (Agent.world s)) with
        | (Ok p, log) =>
            Agent.onBlock_fetched block p
              (Agent.with_world (Agent.set_sent log) s)
        | (Err e, log) => (Err e, Agent.with_world (Agent.set_sent log) s)
        end
    end.
Proof.
  intros Hp Hh. unfold Agent.onBlock. unfold bind at 1. unfold Agent.get.
  rewrite Hp.
  replace (h_blockHeight block >? 0) with true
    by (symmetry; apply Z.gtb_lt; lia).
  unfold bind, Agent.call.
  destruct (Agent.connection (Agent.agent s)); [|reflexivity].
  by destruct (ElectrumApi.getBlockHeader _ _ _) as [[p|e] log].
Qed.

Lemma consecutive_some (p block : PlainBlockHeader) :
  Agent.consecutive (Some p) block
  = Ok (bool_decide (Some (h_blockHash p) = h_prevHash block)).
Proof. reflexivity. Qed.

(** What a run of [onBlock] does once the predecessor [p] is known. *)
Lemma onBlock_with_predecessor (srv : Server) (block p : PlainBlockHeader)
  (s : Agent.State) :
  0 < h_blockHeight block ->
  Agent.predecessor srv s block p ->
  exists log,
    Agent.onBlock srv block s
    = (Ok tt,
       Agent.sync_transition
         (Agent.record_block
            (bool_decide (Some (h_blockHash p) = h_prevHash block)) block
            (Agent.with_world
               (fun w => Agent.set_BlockStore
                           (<[h_blockHeight block - 1 := p]> (Agent.BlockStore w))
                           (Agent.set_sent log w)) s))).
Proof.
  intros Hh [Hp|(Hp & Halive & Hfetch)].
  - exists (Agent.sent (Agent.world s)).
    rewrite (onBlock_stored _ _ _ _ Hp), (onBlock_decide_ok _ _ _ _ (consecutive_some _ _)).
    unfold Agent.with_world. simpl. rewrite insert_id by done.
    destruct s as [a [? ? ? ? ? ?] pd]. reflexivity.
  - destruct (ElectrumApi.getBlockHeader srv (h_blockHeight block - 1)
                (Agent.sent (Agent.world s))) as [r log] eqn:Hg.
    simpl in Hfetch. subst r. exists log.
    rewrite onBlock_fetches by (done || lia).
    destruct Halive as [c ->]. rewrite Hg.
    apply getBlockHeader_ok in Hg as [Hheight _].
    unfold Agent.onBlock_fetched. unfold bind at 1.
    unfold Agent.BlockStore_set, Agent.modify.
    rewrite (onBlock_decide_ok _ _ _ _ (consecutive_some _ _)).
    rewrite Hheight. reflexivity.
Qed.

Lemma sync_transition_record_block (ok : bool) (block : PlainBlockHeader)
  (s : Agent.State) :
  let s' := Agent.sync_transition (Agent.record_block ok block s) in
  Agent.BlockStore (Agent.world s')
  = (if ok then <[h_blockHeight block := block]> (Agent.BlockStore (Agent.world s))
     else Agent.BlockStore (Agent.world s))
  /\ Agent.fired (Agent.world s')
     = Agent.fired (Agent.world s)
       ++ (if ok then [Agent.BLOCK block] else []) ++ Agent.sync_events s
  /\ Agent.logged (Agent.world s')
     = Agent.logged (Agent.world s)
       ++ (if ok then []
           else [Agent.LogWarn "Agent: Received non-consecutive block:" block])
  /\ Agent.sent (Agent.world s') = Agent.sent (Agent.world s)
  /\ Agent.syncing (Agent.agent s') = false
  /\ Agent.synced (Agent.agent s')
     = Agent.syncing (Agent.agent s) || Agent.synced (Agent.agent s)
  /\ (Agent.syncing (Agent.agent s) = true ->
      Agent.intervals (Agent.pending s')
      = Agent.intervals (Agent.pending s)
        ++ [(Agent.nextTimer (Agent.pending s), Agent.CONNECTIVITY_CHECK_INTERVAL)]
      /\ Agent.pingInterval (Agent.agent s') = Agent.nextTimer (Agent.pending s))
  /\ (Agent.syncing (Agent.agent s) = false ->
      Agent.agent s' = Agent.agent s /\ Agent.pending s' = Agent.pending s).
Proof.
  unfold Agent.sync_transition, Agent.record_block, Agent.sync_events.
  destruct ok; simpl; destruct (Agent.syncing (Agent.agent s)) eqn:E; simpl;
    rewrite ?app_nil_r, <- ?app_assoc; repeat split; try done.
Qed.

(** A run of [onBlock] either fails, and then it has at most sent the
    request for the predecessor, or it reaches the two [if]s from a state
    that differs from the first in the predecessor cached and the request
    sent. *)
Lemma onBlock_shape (srv : Server) (block : PlainBlockHeader) (s : Agent.State) :
  (exists e log,
      Agent.onBlock srv block s
      = (Err e, Agent.with_world (Agent.set_sent log) s))
  \/ (exists ok store log,
      Agent.onBlock srv block s
      = (Ok tt,
         Agent.sync_transition
           (Agent.record_block ok block
              (Agent.with_world
                 (fun w => Agent.set_BlockStore store (Agent.set_sent log w)) s)))).
Proof.
  assert (forall t : Agent.State,
    t = Agent.with_world
          (fun w => Agent.set_BlockStore (Agent.BlockStore (Agent.world t))
                      (Agent.set_sent (Agent.sent (Agent.world t)) w)) t) as Eta
    by (by intros [a [? ? ? ? ? ?] p]).
  assert (forall t : Agent.State,
    t = Agent.with_world (Agent.set_sent (Agent.sent (Agent.world t))) t) as Eta'
    by (by intros [a [? ? ? ? ? ?] p]).
  destruct (Agent.BlockStore (Agent.world s) !! (h_blockHeight block - 1))
    as [p|] eqn:Hp.
  - right. rewrite (onBlock_stored _ _ _ _ Hp).
    rewrite (onBlock_decide_ok _ _ _ _ (consecutive_some _ _)).
    eexists _, _, _. by rewrite (Eta s) at 1.
  - destruct (Z.ltb_spec 0 (h_blockHeight block)) as [Hh|Hh].
    + rewrite onBlock_fetches by (done || lia).
      destruct (Agent.connection (Agent.agent s)).
      2: { left. eexists _, _. by rewrite (Eta' s) at 1. }
      destruct (ElectrumApi.getBlockHeader _ _ _) as [[p|e] log].
      2: { left. by eexists _, _. }
      right. unfold Agent.onBlock_fetched. unfold bind at 1.
      unfold Agent.BlockStore_set, Agent.modify.
      rewrite (onBlock_decide_ok _ _ _ _ (consecutive_some _ _)).
      by eexists _, _, _.
    + rewrite onBlock_first by done.
      destruct (Agent.consecutive None block) as [ok|e] eqn:Hc.
      * right. rewrite (onBlock_decide_ok _ _ _ _ Hc).
        eexists _, _, _. by rewrite (Eta s) at 1.
      * left. rewrite (onBlock_decide_err _ _ _ _ Hc).
        eexists _, _. by rewrite (Eta' s) at 1.
Qed.

Lemma app_not_self {A} (l : list A) (x : A) : l ++ [x] <> l.
Proof.
  intros E. apply (f_equal length) in E. rewrite length_app in E. simpl in E. lia.
Qed.

(** C2.  For a header at height [0], with nothing stored below it, the
    run of [onBlock] accepts it without a predecessor and sends nothing.
    For a header at a positive height whose predecessor [p] is the header
    stored at the height below, or is fetched from the peer when none is
    stored: [p] is in the store after the run; the header is accepted
    (stored, [BLOCK] fired, nothing logged) exactly when the block hash of
    [p] is the header's previous hash, and dropped (not stored, no [BLOCK],
    the warning logged) exactly when it is not; and when it is accepted the
    store holds, after this run, at the two heights headers that are
    linked by their hashes.  The link is a fact of the state after the
    accepting run and not an invariant of the store: a header that is
    accepted later at the height below replaces the stored predecessor,
    and nothing compares it with the header above. *)
Theorem onBlock_accepts_iff_consecutive
  (srv : Server) (block : PlainBlockHeader) (s : Agent.State) :
  let h := h_blockHeight block in
  let s' := snd (Agent.onBlock srv block s) in
  (h = 0 ->
   Agent.BlockStore (Agent.world s) !! (-1) = None ->
   Agent.accepted block (Agent.BlockStore (Agent.world s)) s s'
   /\ Agent.sent (Agent.world s') = Agent.sent (Agent.world s))
  /\ (0 < h ->
      forall p, Agent.predecessor srv s block p ->
      let store := <[h - 1 := p]> (Agent.BlockStore (Agent.world s)) in
      Agent.BlockStore (Agent.world s') !! (h - 1) = Some p
      /\ (Agent.accepted block store s s'
          <-> Some (h_blockHash p) = h_prevHash block)
      /\ (Agent.dropped block store s s'
          <-> Some (h_blockHash p) <> h_prevHash block)
      /\ (Agent.accepted block store s s' ->
          exists q b,
            Agent.BlockStore (Agent.world s') !! (h - 1) = Some q
            /\ Agent.BlockStore (Agent.world s') !! h = Some b
            /\ Some (h_blockHash q) = h_prevHash b)).
Proof.
  intros h s'. split.
  - intros Hh Hnone. subst s' h.
    rewrite onBlock_first by (rewrite Hh; simpl; (done || lia)).
    assert (Agent.consecutive None block = Ok true) as Hc
      by (unfold Agent.consecutive; by rewrite Hh).
    rewrite (onBlock_decide_ok _ _ _ _ Hc). cbn [snd].
    destruct (sync_transition_record_block true block s)
      as (HB & HF & HL & HS & _).
    unfold Agent.accepted. rewrite HB, HF, HL, HS, app_nil_r. done.
  - intros Hh p Hpred store. subst s'.
    destruct (onBlock_with_predecessor _ _ _ _ Hh Hpred) as [log ->]. cbn [snd].
    set (s0 := Agent.with_world _ s).
    destruct (sync_transition_record_block
                (bool_decide (Some (h_blockHash p) = h_prevHash block)) block s0)
      as (HB & HF & HL & _).
    assert (Agent.BlockStore (Agent.world s0) = store) as HB0 by reflexivity.
    assert (Agent.fired (Agent.world s0) = Agent.fired (Agent.world s)) as HF0
      by reflexivity.
    assert (Agent.logged (Agent.world s0) = Agent.logged (Agent.world s)) as HL0
      by reflexivity.
    assert (Agent.sync_events s0 = Agent.sync_events s) as HE0 by reflexivity.
    rewrite HB0, HF0, HE0 in *. rewrite HL0 in HL.
    assert (Some (h_blockHash p) = h_prevHash block ->
            Agent.accepted block store s
              (Agent.sync_transition
                 (Agent.record_block
                    (bool_decide (Some (h_blockHash p) = h_prevHash block))
                    block s0))) as Hacc.
    { intros Heq. unfold Agent.accepted. rewrite HB, HF, HL.
      rewrite bool_decide_eq_true_2 by done. by rewrite app_nil_r. }
    assert (Some (h_blockHash p) <> h_prevHash block ->
            Agent.dropped block store s
              (Agent.sync_transition
                 (Agent.record_block
                    (bool_decide (Some (h_blockHash p) = h_prevHash block))
                    block s0))) as Hdrop.
    { intros Hne. unfold Agent.dropped. rewrite HB, HF, HL.
      by rewrite bool_decide_eq_false_2 by done. }
    assert (forall s1, Agent.accepted block store s s1 ->
                       Agent.dropped block store s s1 -> False) as Hex.
    { intros s1 (_ & _ & Ha) (_ & _ & Hd). rewrite Ha in Hd.
      symmetry in Hd. by apply app_not_self in Hd. }
    split; [|split; [|split]].
    + rewrite HB. subst store. unfold h.
      case_bool_decide.
      * rewrite lookup_insert_ne by lia. apply lookup_insert_eq.
      * apply lookup_insert_eq.
    + split; [|exact Hacc]. intros Ha.
      destruct (decide (Some (h_blockHash p) = h_prevHash block)) as [|Hne];
        [done|]. exfalso. eapply Hex; [exact Ha|by apply Hdrop].
    + split; [|exact Hdrop]. intros Hd Heq.
      eapply Hex; [by apply Hacc|exact Hd].
    + intros Ha.
      destruct (decide (Some (h_blockHash p) = h_prevHash block)) as [Heq|Hne].
      * exists p, block. destruct Ha as (Ha & _ & _). rewrite Ha.
        subst store. unfold h.
        rewrite lookup_insert_ne by lia.
        rewrite !lookup_insert_eq. done.
      * exfalso. eapply Hex; [exact Ha|by apply Hdrop].
Qed.

(** ** [ping] *)

Lemma filter_fresh (id : Z) (l : list (Z * Z * Z)) :
  Forall (fun t => fst (fst t) < id) l ->
  filter (fun t => fst (fst t) ≠ id) l = l.
Proof.
  induction 1 as [|t l Ht Hl IH]; [reflexivity|].
  rewrite filter_cons, decide_True by lia. by rewrite IH.
Qed.

Lemma find_fresh (id d k : Z) (l : list (Z * Z * Z)) :
  Forall (fun t => fst (fst t) < id) l ->
  List.find (fun t => fst (fst t) =? id) (l ++ [(id, d, k)]) = Some (id, d, k).
Proof.
  induction 1 as [|t l Ht Hl IH]; simpl.
  - by rewrite Z.eqb_refl.
  - replace (fst (fst t) =? id) with false by (symmetry; apply Z.eqb_neq; lia).
    exact IH.
Qed.

Lemma ping_unanswered (srv : Server) (e : Error) (k : Z) (j : nat)
  (s : Agent.State) :
  is_Some (Agent.connection (Agent.agent s)) ->
  srv_ping srv = Err e ->
  Agent.ping srv k (Agent.after_pings j s)
  = (Ok tt,
     Agent.awaiting (Agent.nextTimer (Agent.pending s) + Z.of_nat j) k
       (Agent.after_pings (S j) s)).
Proof.
  intros [c Hc] He. unfold Agent.ping, Agent.call, ElectrumApi.ping_request,
    request, Agent.awaiting, Agent.after_pings.
  unfold_act. rewrite Hc, He. simpl.
  unfold_setters.
  rewrite <- app_assoc, <- repeat_cons.
  replace (Agent.nextTimer (Agent.pending s) + Z.of_nat j + 1)
    with (Agent.nextTimer (Agent.pending s) + Z.of_nat (S j)) by lia.
  reflexivity.
Qed.

Lemma on_timeout_fresh (srv : Server) (k : Z) (j : nat) (s : Agent.State) :
  Agent.timers_fresh s ->
  Agent.on_timeout srv (Agent.nextTimer (Agent.pending s) + Z.of_nat j)
    (Agent.awaiting (Agent.nextTimer (Agent.pending s) + Z.of_nat j) k
       (Agent.after_pings (S j) s))
  = Agent.ping_timeout srv k (Agent.after_pings (S j) s).
Proof.
  intros Hfresh. unfold Agent.timers_fresh in Hfresh.
  assert (Forall (fun t => fst (fst t)
                           < Agent.nextTimer (Agent.pending s) + Z.of_nat j)
                 (Agent.timeouts (Agent.pending s))) as Hlt.
  { eapply Forall_impl; [exact Hfresh|]. simpl. intros t Ht. lia. }
  unfold Agent.on_timeout, Agent.awaiting. unfold_act.
  rewrite find_fresh by exact Hlt.
  rewrite filter_app, filter_fresh by exact Hlt.
  rewrite filter_cons, decide_False by (simpl; lia).
  rewrite filter_nil, app_nil_r.
  reflexivity.
Qed.

Lemma ping_timeout_retries (srv : Server) (k : Z) (s : Agent.State) :
  k <= 1 -> Agent.ping_timeout srv k s = Agent.ping srv (k + 1) s.
Proof.
  intros Hk. unfold Agent.ping_timeout.
  by replace (k >? 1) with false by (rewrite Z.gtb_ltb; symmetry; apply Z.ltb_ge; lia).
Qed.

Lemma ping_timeout_closes (srv : Server) (k : Z) (s : Agent.State) :
  k > 1 -> Agent.ping_timeout srv k s = Agent.close "Ping timeout" s.
Proof.
  intros Hk. unfold Agent.ping_timeout.
  by replace (k >? 1) with true by (symmetry; apply Z.gtb_lt; lia).
Qed.

(** C8, as the code has it.  The interval that the agent starts when it
    becomes synced has a period of 60 seconds and each of its ticks sends
    a ping with a timeout of 10 seconds.  The handler of the timeout
    closes the agent when [failedTries] is greater than [1] and sends the
    next ping otherwise: while the peer does not answer, the first and the
    second timeout each send a further ping and fire no event, and the
    third timeout in a row closes the agent with the reason
    "Ping timeout". *)
Theorem ping_closes_on_third_timeout
  (srv : Server) (e : Error) (s : Agent.State) :
  is_Some (Agent.connection (Agent.agent s)) ->
  srv_ping srv = Err e ->
  Agent.timers_fresh s ->
  let id := Agent.nextTimer (Agent.pending s) in
  let s0 := snd (Agent.ping srv 0 s) in
  let s1 := snd (Agent.on_timeout srv id s0) in
  let s2 := snd (Agent.on_timeout srv (id + 1) s1) in
  let s3 := snd (Agent.on_timeout srv (id + 2) s2) in
  Agent.CONNECTIVITY_CHECK_INTERVAL = 60000
  /\ Agent.PING_TIMEOUT = 10000
  /\ (forall i, (i, Agent.CONNECTIVITY_CHECK_INTERVAL)
                ∈ Agent.intervals (Agent.pending s) ->
                Agent.on_interval srv i s = Agent.ping srv 0 s)
  /\ Agent.timeouts (Agent.pending s0)
     = Agent.timeouts (Agent.pending s) ++ [(id, Agent.PING_TIMEOUT, 0)]
  /\ Agent.fired (Agent.world s1) = Agent.fired (Agent.world s)
  /\ Agent.sent (Agent.world s1)
     = Agent.sent (Agent.world s) ++ [ReqPing; ReqPing]
  /\ Agent.fired (Agent.world s2) = Agent.fired (Agent.world s)
  /\ Agent.agent s2 = Agent.agent s
  /\ Agent.sent (Agent.world s2)
     = Agent.sent (Agent.world s) ++ [ReqPing; ReqPing; ReqPing]
  /\ Agent.fired (Agent.world s3)
     = Agent.fired (Agent.world s) ++ [Agent.CLOSE "Ping timeout"]
  /\ Agent.connection (Agent.agent s3) = None
  /\ Agent.synced (Agent.agent s3) = false.
Proof.
  intros Halive He Hfresh id s0 s1 s2 s3.
  assert (s = Agent.after_pings 0 s) as E0.
  { unfold Agent.after_pings. unfold_setters. rewrite app_nil_r, Z.add_0_r.
    destruct s as [a [? ? ? ? ? ?] [? ? ? ? ? ? ?]]. reflexivity. }
  assert (s0 = Agent.awaiting (id + Z.of_nat 0) 0 (Agent.after_pings 1 s)) as E1.
  { subst s0. rewrite E0 at 1. by rewrite (ping_unanswered _ e). }
  assert (s1 = Agent.awaiting (id + Z.of_nat 1) 1 (Agent.after_pings 2 s)) as E2.
  { subst s1. rewrite E1. replace id with (id + Z.of_nat 0) at 1 by (simpl; lia).
    subst id. rewrite on_timeout_fresh by done.
    rewrite ping_timeout_retries by lia. by rewrite (ping_unanswered _ e). }
  assert (s2 = Agent.awaiting (id + Z.of_nat 2) 2 (Agent.after_pings 3 s)) as E3.
  { subst s2. rewrite E2. change (id + 1) with (id + Z.of_nat 1).
    subst id. rewrite on_timeout_fresh by done.
    rewrite ping_timeout_retries by lia. by rewrite (ping_unanswered _ e). }
  assert (s3 = snd (Agent.close "Ping timeout" (Agent.after_pings 3 s))) as E4.
  { subst s3. rewrite E3. change (id + 2) with (id + Z.of_nat 2).
    subst id. rewrite on_timeout_fresh by done.
    by rewrite ping_timeout_closes by lia. }
  split; [reflexivity|]. split; [reflexivity|]. split.
  { intros i Hi. unfold Agent.on_interval.
    assert (existsb (fun t => fst t =? i) (Agent.intervals (Agent.pending s)) = true)
      as ->; [|reflexivity].
    apply existsb_exists. exists (i, Agent.CONNECTIVITY_CHECK_INTERVAL).
    split; [by apply list_elem_of_In|]. simpl. apply Z.eqb_refl. }
  rewrite E4, close_state, E3, E2, E1. simpl.
  rewrite Z.add_0_r. repeat split.
Qed.

(** ** Runs that keep the fields of the agent *)

Lemma agent_kept_refl (s : Agent.State) : Agent.agent_kept s s.
Proof. split; [reflexivity|]. exists []. by rewrite app_nil_r. Qed.

Lemma agent_kept_trans (s1 s2 s3 : Agent.State) :
  Agent.agent_kept s1 s2 -> Agent.agent_kept s2 s3 -> Agent.agent_kept s1 s3.
Proof.
  intros [Ha (es & He & Hn)] [Ha' (es' & He' & Hn')]. split; [congruence|].
  exists (es ++ es'). split.
  - by rewrite He', He, app_assoc.
  - rewrite occurrences_app. lia.
Qed.

Lemma sync_order_refl (s : Agent.State) : Agent.sync_order s s.
Proof. exists []. split; [by rewrite app_nil_r|]. simpl. lia. Qed.

Lemma sync_order_trans (s1 s2 s3 : Agent.State) :
  Agent.sync_order s1 s2 -> Agent.sync_order s2 s3 -> Agent.sync_order s1 s3.
Proof.
  intros (es & He & Hn) (es' & He' & Hn'). exists (es ++ es'). split.
  - by rewrite He', He, app_assoc.
  - rewrite !occurrences_app. lia.
Qed.

Lemma agent_kept_sync_order (s s' : Agent.State) :
  Agent.agent_kept s s' -> Agent.sync_order s s'.
Proof.
  intros [Ha (es & He & Hn)]. exists es. split; [done|]. rewrite Ha, Hn. lia.
Qed.

Section Sat.
Context {R : Agent.State -> Agent.State -> Prop}.
Hypothesis R_refl : forall s, R s s.
Hypothesis R_trans : forall s1 s2 s3, R s1 s2 -> R s2 s3 -> R s1 s3.

Lemma sat_ret {A} (a : A) : Agent.Sat R (ret a).
Proof. intros s. apply R_refl. Qed.

Lemma sat_throw {A} (e : Error) : Agent.Sat R (throw (A := A) e).
Proof. intros s. apply R_refl. Qed.

Lemma sat_lift {A} (r : Result A) : Agent.Sat R (lift r).
Proof. intros s. apply R_refl. Qed.

Lemma sat_get {A} (f : Agent.State -> A) : Agent.Sat R (Agent.get f).
Proof. intros s. apply R_refl. Qed.

Lemma sat_bind {A B} (m : Agent.Act A) (k : A -> Agent.Act B) :
  Agent.Sat R m -> (forall a, Agent.Sat R (k a)) -> Agent.Sat R (bind m k).
Proof.
  intros Hm Hk s. unfold bind. specialize (Hm s).
  destruct (m s) as [[a|e] s1]; simpl in *; [|exact Hm].
  eapply R_trans; [exact Hm|apply Hk].
Qed.

Lemma sat_try_catch {A} (m : Agent.Act A) (h : Error -> Agent.Act A) :
  Agent.Sat R m -> (forall e, Agent.Sat R (h e)) -> Agent.Sat R (try_catch m h).
Proof.
  intros Hm Hh s. unfold try_catch. specialize (Hm s).
  destruct (m s) as [[a|e] s1]; simpl in *; [exact Hm|].
  eapply R_trans; [exact Hm|apply Hh].
Qed.

Lemma sat_attempt {A} (m : Agent.Act A) :
  Agent.Sat R m -> Agent.Sat R (attempt m).
Proof.
  intros Hm s. unfold attempt. specialize (Hm s). by destruct (m s).
Qed.

Lemma sat_for_each {A B} (f : A -> Agent.Act B) (l : list A) :
  (forall x, Agent.Sat R (f x)) -> Agent.Sat R (for_each f l).
Proof.
  intros Hf. induction l as [|x l IH]; simpl; [apply sat_ret|].
  apply sat_bind; [apply Hf|]. intros y.
  apply sat_bind; [exact IH|]. intros ys. apply sat_ret.
Qed.

Lemma sat_if {A} (b : bool) (m1 m2 : Agent.Act A) :
  Agent.Sat R m1 -> Agent.Sat R m2 -> Agent.Sat R (if b then m1 else m2).
Proof. by destruct b. Qed.

End Sat.

Lemma kept_modify (f : Agent.State -> Agent.State) :
  (forall s, Agent.agent_kept s (f s)) -> Agent.Sat Agent.agent_kept (Agent.modify f).
Proof. intros Hf s. apply Hf. Qed.

Lemma kept_with_world_quiet (f : Agent.World -> Agent.World) (s : Agent.State) :
  Agent.fired (f (Agent.world s)) = Agent.fired (Agent.world s) ->
  Agent.agent_kept s (Agent.with_world f s).
Proof.
  intros Hf. split; [reflexivity|]. exists []. simpl. by rewrite Hf, app_nil_r.
Qed.

Lemma kept_with_pending (f : Agent.Pending -> Agent.Pending) (s : Agent.State) :
  Agent.agent_kept s (Agent.with_pending f s).
Proof. split; [reflexivity|]. exists []. simpl. by rewrite app_nil_r. Qed.

Lemma kept_fire (e : Agent.Event) :
  Agent.is_SYNCED e = false -> Agent.Sat Agent.agent_kept (Agent.fire e).
Proof.
  intros He s. split; [reflexivity|]. exists [e]. split; [reflexivity|].
  unfold Agent.occurrences. simpl. by rewrite He.
Qed.

Lemma kept_logger (l : Agent.LogEntry) :
  Agent.Sat Agent.agent_kept (Agent.logger l).
Proof. intros s. by apply kept_with_world_quiet. Qed.

Lemma kept_BlockStore_set (h : Z) (b : PlainBlockHeader) :
  Agent.Sat Agent.agent_kept (Agent.BlockStore_set h b).
Proof. intros s. by apply kept_with_world_quiet. Qed.

Lemma kept_TransactionStore_set (h : string) (tx : PlainTransaction) :
  Agent.Sat Agent.agent_kept (Agent.TransactionStore_set h tx).
Proof. intros s. by apply kept_with_world_quiet. Qed.

Lemma kept_on_connection {A} (m : Api A) :
  Agent.Sat Agent.agent_kept (Agent.on_connection m).
Proof.
  intros s. unfold Agent.on_connection.
  destruct (m (Agent.sent (Agent.world s))) as [r log]. simpl.
  by apply kept_with_world_quiet.
Qed.

Lemma kept_call {A} (m : Api A) : Agent.Sat Agent.agent_kept (Agent.call m).
Proof.
  intros s. unfold Agent.call.
  destruct (Agent.connection (Agent.agent s)); [|apply agent_kept_refl].
  destruct (m (Agent.sent (Agent.world s))) as [r log]. simpl.
  by apply kept_with_world_quiet.
Qed.

Lemma kept_setTimeout (d k : Z) : Agent.Sat Agent.agent_kept (Agent.setTimeout d k).
Proof. intros s. apply kept_with_pending. Qed.

Lemma kept_clearTimeout (id : Z) : Agent.Sat Agent.agent_kept (Agent.clearTimeout id).
Proof. intros s. apply kept_with_pending. Qed.

Lemma kept_clearInterval (id : Z) : Agent.Sat Agent.agent_kept (Agent.clearInterval id).
Proof. intros s. apply kept_with_pending. Qed.

Lemma kept_require_synced : Agent.Sat Agent.agent_kept Agent.require_synced.
Proof.
  intros s. unfold Agent.require_synced.
  destruct (Agent.synced (Agent.agent s)); apply agent_kept_refl.
Qed.

(** Splits a run into its effects and closes the effects that keep the
    fields of the agent. *)
Ltac kept_step :=
  first
    [ apply (sat_bind agent_kept_trans)
    | apply (sat_try_catch agent_kept_trans)
    | apply (sat_attempt (R := Agent.agent_kept))
    | apply (sat_for_each agent_kept_refl agent_kept_trans)
    | apply (sat_ret agent_kept_refl)
    | apply (sat_throw agent_kept_refl)
    | apply (sat_lift agent_kept_refl)
    | apply (sat_get agent_kept_refl)
    | apply kept_call
    | apply kept_on_connection
    | apply kept_require_synced
    | apply kept_logger
    | apply kept_BlockStore_set
    | apply kept_TransactionStore_set
    | apply kept_setTimeout
    | apply kept_clearTimeout
    | apply kept_clearInterval
    | (apply kept_fire; reflexivity)
    | (apply kept_modify; intros ?; apply kept_with_pending)
    | match goal with
      | |- Agent.Sat _ (match ?x with _ => _ end) => destruct x
      end ].

Ltac kept := repeat (intros; kept_step).

Lemma kept_getBlockHeader (srv : Server) (height : Z) :
  Agent.Sat Agent.agent_kept (Agent.getBlockHeader srv height).
Proof. unfold Agent.getBlockHeader. kept. Qed.

Lemma kept_block_of_receipt (srv : Server) (receipt : Receipt) :
  Agent.Sat Agent.agent_kept (Agent.block_of_receipt srv receipt).
Proof. unfold Agent.block_of_receipt. kept. Qed.

Lemma kept_start_check (srv : Server) (receipt : Receipt)
  (block : option PlainBlockHeader) :
  Agent.Sat Agent.agent_kept (Agent.start_check srv receipt block).
Proof. unfold Agent.start_check. kept. Qed.

Lemma kept_start_checks (srv : Server) (known : gmap string Receipt)
  (receipts : list Receipt) :
  Agent.Sat Agent.agent_kept (Agent.start_checks srv known receipts).
Proof.
  induction receipts as [|receipt rest IH]; simpl; [kept|].
  destruct (Agent.unchanged known receipt); [exact IH|].
  kept; intros;
    first [apply kept_block_of_receipt|apply kept_start_check|exact IH].
Qed.

Lemma kept_fire_transaction (tx : PlainTransaction)
  (block : option PlainBlockHeader) :
  Agent.Sat Agent.agent_kept (Agent.fire_transaction tx block).
Proof. unfold Agent.fire_transaction. kept. Qed.

Lemma kept_settle (srv : Server) (check : Agent.TxCheck) :
  Agent.Sat Agent.agent_kept (Agent.settle srv check).
Proof. unfold Agent.settle. kept; intros; apply kept_fire_transaction. Qed.

(** A notification after the first one keeps the fields of the agent. *)
Lemma kept_onReceipts_later (srv : Server) (address : string)
  (receipts : list Receipt) (known : gmap string Receipt) (s : Agent.State) :
  Agent.knownReceipts (Agent.agent s) !! address = Some known ->
  Agent.agent_kept s (snd (Agent.onReceipts srv address receipts s)).
Proof.
  intros Hk. unfold Agent.onReceipts. unfold bind at 1. unfold Agent.get.
  rewrite Hk.
  revert s Hk. 
  change (forall s, Agent.knownReceipts (Agent.agent s) !! address = Some known ->
          Agent.agent_kept s
            (snd ((let* started := Agent.start_checks srv known receipts in
                   let* _ := for_each (Agent.settle srv) (Agent.settle_order (fst started)) in
                   match snd started with
                   | Some e => throw e
                   | None => ret tt
                   end) s))).
  intros s _. revert s.
  change (Agent.Sat Agent.agent_kept
            (let* started := Agent.start_checks srv known receipts in
             let* _ := for_each (Agent.settle srv) (Agent.settle_order (fst started)) in
             match snd started with
             | Some e => throw e
             | None => ret tt
             end)).
  kept; intros; first [apply kept_start_checks|apply kept_settle].
Qed.

Lemma kept_ping (srv : Server) (k : Z) :
  Agent.Sat Agent.agent_kept (Agent.ping srv k).
Proof. unfold Agent.ping. kept. Qed.

Lemma kept_subscribe (addresses : list string) :
  Agent.Sat Agent.agent_kept (Agent.subscribe addresses).
Proof. unfold Agent.subscribe. kept. Qed.

(** ** The order of [SYNCING] and [SYNCED] *)

Lemma kept_sync {A} (m : Agent.Act A) :
  Agent.Sat Agent.agent_kept m -> Agent.Sat Agent.sync_order m.
Proof. intros Hm s. apply agent_kept_sync_order, Hm. Qed.

(** A run that fires nothing and leaves [syncing] as it is. *)
Lemma sync_order_quiet (s s' : Agent.State) :
  Agent.syncing (Agent.agent s') = Agent.syncing (Agent.agent s) ->
  Agent.fired (Agent.world s') = Agent.fired (Agent.world s) ->
  Agent.sync_order s s'.
Proof.
  intros Hs Hf. exists []. rewrite Hs, Hf, app_nil_r. split; [done|]. simpl. lia.
Qed.

Lemma sync_order_close (reason : string) :
  Agent.Sat Agent.sync_order (Agent.close reason).
Proof.
  intros s. rewrite close_state. exists [Agent.CLOSE reason].
  split; [reflexivity|]. simpl. lia.
Qed.

Lemma sync_order_sync_call : Agent.Sat Agent.sync_order Agent.sync_call.
Proof.
  intros s. unfold Agent.sync_call.
  destruct (_ || _); [apply sync_order_refl|].
  destruct (Agent.connection (Agent.agent s)); [|apply sync_order_refl].
  by apply sync_order_quiet.
Qed.

Lemma sync_order_sync_connected : Agent.Sat Agent.sync_order Agent.sync_connected.
Proof.
  intros s. unfold Agent.sync_connected.
  destruct (Agent.awaitingConnection (Agent.pending s)); [apply sync_order_refl|].
  unfold_act. destruct (Agent.connection (Agent.agent s)); by apply sync_order_quiet.
Qed.

Lemma kept_handshake (srv : Server) (GENESIS_HASH : string) (timedOut : bool) :
  Agent.Sat Agent.agent_kept (Agent.handshake srv GENESIS_HASH timedOut).
Proof.
  intros s. unfold Agent.handshake.
  assert (Agent.Sat Agent.agent_kept (Agent.handshake_answers srv GENESIS_HASH))
    as Hm by (unfold Agent.handshake_answers; kept).
  specialize (Hm s). by destruct (Agent.handshake_answers srv GENESIS_HASH s).
Qed.

Lemma kept_requestHead : Agent.Sat Agent.agent_kept Agent.requestHead.
Proof.
  intros s. unfold Agent.requestHead.
  destruct (Agent.connection (Agent.agent s)); [|apply agent_kept_refl].
  revert s. change (Agent.Sat Agent.agent_kept
    (do* Agent.on_connection ElectrumApi.subscribeHeaders in
     Agent.modify
       (Agent.with_pending
          (fun p => Agent.set_headSubscriptions (S (Agent.headSubscriptions p)) p)))).
  kept.
Qed.

(** The end of [sync]: the agent enters the syncing state and fires
    [SYNCING]. *)
Lemma sync_order_enter_syncing :
  Agent.Sat Agent.sync_order
    (do* Agent.modify (Agent.with_agent (Agent.set_handshaking false)) in
     do* Agent.modify (Agent.with_agent (Agent.set_syncing true)) in
     do* Agent.fire Agent.SYNCING in
     Agent.requestHead).
Proof.
  intros s. unfold bind at 1 2 3. unfold Agent.modify, Agent.fire. cbn [fst snd].
  eapply sync_order_trans; [|apply kept_sync, kept_requestHead].
  exists [Agent.SYNCING]. split; [reflexivity|]. simpl.
  destruct (Agent.syncing (Agent.agent s)); simpl; lia.
Qed.

Lemma sync_order_sync_handshaken (srv : Server) (GENESIS_HASH : string)
  (timedOut : bool) :
  Agent.Sat Agent.sync_order (Agent.sync_handshaken srv GENESIS_HASH timedOut).
Proof.
  intros s. unfold Agent.sync_handshaken.
  destruct (Agent.awaitingHandshake (Agent.pending s)) as [|n];
    [apply sync_order_refl|].
  revert s.
  change (Agent.Sat Agent.sync_order
    (do* Agent.modify (Agent.with_pending (Agent.set_awaitingHandshake n)) in
     let* _ := Agent.handshake srv GENESIS_HASH timedOut in
     do* Agent.modify (Agent.with_agent (Agent.set_handshaking false)) in
     do* Agent.modify (Agent.with_agent (Agent.set_syncing true)) in
     do* Agent.fire Agent.SYNCING in
     Agent.requestHead)).
  apply (sat_bind sync_order_trans).
  { apply kept_sync. kept. }
  intros _. apply (sat_bind sync_order_trans).
  { apply kept_sync, kept_handshake. }
  intros _. apply sync_order_enter_syncing.
Qed.

Lemma sync_order_onBlock (srv : Server) (block : PlainBlockHeader) :
  Agent.Sat Agent.sync_order (Agent.onBlock srv block).
Proof.
  intros s.
  destruct (onBlock_shape srv block s) as [(e & log & ->)|(ok & store & log & ->)];
    cbn [snd].
  - by apply sync_order_quiet.
  - set (s0 := Agent.with_world _ s).
    destruct (sync_transition_record_block ok block s0)
      as (_ & HF & _ & _ & Hsyncing & _).
    exists ((if ok then [Agent.BLOCK block] else []) ++ Agent.sync_events s0).
    split; [exact HF|]. rewrite Hsyncing.
    unfold Agent.sync_events. subst s0. simpl.
    destruct ok, (Agent.syncing (Agent.agent s)); simpl; lia.
Qed.

Lemma sync_order_onReceipts (srv : Server) (address : string)
  (receipts : list Receipt) :
  Agent.Sat Agent.sync_order (Agent.onReceipts srv address receipts).
Proof.
  intros s.
  destruct (Agent.knownReceipts (Agent.agent s) !! address) as [known|] eqn:Hk.
  - by eapply agent_kept_sync_order, kept_onReceipts_later.
  - unfold Agent.onReceipts. unfold bind at 1. unfold Agent.get. rewrite Hk.
    by apply sync_order_quiet.
Qed.

Lemma sync_order_ping_timeout (srv : Server) (k : Z) :
  Agent.Sat Agent.sync_order (Agent.ping_timeout srv k).
Proof.
  unfold Agent.ping_timeout.
  destruct (k >? 1); [apply sync_order_close|apply kept_sync, kept_ping].
Qed.

(** Every run of the agent's code keeps the order. *)
Lemma sync_order_run (l : Agent.Label) : Agent.Sat Agent.sync_order (Agent.run l).
Proof.
  destruct l; simpl.
  - apply sync_order_sync_call.
  - apply sync_order_sync_connected.
  - apply sync_order_sync_handshaken.
  - intros s. destruct (Agent.headSubscriptions (Agent.pending s));
      [apply sync_order_refl|apply sync_order_onBlock].
  - intros s. destruct (bool_decide _); [|apply sync_order_refl].
    revert s. unfold Agent.on_status.
    apply (sat_bind sync_order_trans);
      [apply kept_sync, kept_on_connection|].
    intros receipts. apply sync_order_onReceipts.
  - apply kept_sync, kept_subscribe.
  - apply sync_order_close.
  - intros s. unfold Agent.on_interval.
    destruct (existsb _ _); [apply kept_sync, kept_ping|apply sync_order_refl].
  - intros s. unfold Agent.on_timeout.
    destruct (List.find _ _) as [[[? ?] k]|]; [|apply sync_order_refl].
    revert s. apply (sat_bind sync_order_trans).
    + apply kept_sync, kept_clearTimeout.
    + intros _. apply sync_order_ping_timeout.
Qed.

Lemma sync_order_steps (ls : list Agent.Label) (s : Agent.State) :
  Agent.sync_order s (Agent.steps s ls).
Proof.
  revert s. induction ls as [|l ls IH]; intros s; simpl.
  - apply sync_order_refl.
  - eapply sync_order_trans; [apply (sync_order_run l s)|apply IH].
Qed.

Lemma count_fired_app (p : Agent.Event -> bool) (s s' : Agent.State)
  (es : list Agent.Event) :
  Agent.fired (Agent.world s') = Agent.fired (Agent.world s) ++ es ->
  Agent.count p s' = (Agent.count p s + Agent.occurrences p es)%nat.
Proof.
  intros Hf. unfold Agent.count. rewrite Hf.
  by rewrite List.filter_app, length_app.
Qed.

(** C3, as the code has it.  A run of [onBlock] that starts in the
    syncing state and reaches its end makes the agent synced: [synced]
    becomes true and [syncing] false, one [SYNCED] event is fired, last,
    and the interval of the pings is started with a period of 60 seconds.
    This is so whether the header was accepted or dropped: a header whose
    predecessor does not match is dropped and the agent becomes synced all
    the same.  A run that does not start in the syncing state, or that
    fails, fires no [SYNCED] and leaves the fields of the agent and the
    timers as they are.  Over any sequence of runs of the agent, [SYNCED]
    is fired at most as often as [SYNCING]. *)
Theorem synced_on_first_completed_header
  (srv : Server) (block : PlainBlockHeader) (s : Agent.State) :
  let r := Agent.onBlock srv block s in
  let s' := snd r in
  (Agent.syncing (Agent.agent s) = true ->
   fst r = Ok tt ->
   Agent.synced (Agent.agent s') = true
   /\ Agent.syncing (Agent.agent s') = false
   /\ Agent.count Agent.is_SYNCED s' = S (Agent.count Agent.is_SYNCED s)
   /\ (exists es, Agent.fired (Agent.world s')
                  = Agent.fired (Agent.world s) ++ es ++ [Agent.SYNCED])
   /\ Agent.intervals (Agent.pending s')
      = Agent.intervals (Agent.pending s)
        ++ [(Agent.nextTimer (Agent.pending s), Agent.CONNECTIVITY_CHECK_INTERVAL)]
   /\ Agent.pingInterval (Agent.agent s') = Agent.nextTimer (Agent.pending s))
  /\ (Agent.syncing (Agent.agent s) = true ->
      0 < h_blockHeight block ->
      forall p, Agent.predecessor srv s block p ->
      Some (h_blockHash p) <> h_prevHash block ->
      fst r = Ok tt
      /\ Agent.dropped block
           (<[h_blockHeight block - 1 := p]> (Agent.BlockStore (Agent.world s)))
           s s'
      /\ Agent.synced (Agent.agent s') = true
      /\ Agent.fired (Agent.world s')
         = Agent.fired (Agent.world s) ++ [Agent.SYNCED])
  /\ (Agent.syncing (Agent.agent s) = false ->
      Agent.agent s' = Agent.agent s
      /\ Agent.pending s' = Agent.pending s
      /\ Agent.count Agent.is_SYNCED s' = Agent.count Agent.is_SYNCED s)
  /\ (forall e, fst r = Err e ->
      Agent.agent s' = Agent.agent s
      /\ Agent.pending s' = Agent.pending s
      /\ Agent.fired (Agent.world s') = Agent.fired (Agent.world s))
  /\ (forall c blocks transactions ls,
      (Agent.count Agent.is_SYNCED
         (Agent.steps (Agent.init c blocks transactions) ls)
       <= Agent.count Agent.is_SYNCING
            (Agent.steps (Agent.init c blocks transactions) ls))%nat).
Proof.
  intros r s'. subst r s'.
  split; [|split; [|split; [|split]]].
  - intros Hsyncing Hok.
    destruct (onBlock_shape srv block s) as [(e & log & E)|(ok & store & log & E)];
      rewrite E in *; cbn [fst snd] in *; [discriminate|].
    set (s0 := Agent.with_world _ s).
    destruct (sync_transition_record_block ok block s0)
      as (_ & HF & _ & _ & Hs' & Hsynced & Hint & _).
    assert (Agent.syncing (Agent.agent s0) = true) as Hs0 by exact Hsyncing.
    destruct (Hint Hs0) as [Hi Hp].
    assert (Agent.sync_events s0 = [Agent.SYNCED]) as Hev
      by (unfold Agent.sync_events; by rewrite Hs0).
    rewrite Hev in HF.
    split; [by rewrite Hsynced, Hs0|]. split; [exact Hs'|].
    split; [|split; [|split]].
    + rewrite (count_fired_app _ s _ _ HF). rewrite occurrences_app.
      unfold Agent.occurrences. destruct ok; simpl; lia.
    + by eexists.
    + exact Hi.
    + exact Hp.
  - intros Hsyncing Hh p Hpred Hne.
    destruct (onBlock_with_predecessor _ _ _ _ Hh Hpred) as [log E].
    rewrite E. cbn [fst snd]. rewrite bool_decide_eq_false_2 by done.
    set (s0 := Agent.with_world _ s).
    destruct (sync_transition_record_block false block s0)
      as (HB & HF & HL & _ & _ & Hsynced & _).
    assert (Agent.syncing (Agent.agent s0) = true) as Hs0 by exact Hsyncing.
    assert (Agent.sync_events s0 = [Agent.SYNCED]) as Hev
      by (unfold Agent.sync_events; by rewrite Hs0).
    rewrite Hev in HF.
    split; [done|]. split; [|split].
    + unfold Agent.dropped. rewrite HB, HF, HL.
      unfold Agent.sync_events. rewrite Hsyncing. done.
    + by rewrite Hsynced, Hs0.
    + exact HF.
  - intros Hsyncing.
    destruct (onBlock_shape srv block s) as [(e & log & E)|(ok & store & log & E)];
      rewrite E; cbn [snd].
    + by repeat split.
    + set (s0 := Agent.with_world _ s).
      destruct (sync_transition_record_block ok block s0)
        as (_ & HF & _ & _ & _ & _ & _ & Hkeep).
      assert (Agent.syncing (Agent.agent s0) = false) as Hs0 by exact Hsyncing.
      destruct (Hkeep Hs0) as [Ha Hp].
      split; [by rewrite Ha|]. split; [by rewrite Hp|].
      rewrite (count_fired_app _ s0 _ _ HF). rewrite occurrences_app.
      unfold Agent.sync_events. rewrite Hs0.
      unfold Agent.count, Agent.occurrences. subst s0. destruct ok; simpl; lia.
  - intros e He.
    destruct (onBlock_shape srv block s) as [(e' & log & E)|(ok & store & log & E)];
      rewrite E in *; cbn [fst snd] in *; [|discriminate].
    by repeat split.
  - intros c blocks transactions ls.
    destruct (sync_order_steps ls (Agent.init c blocks transactions))
      as (es & He & Hn).
    rewrite !(count_fired_app _ _ _ _ He). simpl in *.
    unfold Agent.count, Agent.occurrences in *. simpl. lia.
Qed.

(** ** [onReceipts] *)

Lemma receipts_by_hash_other (l : list Receipt) (m : gmap string Receipt)
  (k : string) :
  k ∉ map r_transactionHash l ->
  fold_left (fun m receipt => <[r_transactionHash receipt := receipt]> m) l m !! k
  = m !! k.
Proof.
  revert m. induction l as [|x l IH]; intros m Hk; simpl; [reflexivity|].
  rewrite IH by (intros Hin; apply Hk; by right).
  apply lookup_insert_ne. intros E. apply Hk. rewrite <- E. by left.
Qed.

Lemma receipts_by_hash_member (l : list Receipt) (m : gmap string Receipt)
  (r : Receipt) :
  NoDup (map r_transactionHash l) -> r ∈ l ->
  fold_left (fun m receipt => <[r_transactionHash receipt := receipt]> m) l m
    !! r_transactionHash r = Some r.
Proof.
  revert m. induction l as [|x l IH]; intros m Hnd Hr; [by inversion Hr|].
  simpl in *. apply NoDup_cons in Hnd as [Hx Hnd].
  apply elem_of_cons in Hr as [->|Hr].
  - rewrite receipts_by_hash_other by done. apply lookup_insert_eq.
  - by apply IH.
Qed.

Lemma receipts_by_hash_lookup (l : list Receipt) (m : gmap string Receipt)
  (k : string) (r : Receipt) :
  fold_left (fun m receipt => <[r_transactionHash receipt := receipt]> m) l m !! k
  = Some r ->
  (r ∈ l /\ r_transactionHash r = k) \/ m !! k = Some r.
Proof.
  revert m. induction l as [|x l IH]; intros m Hl; simpl in *; [by right|].
  apply IH in Hl as [[Hr Hk]|Hl].
  - left. split; [by right|done].
  - destruct (decide (r_transactionHash x = k)) as [E|E].
    + rewrite E, lookup_insert_eq in Hl. injection Hl as ->.
      left. split; [by left|done].
    + rewrite lookup_insert_ne in Hl by done. by right.
Qed.

Lemma unchanged_spec (known : gmap string Receipt) (r : Receipt) :
  Agent.unchanged known r = true
  <-> exists k, known !! r_transactionHash r = Some k
                /\ r_blockHeight k = r_blockHeight r.
Proof.
  unfold Agent.unchanged. destruct (known !! r_transactionHash r) as [k|].
  - rewrite bool_decide_eq_true. split.
    + intros Hk. by exists k.
    + by intros (k' & [= <-] & Hk).
  - split; [discriminate|]. by intros (k & Hk & _).
Qed.

Lemma bind_ext {S A B} (m : M S A) (k1 k2 : A -> M S B) (s : S) :
  (forall a s', k1 a s' = k2 a s') -> bind m k1 s = bind m k2 s.
Proof. intros Hk. unfold bind. destruct (m s) as [[a|e] s']; [apply Hk|done]. Qed.

Lemma bind_cong {S A B} (m1 m2 : M S A) (k : A -> M S B) (s : S) :
  m1 s = m2 s -> bind m1 k s = bind m2 k s.
Proof. intros Hm. unfold bind. by rewrite Hm. Qed.

(** A receipt that is skipped can be taken out of the notification. *)
Lemma start_checks_skip (srv : Server) (known : gmap string Receipt)
  (pre : list Receipt) (r : Receipt) (post : list Receipt) (s : Agent.State) :
  Agent.unchanged known r = true ->
  Agent.start_checks srv known (pre ++ r :: post) s
  = Agent.start_checks srv known (pre ++ post) s.
Proof.
  intros Hr. revert s. induction pre as [|x pre IH]; intros s; simpl.
  - by rewrite Hr.
  - destruct (Agent.unchanged known x); [apply IH|].
    apply bind_ext. intros [check|e] s1; [|reflexivity].
    apply bind_cong, IH.
Qed.

Lemma onReceipts_first (srv : Server) (address : string)
  (receipts : list Receipt) (s : Agent.State) :
  Agent.knownReceipts (Agent.agent s) !! address = None ->
  Agent.onReceipts srv address receipts s
  = (Ok tt,
     Agent.with_agent
       (fun a => Agent.set_knownReceipts
                   (<[address := receipts_by_hash receipts]> (Agent.knownReceipts a))
                   a) s).
Proof.
  intros Hk. unfold Agent.onReceipts. unfold bind. unfold Agent.get.
  by rewrite Hk.
Qed.

Lemma onReceipts_later (srv : Server) (address : string)
  (receipts : list Receipt) (known : gmap string Receipt) (s : Agent.State) :
  Agent.knownReceipts (Agent.agent s) !! address = Some known ->
  Agent.onReceipts srv address receipts s
  = (let* started := Agent.start_checks srv known receipts in
     let* _ := for_each (Agent.settle srv) (Agent.settle_order (fst started)) in
     match snd started with
     | Some e => throw e
     | None => ret tt
     end) s.
Proof.
  intros Hk. unfold Agent.onReceipts. unfold bind at 1. unfold Agent.get.
  by rewrite Hk.
Qed.

Lemma onReceipts_knownReceipts (srv : Server) (address : string)
  (receipts : list Receipt) (s : Agent.State) :
  Agent.knownReceipts (Agent.agent (snd (Agent.onReceipts srv address receipts s)))
  = match Agent.knownReceipts (Agent.agent s) !! address with
    | None => <[address := receipts_by_hash receipts]>
                (Agent.knownReceipts (Agent.agent s))
    | Some _ => Agent.knownReceipts (Agent.agent s)
    end.
Proof.
  destruct (Agent.knownReceipts (Agent.agent s) !! address) as [known|] eqn:Hk.
  - by destruct (kept_onReceipts_later srv address receipts known s Hk) as [-> _].
  - by rewrite onReceipts_first.
Qed.

Lemma deliver_knownReceipts
  (notifications : list (Server * string * list Receipt)) (s : Agent.State)
  (a : string) :
  Agent.knownReceipts (Agent.agent (Agent.deliver s notifications)) !! a
  = match Agent.knownReceipts (Agent.agent s) !! a with
    | Some known => Some known
    | None =>
        match List.find (fun n => bool_decide (snd (fst n) = a)) notifications with
        | Some n => Some (receipts_by_hash (snd n))
        | None => None
        end
    end.
Proof.
  revert s. induction notifications as [|[[srv a'] rs] ns IH]; intros s; simpl.
  - by destruct (_ !! a).
  - unfold Agent.deliver in *. simpl. rewrite IH.
    rewrite onReceipts_knownReceipts.
    destruct (decide (a' = a)) as [->|Hne].
    + rewrite bool_decide_eq_true_2 by done.
      destruct (Agent.knownReceipts (Agent.agent s) !! a) as [known|] eqn:Hk.
      * by rewrite Hk.
      * by rewrite lookup_insert_eq.
    + rewrite bool_decide_eq_false_2 by done.
      destruct (Agent.knownReceipts (Agent.agent s) !! a') as [known'|];
        [reflexivity|].
      by rewrite lookup_insert_ne.
Qed.

Lemma start_checks_all_skipped (srv : Server) (known : gmap string Receipt)
  (receipts : list Receipt) (s : Agent.State) :
  (forall r, r ∈ receipts -> Agent.unchanged known r = true) ->
  Agent.start_checks srv known receipts s = (Ok ([], None), s).
Proof.
  induction receipts as [|x l IH]; intros Hall; simpl; [reflexivity|].
  rewrite (Hall x) by left. apply IH. intros r Hr. apply Hall. by right.
Qed.

(** C6.  The first notification for an address only stores its receipts
    as the baseline of the address, each under its transaction hash; it
    changes nothing else, so it sends nothing and fires nothing.  A later
    notification leaves the fields of the agent, and with them the
    baseline, as they are; a receipt of it whose height is the height that
    the baseline has for its transaction hash is skipped: the run is the
    run on the notification without that receipt, and a notification of
    such receipts only changes nothing.  After any sequence of
    notifications to an agent that starts without baselines, an address
    has a baseline exactly when a notification for it was among them, and
    the baseline is that of its first notification. *)
Theorem first_receipts_are_the_baseline
  (srv : Server) (address : string) (receipts : list Receipt)
  (s : Agent.State) :
  (Agent.knownReceipts (Agent.agent s) !! address = None ->
   Agent.onReceipts srv address receipts s
   = (Ok tt,
      Agent.with_agent
        (fun a => Agent.set_knownReceipts
                    (<[address := receipts_by_hash receipts]>
                       (Agent.knownReceipts a)) a) s))
  /\ (forall r,
        (receipts_by_hash receipts !! r_transactionHash r = Some r -> r ∈ receipts)
        /\ (NoDup (map r_transactionHash receipts) -> r ∈ receipts ->
            receipts_by_hash receipts !! r_transactionHash r = Some r))
  /\ (forall known,
        Agent.knownReceipts (Agent.agent s) !! address = Some known ->
        Agent.agent (snd (Agent.onReceipts srv address receipts s)) = Agent.agent s
        /\ (forall pre r post k,
              receipts = pre ++ r :: post ->
              known !! r_transactionHash r = Some k ->
              r_blockHeight k = r_blockHeight r ->
              Agent.onReceipts srv address receipts s
              = Agent.onReceipts srv address (pre ++ post) s)
        /\ ((forall r, r ∈ receipts ->
               exists k, known !! r_transactionHash r = Some k
                         /\ r_blockHeight k = r_blockHeight r) ->
            Agent.onReceipts srv address receipts s = (Ok tt, s)))
  /\ (forall notifications s0 a,
        Agent.knownReceipts (Agent.agent s0) = ∅ ->
        (is_Some (Agent.knownReceipts
                    (Agent.agent (Agent.deliver s0 notifications)) !! a)
         <-> exists n, n ∈ notifications /\ snd (fst n) = a)
        /\ (forall pre n post,
              notifications = pre ++ n :: post ->
              snd (fst n) = a ->
              (forall m, m ∈ pre -> snd (fst m) <> a) ->
              Agent.knownReceipts
                (Agent.agent (Agent.deliver s0 notifications)) !! a
              = Some (receipts_by_hash (snd n)))).
Proof.
  split; [apply onReceipts_first|]. split; [|split].
  - intros r. split.
    + intros Hl. apply receipts_by_hash_lookup in Hl as [[Hr _]|Hl]; [done|].
      by rewrite lookup_empty in Hl.
    + intros Hnd Hr. by apply receipts_by_hash_member.
  - intros known Hk. split; [|split].
    + by destruct (kept_onReceipts_later srv address receipts known s Hk) as [-> _].
    + intros pre r post k -> Hr Hh.
      rewrite !(onReceipts_later _ _ _ _ _ Hk).
      apply bind_cong, start_checks_skip, unchanged_spec. by exists k.
    + intros Hall. rewrite (onReceipts_later _ _ _ _ _ Hk).
      unfold bind at 1. rewrite start_checks_all_skipped; [reflexivity|].
      intros r Hr. by apply unchanged_spec, Hall.
  - intros notifications s0 a Hempty.
    pose proof (deliver_knownReceipts notifications s0 a) as Hd.
    rewrite Hempty, lookup_empty in Hd. split.
    + rewrite Hd. split.
      * destruct (List.find _ notifications) as [n|] eqn:Hf; [|by intros [? ?]].
        intros _. apply find_some in Hf as [Hin Hn].
        exists n. split; [by apply list_elem_of_In|].
        by apply bool_decide_eq_true in Hn.
      * intros (n & Hin & Hn).
        destruct (List.find _ notifications) as [n'|] eqn:Hf; [by eexists|].
        exfalso. apply list_elem_of_In in Hin.
        pose proof (find_none _ _ Hf n Hin) as Hnone. simpl in Hnone.
        by rewrite bool_decide_eq_true_2 in Hnone.
    + intros pre n post -> Hn Hpre. rewrite Hd.
      assert (List.find (fun n0 : Server * string * list Receipt =>
                           bool_decide (snd (fst n0) = a)) (pre ++ n :: post)
              = Some n) as ->; [|reflexivity].
      clear Hd. induction pre as [|m pre IH]; simpl.
      * by rewrite bool_decide_eq_true_2.
      * rewrite bool_decide_eq_false_2 by (apply Hpre; by left).
        apply IH. intros m' Hm'. apply Hpre. by right.
Qed.

(** ** No header is stored at a negative height *)

Lemma heights_kept_refl (s : Agent.State) : Agent.heights_kept s s.
Proof. by intros Hs. Qed.

Lemma heights_kept_trans (s1 s2 s3 : Agent.State) :
  Agent.heights_kept s1 s2 -> Agent.heights_kept s2 s3 ->
  Agent.heights_kept s1 s3.
Proof. intros H12 H23 Hs. by apply H23, H12. Qed.

(** A run that leaves the store of the headers as it is. *)
Lemma heights_kept_same_store (s s' : Agent.State) :
  Agent.BlockStore (Agent.world s') = Agent.BlockStore (Agent.world s) ->
  Agent.heights_kept s s'.
Proof. intros E Hs k Hk. rewrite E. by apply Hs. Qed.

Lemma heights_kept_insert (h : Z) (b : PlainBlockHeader) (s : Agent.State) :
  0 <= h ->
  Agent.heights_kept s
    (Agent.with_world
       (fun w => Agent.set_BlockStore (<[h := b]> (Agent.BlockStore w)) w) s).
Proof.
  intros Hh Hs k Hk. simpl. rewrite lookup_insert_ne by lia. by apply Hs.
Qed.

Lemma hk_modify (f : Agent.State -> Agent.State) :
  (forall s, Agent.BlockStore (Agent.world (f s)) = Agent.BlockStore (Agent.world s)) ->
  Agent.Sat Agent.heights_kept (Agent.modify f).
Proof. intros Hf s. apply heights_kept_same_store, Hf. Qed.

Lemma hk_fire (e : Agent.Event) : Agent.Sat Agent.heights_kept (Agent.fire e).
Proof. by apply hk_modify. Qed.

Lemma hk_logger (l : Agent.LogEntry) :
  Agent.Sat Agent.heights_kept (Agent.logger l).
Proof. by apply hk_modify. Qed.

Lemma hk_TransactionStore_set (h : string) (tx : PlainTransaction) :
  Agent.Sat Agent.heights_kept (Agent.TransactionStore_set h tx).
Proof. by apply hk_modify. Qed.

Lemma hk_on_connection {A} (m : Api A) :
  Agent.Sat Agent.heights_kept (Agent.on_connection m).
Proof.
  intros s. unfold Agent.on_connection.
  destruct (m (Agent.sent (Agent.world s))) as [r log].
  by apply heights_kept_same_store.
Qed.

Lemma hk_call {A} (m : Api A) : Agent.Sat Agent.heights_kept (Agent.call m).
Proof.
  intros s. unfold Agent.call.
  destruct (Agent.connection (Agent.agent s)); [|apply heights_kept_refl].
  destruct (m (Agent.sent (Agent.world s))) as [r log].
  by apply heights_kept_same_store.
Qed.

Lemma hk_setTimeout (d k : Z) : Agent.Sat Agent.heights_kept (Agent.setTimeout d k).
Proof. intros s. by apply heights_kept_same_store. Qed.

Lemma hk_clearTimeout (id : Z) : Agent.Sat Agent.heights_kept (Agent.clearTimeout id).
Proof. by apply hk_modify. Qed.

Lemma hk_clearInterval (id : Z) : Agent.Sat Agent.heights_kept (Agent.clearInterval id).
Proof. by apply hk_modify. Qed.

Lemma hk_require_synced : Agent.Sat Agent.heights_kept Agent.require_synced.
Proof.
  intros s. unfold Agent.require_synced.
  destruct (Agent.synced (Agent.agent s)); apply heights_kept_refl.
Qed.

Ltac hk_step :=
  first
    [ apply (sat_bind heights_kept_trans)
    | apply (sat_try_catch heights_kept_trans)
    | apply (sat_attempt (R := Agent.heights_kept))
    | apply (sat_for_each heights_kept_refl heights_kept_trans)
    | apply (sat_ret heights_kept_refl)
    | apply (sat_throw heights_kept_refl)
    | apply (sat_lift heights_kept_refl)
    | apply (sat_get heights_kept_refl)
    | apply hk_call
    | apply hk_on_connection
    | apply hk_require_synced
    | apply hk_logger
    | apply hk_fire
    | apply hk_TransactionStore_set
    | apply hk_setTimeout
    | apply hk_clearTimeout
    | apply hk_clearInterval
    | (apply hk_modify; intros ?; reflexivity)
    | match goal with
      | |- Agent.Sat _ (match ?x with _ => _ end) => destruct x
      end ].

Ltac hk := repeat (intros; hk_step).

(** The header that [block_of_receipt] stores was fetched for a positive
    height and has that height. *)
Lemma hk_block_of_receipt (srv : Server) (receipt : Receipt) :
  Agent.Sat Agent.heights_kept (Agent.block_of_receipt srv receipt).
Proof.
  intros s. unfold Agent.block_of_receipt.
  destruct (Z.gtb_spec (r_blockHeight receipt) 0) as [Hh|Hh];
    [|apply heights_kept_refl].
  unfold bind at 1. unfold Agent.get.
  destruct (Agent.BlockStore (Agent.world s) !! r_blockHeight receipt);
    [apply heights_kept_refl|].
  unfold bind at 1. unfold Agent.getBlockHeader, bind at 1, Agent.require_synced.
  destruct (Agent.synced (Agent.agent s)); [|apply heights_kept_refl].
  unfold Agent.call.
  destruct (Agent.connection (Agent.agent s)); [|apply heights_kept_refl].
  destruct (ElectrumApi.getBlockHeader srv (r_blockHeight receipt)
              (Agent.sent (Agent.world s))) as [[b|e] log] eqn:Hg;
    [|by apply heights_kept_same_store].
  apply getBlockHeader_ok in Hg as [Hb _].
  unfold bind, Agent.BlockStore_set, Agent.modify, ret. cbn [snd].
  eapply heights_kept_trans; [|apply heights_kept_insert; lia].
  by apply heights_kept_same_store.
Qed.

Lemma hk_start_checks (srv : Server) (known : gmap string Receipt)
  (receipts : list Receipt) :
  Agent.Sat Agent.heights_kept (Agent.start_checks srv known receipts).
Proof.
  induction receipts as [|receipt rest IH]; simpl; [hk|].
  destruct (Agent.unchanged known receipt); [exact IH|].
  hk; intros;
    first [apply hk_block_of_receipt|exact IH|unfold Agent.start_check; hk].
Qed.

Lemma hk_settle (srv : Server) (check : Agent.TxCheck) :
  Agent.Sat Agent.heights_kept (Agent.settle srv check).
Proof. unfold Agent.settle, Agent.fire_transaction. hk; intros; hk. Qed.

Lemma hk_onReceipts (srv : Server) (address : string) (receipts : list Receipt) :
  Agent.Sat Agent.heights_kept (Agent.onReceipts srv address receipts).
Proof.
  unfold Agent.onReceipts. hk; intros;
    first [apply hk_start_checks|apply hk_settle].
Qed.

Lemma hk_onBlock (srv : Server) (block : PlainBlockHeader) :
  Agent.Sat Agent.heights_kept (Agent.onBlock srv block).
Proof.
  intros s Hs.
  assert (forall ok t,
    Agent.heights_ok t -> (ok = true -> 0 <= h_blockHeight block) ->
    Agent.heights_ok (Agent.sync_transition (Agent.record_block ok block t)))
    as Hdecide.
  { intros ok t Ht Hok k Hk.
    destruct (sync_transition_record_block ok block t) as (HB & _).
    rewrite HB. destruct ok; [|by apply Ht].
    rewrite lookup_insert_ne by (specialize (Hok eq_refl); lia). by apply Ht. }
  destruct (Agent.BlockStore (Agent.world s) !! (h_blockHeight block - 1))
    as [p|] eqn:Hp.
  - rewrite (onBlock_stored _ _ _ _ Hp).
    rewrite (onBlock_decide_ok _ _ _ _ (consecutive_some _ _)). cbn [snd].
    apply Hdecide; [done|]. intros _.
    destruct (Z.lt_ge_cases (h_blockHeight block - 1) 0) as [Hneg|]; [|lia].
    rewrite (Hs _ Hneg) in Hp. discriminate.
  - destruct (Z.ltb_spec 0 (h_blockHeight block)) as [Hh|Hh].
    + rewrite onBlock_fetches by (done || lia).
      destruct (Agent.connection (Agent.agent s)); [|done].
      destruct (ElectrumApi.getBlockHeader _ _ _) as [[p|e] log] eqn:Hg;
        [|by apply (heights_kept_same_store s)].
      apply getBlockHeader_ok in Hg as [Hheight _].
      unfold Agent.onBlock_fetched. unfold bind at 1.
      unfold Agent.BlockStore_set, Agent.modify.
      rewrite (onBlock_decide_ok _ _ _ _ (consecutive_some _ _)). cbn [snd].
      apply Hdecide; [|lia].
      apply heights_kept_insert; [lia|].
      by apply (heights_kept_same_store s).
    + rewrite onBlock_first by done.
      destruct (Agent.consecutive None block) as [ok|e] eqn:Hc.
      * rewrite (onBlock_decide_ok _ _ _ _ Hc). cbn [snd].
        apply Hdecide; [done|]. intros _. unfold Agent.consecutive in Hc.
        destruct (Z.eqb_spec (h_blockHeight block) 0); [lia|discriminate].
      * by rewrite (onBlock_decide_err _ _ _ _ Hc).
Qed.

Lemma hk_close (reason : string) : Agent.Sat Agent.heights_kept (Agent.close reason).
Proof. intros s. apply heights_kept_same_store. by rewrite close_state. Qed.

Lemma hk_ping (srv : Server) (k : Z) : Agent.Sat Agent.heights_kept (Agent.ping srv k).
Proof. unfold Agent.ping. hk. Qed.

Lemma hk_run (l : Agent.Label) : Agent.Sat Agent.heights_kept (Agent.run l).
Proof.
  destruct l; simpl.
  - intros s. apply heights_kept_same_store. unfold Agent.sync_call.
    destruct (_ || _); [done|]. by destruct (Agent.connection (Agent.agent s)).
  - intros s. apply heights_kept_same_store. unfold Agent.sync_connected.
    destruct (Agent.awaitingConnection (Agent.pending s)); [done|].
    unfold_act. by destruct (Agent.connection (Agent.agent s)).
  - intros s. unfold Agent.sync_handshaken.
    destruct (Agent.awaitingHandshake (Agent.pending s)) as [|n];
      [apply heights_kept_refl|].
    revert s.
    apply (sat_bind heights_kept_trans); [hk|]. intros _.
    apply (sat_bind heights_kept_trans).
    { intros s. unfold Agent.handshake.
      assert (Agent.Sat Agent.heights_kept
                (Agent.handshake_answers srv GENESIS_HASH)) as Hm
        by (unfold Agent.handshake_answers; hk).
      specialize (Hm s). by destruct (Agent.handshake_answers srv GENESIS_HASH s). }
    intros _. hk. intros _ s. unfold Agent.requestHead.
    destruct (Agent.connection (Agent.agent s)); [|apply heights_kept_refl].
    revert s. hk.
  - intros s. destruct (Agent.headSubscriptions (Agent.pending s));
      [apply heights_kept_refl|apply hk_onBlock].
  - intros s. destruct (bool_decide _); [|apply heights_kept_refl].
    revert s. unfold Agent.on_status.
    apply (sat_bind heights_kept_trans); [apply hk_on_connection|].
    intros receipts. apply hk_onReceipts.
  - unfold Agent.subscribe. hk.
  - apply hk_close.
  - intros s. unfold Agent.on_interval.
    destruct (existsb _ _); [apply hk_ping|apply heights_kept_refl].
  - intros s. unfold Agent.on_timeout.
    destruct (List.find _ _) as [[[? ?] k]|]; [|apply heights_kept_refl].
    revert s. apply (sat_bind heights_kept_trans); [apply hk_clearTimeout|].
    intros _. unfold Agent.ping_timeout.
    destruct (k >? 1); [apply hk_close|apply hk_ping].
Qed.

(** In every state that the agent reaches from a state without headers at
    negative heights, the store has none; this holds of a new agent in a
    process whose store is empty. *)
Lemma heights_ok_steps (ls : list Agent.Label) (s : Agent.State) :
  Agent.heights_ok s -> Agent.heights_ok (Agent.steps s ls).
Proof.
  revert s. induction ls as [|l ls IH]; intros s Hs; simpl; [done|].
  apply IH. by apply (hk_run l s).
Qed.

Lemma heights_ok_init (c : Agent.Connection)
  (transactions : gmap string PlainTransaction) :
  Agent.heights_ok (Agent.init c ∅ transactions).
Proof. intros k _. apply lookup_empty. Qed.

(** ** Runs that leave the control of the agent alone *)

Ltac sat_walk refl trans leaf :=
  repeat (intros;
    first
      [ apply (sat_bind trans)
      | apply (sat_try_catch trans)
      | apply sat_attempt
      | apply (sat_for_each refl trans)
      | apply (sat_ret refl)
      | apply (sat_throw refl)
      | apply (sat_lift refl)
      | apply (sat_get refl)
      | leaf
      | match goal with
        | |- Agent.Sat _ (match ?x with _ => _ end) => destruct x
        end ]).

Lemma control_kept_refl (s : Agent.State) : Agent.control_kept s s.
Proof. by repeat split. Qed.

Lemma control_kept_trans (s1 s2 s3 : Agent.State) :
  Agent.control_kept s1 s2 -> Agent.control_kept s2 s3 ->
  Agent.control_kept s1 s3.
Proof.
  intros (A1 & A2 & A3 & A4 & A5 & A6) (B1 & B2 & B3 & B4 & B5 & B6).
  repeat split; congruence.
Qed.

Lemma ck_with_world (f : Agent.World -> Agent.World) (s : Agent.State) :
  Agent.control_kept s (Agent.with_world f s).
Proof. by repeat split. Qed.

Lemma ck_modify (f : Agent.State -> Agent.State) :
  (forall s, Agent.control_kept s (f s)) ->
  Agent.Sat Agent.control_kept (Agent.modify f).
Proof. intros Hf s. apply Hf. Qed.

Lemma ck_on_connection {A} (m : Api A) :
  Agent.Sat Agent.control_kept (Agent.on_connection m).
Proof.
  intros s. unfold Agent.on_connection.
  destruct (m (Agent.sent (Agent.world s))) as [r log]. apply ck_with_world.
Qed.

Lemma ck_call {A} (m : Api A) : Agent.Sat Agent.control_kept (Agent.call m).
Proof.
  intros s. unfold Agent.call.
  destruct (Agent.connection (Agent.agent s)); [|apply control_kept_refl].
  destruct (m (Agent.sent (Agent.world s))) as [r log]. apply ck_with_world.
Qed.

Lemma ck_require_synced : Agent.Sat Agent.control_kept Agent.require_synced.
Proof.
  intros s. unfold Agent.require_synced.
  destruct (Agent.synced (Agent.agent s)); apply control_kept_refl.
Qed.

Lemma ck_setTimeout (d k : Z) :
  Agent.Sat Agent.control_kept (Agent.setTimeout d k).
Proof. intros s. by repeat split. Qed.

Lemma ck_setInterval (d : Z) :
  Agent.Sat Agent.control_kept (Agent.setInterval d).
Proof. intros s. by repeat split. Qed.

(** Closes the effects that leave the control of the agent alone. *)
Ltac ck_leaf :=
  first
    [ apply ck_call
    | apply ck_on_connection
    | apply ck_require_synced
    | apply ck_setTimeout
    | apply ck_setInterval
    | (apply ck_modify; intros ?; by repeat split) ].

Ltac ck :=
  unfold Agent.fire, Agent.logger, Agent.BlockStore_set,
    Agent.TransactionStore_set, Agent.clearTimeout, Agent.clearInterval;
  sat_walk control_kept_refl control_kept_trans ck_leaf.

Lemma ck_start_checks (srv : Server) (known : gmap string Receipt)
  (receipts : list Receipt) :
  Agent.Sat Agent.control_kept (Agent.start_checks srv known receipts).
Proof.
  induction receipts as [|receipt rest IH]; simpl; [ck|].
  destruct (Agent.unchanged known receipt); [exact IH|].
  unfold Agent.block_of_receipt, Agent.getBlockHeader, Agent.start_check.
  ck; exact IH.
Qed.

Lemma ck_settle (srv : Server) (check : Agent.TxCheck) :
  Agent.Sat Agent.control_kept (Agent.settle srv check).
Proof. unfold Agent.settle, Agent.fire_transaction. ck. Qed.

Lemma ck_onReceipts (srv : Server) (address : string) (receipts : list Receipt) :
  Agent.Sat Agent.control_kept (Agent.onReceipts srv address receipts).
Proof.
  unfold Agent.onReceipts. ck;
    first [apply ck_start_checks|apply ck_settle].
Qed.

Lemma ck_ping (srv : Server) (k : Z) :
  Agent.Sat Agent.control_kept (Agent.ping srv k).
Proof. unfold Agent.ping. ck. Qed.

Lemma ck_subscribe (addresses : list string) :
  Agent.Sat Agent.control_kept (Agent.subscribe addresses).
Proof. unfold Agent.subscribe. ck. Qed.

Lemma ck_on_status (srv : Server) (address scriptHash : string)
  (status : option string) :
  Agent.Sat Agent.control_kept (Agent.on_status srv address scriptHash status).
Proof.
  unfold Agent.on_status.
  apply (sat_bind control_kept_trans); [apply ck_on_connection|].
  intros receipts. apply ck_onReceipts.
Qed.

(** A run of [onBlock] that does not start in the syncing state. *)
Lemma ck_onBlock (srv : Server) (block : PlainBlockHeader) (s : Agent.State) :
  Agent.syncing (Agent.agent s) = false ->
  Agent.control_kept s (snd (Agent.onBlock srv block s)).
Proof.
  intros Hs.
  destruct (onBlock_shape srv block s) as [(e & log & ->)|(ok & store & log & ->)];
    cbn [snd]; [apply ck_with_world|].
  set (s0 := Agent.with_world _ s).
  destruct (sync_transition_record_block ok block s0)
    as (_ & _ & _ & _ & _ & _ & _ & Hkeep).
  destruct (Hkeep Hs) as [Ha Hp]. unfold Agent.control_kept.
  rewrite Ha, Hp. by repeat split.
Qed.

(** ** A closed agent *)

Lemma handshake_without_connection (srv : Server) (GENESIS_HASH : string)
  (timedOut : bool) (s : Agent.State) :
  Agent.connection (Agent.agent s) = None ->
  exists e, Agent.handshake srv GENESIS_HASH timedOut s = (Err e, s).
Proof.
  intros Hc. unfold Agent.handshake, Agent.handshake_answers, bind, try_catch,
    Agent.call, throw. rewrite Hc. destruct timedOut; by eexists.
Qed.

Lemma closed_control_kept (s s' : Agent.State) :
  Agent.control_kept s s' -> Agent.closed s -> Agent.closed s'.
Proof.
  intros (A1 & A2 & A3 & A4 & A5 & A6) (C1 & C2 & C3).
  repeat split; congruence.
Qed.

Lemma closed_run (l : Agent.Label) (s : Agent.State) :
  Agent.closed s -> Agent.closed (Agent.step s l).
Proof.
  intros Hc. pose proof Hc as (Hconn & Hsyncing & Hsynced).
  unfold Agent.step. destruct l; simpl.
  - unfold Agent.sync_call. rewrite Hconn. by destruct (_ || _).
  - unfold Agent.sync_connected.
    destruct (Agent.awaitingConnection (Agent.pending s)); [done|].
    unfold_act. by rewrite Hconn.
  - unfold Agent.sync_handshaken.
    destruct (Agent.awaitingHandshake (Agent.pending s)) as [|n]; [done|].
    unfold bind at 1. unfold Agent.modify. unfold bind at 1.
    destruct (handshake_without_connection srv GENESIS_HASH timedOut
                (Agent.with_pending (Agent.set_awaitingHandshake n) s) Hconn)
      as [e ->].
    done.
  - destruct (Agent.headSubscriptions (Agent.pending s)); [done|].
    eapply closed_control_kept; [by apply ck_onBlock|done].
  - destruct (bool_decide _); [|done].
    eapply closed_control_kept; [|done].
    apply ck_on_status.
  - eapply closed_control_kept; [apply ck_subscribe|done].
  - rewrite close_state. by repeat split.
  - unfold Agent.on_interval. destruct (existsb _ _); [|done].
    eapply closed_control_kept; [apply ck_ping|done].
  - unfold Agent.on_timeout.
    destruct (List.find _ _) as [[[? ?] k]|]; [|done].
    unfold bind. unfold Agent.clearTimeout, Agent.modify.
    unfold Agent.ping_timeout. destruct (k >? 1).
    + rewrite close_state. by repeat split.
    + eapply closed_control_kept; [apply ck_ping|done].
Qed.

Lemma closed_steps (ls : list Agent.Label) (s : Agent.State) :
  Agent.closed s -> Agent.closed (Agent.steps s ls).
Proof.
  revert s. induction ls as [|l ls IH]; intros s Hs; simpl; [done|].
  apply IH. by apply closed_run.
Qed.

(** After [close], whatever runs follow, the agent has no connection and
    is neither syncing nor synced, and a call of [sync] changes
    nothing. *)
Theorem closed_agent_is_never_synced_again (reason : string)
  (s : Agent.State) (ls : list Agent.Label) :
  let s' := Agent.steps (snd (Agent.close reason s)) ls in
  Agent.connection (Agent.agent s') = None
  /\ Agent.syncing (Agent.agent s') = false
  /\ Agent.synced (Agent.agent s') = false
  /\ Agent.step s' Agent.CallSync = s'.
Proof.
  intros s'.
  assert (Agent.closed s') as (Hconn & Hsyncing & Hsynced).
  { apply closed_steps. rewrite close_state. by repeat split. }
  repeat split; try done.
  unfold Agent.step. simpl. unfold Agent.sync_call. rewrite Hconn.
  by destruct (_ || _).
Qed.


(** ** A handshake that fails *)

Lemma ck_handshake (srv : Server) (GENESIS_HASH : string) (timedOut : bool) :
  Agent.Sat Agent.control_kept (Agent.handshake srv GENESIS_HASH timedOut).
Proof.
  intros s. unfold Agent.handshake.
  assert (Agent.Sat Agent.control_kept
            (Agent.handshake_answers srv GENESIS_HASH)) as Hm
    by (unfold Agent.handshake_answers; ck).
  specialize (Hm s). by destruct (Agent.handshake_answers srv GENESIS_HASH s).
Qed.

Lemma stuck_control_kept (s s' : Agent.State) :
  Agent.control_kept s s' ->
  Agent.stuck_in_handshake s -> Agent.stuck_in_handshake s'.
Proof.
  intros (A1 & A2 & A3 & A4 & A5 & A6) (C1 & C2 & C3 & C4 & C5).
  repeat split; congruence.
Qed.

Lemma stuck_run (l : Agent.Label) (s : Agent.State) :
  Agent.stuck_in_handshake s -> Agent.stuck_in_handshake (Agent.step s l).
Proof.
  intros Hc. pose proof Hc as (Hh & Hsyncing & Hsynced & Hac & Hah).
  unfold Agent.step. destruct l; simpl.
  - unfold Agent.sync_call. by rewrite Hh.
  - unfold Agent.sync_connected. by rewrite Hac.
  - unfold Agent.sync_handshaken. by rewrite Hah.
  - destruct (Agent.headSubscriptions (Agent.pending s)); [done|].
    eapply stuck_control_kept; [by apply ck_onBlock|done].
  - destruct (bool_decide _); [|done].
    eapply stuck_control_kept; [apply ck_on_status|done].
  - eapply stuck_control_kept; [apply ck_subscribe|done].
  - rewrite close_state. by repeat split.
  - unfold Agent.on_interval. destruct (existsb _ _); [|done].
    eapply stuck_control_kept; [apply ck_ping|done].
  - unfold Agent.on_timeout.
    destruct (List.find _ _) as [[[? ?] k]|]; [|done].
    unfold bind. unfold Agent.clearTimeout, Agent.modify.
    unfold Agent.ping_timeout. destruct (k >? 1).
    + rewrite close_state. by repeat split.
    + eapply stuck_control_kept; [apply ck_ping|done].
Qed.

Lemma stuck_steps (ls : list Agent.Label) (s : Agent.State) :
  Agent.stuck_in_handshake s -> Agent.stuck_in_handshake (Agent.steps s ls).
Proof.
  revert s. induction ls as [|l ls IH]; intros s Hs; simpl; [done|].
  apply IH. by apply stuck_run.
Qed.

Lemma requestHead_connected (s : Agent.State) :
  is_Some (Agent.connection (Agent.agent s)) ->
  fst (Agent.requestHead s) = Ok tt.
Proof.
  intros [c Hc]. unfold Agent.requestHead. by rewrite Hc.
Qed.

(** A run of the last part of [sync] that fails has failed in the
    handshake, before [handshaking] is reset. *)
Lemma sync_handshaken_failed (srv : Server) (GENESIS_HASH : string)
  (timedOut : bool) (e : Error) (n : nat) (s : Agent.State) :
  Agent.awaitingHandshake (Agent.pending s) = S n ->
  fst (Agent.sync_handshaken srv GENESIS_HASH timedOut s) = Err e ->
  Agent.control_kept
    (Agent.with_pending (Agent.set_awaitingHandshake n) s)
    (snd (Agent.sync_handshaken srv GENESIS_HASH timedOut s)).
Proof.
  intros Hah.
  destruct (Agent.sync_handshaken srv GENESIS_HASH timedOut s) as [r s2] eqn:Erun.
  revert Erun. unfold Agent.sync_handshaken. rewrite Hah.
  unfold bind at 1. unfold Agent.modify at 1.
  set (s0 := Agent.with_pending (Agent.set_awaitingHandshake n) s).
  unfold bind at 1.
  pose proof (ck_handshake srv GENESIS_HASH timedOut s0) as Hk.
  destruct (Agent.handshake srv GENESIS_HASH timedOut s0) as [[b|e0] s1] eqn:E;
    cbn [fst snd] in *.
  - assert (is_Some (Agent.connection (Agent.agent s1))) as Hconn.
    { destruct (Agent.connection (Agent.agent s1)) as [c|] eqn:Hc; [by eexists|].
      destruct (handshake_without_connection srv GENESIS_HASH timedOut s0)
        as [e1 E1].
      - destruct Hk as (Hk & _). by rewrite <- Hk.
      - rewrite E1 in E. discriminate. }
    unfold bind, Agent.fire, Agent.modify.
    pose proof (requestHead_connected
      (Agent.with_world
         (fun w => Agent.set_fired (Agent.fired w ++ [Agent.SYNCING]) w)
         (Agent.with_agent (Agent.set_syncing true)
            (Agent.with_agent (Agent.set_handshaking false) s1))) Hconn) as Hr.
    destruct (Agent.requestHead _) as [r' s3]. cbn [fst] in Hr. subst r'.
    intros [= <- <-]. discriminate.
  - by intros [= <- <-] _.
Qed.

(** The agent is in the handshake of one call of [sync], and no other
    call of [sync] is under way: none waits for the connection, this one
    alone waits for the answer to the handshake, and the agent is neither
    syncing nor synced.  When the last part of this call fails, it has
    failed before [handshaking] is reset: from then on, whatever runs
    follow, [handshaking] stays set, the agent is neither syncing nor
    synced, and a call of [sync] returns at its guard without any effect.
    The condition is needed: a second call that passed the guard before
    the connection was established resets [handshaking] when its own
    handshake passes. *)
Theorem lone_failed_handshake_blocks_every_later_sync (srv : Server)
  (GENESIS_HASH : string) (timedOut : bool) (e : Error) (s : Agent.State)
  (ls : list Agent.Label) :
  Agent.handshaking (Agent.agent s) = true ->
  Agent.syncing (Agent.agent s) = false ->
  Agent.synced (Agent.agent s) = false ->
  Agent.awaitingConnection (Agent.pending s) = 0%nat ->
  Agent.awaitingHandshake (Agent.pending s) = 1%nat ->
  fst (Agent.run (Agent.HandshakeAnswered srv GENESIS_HASH timedOut) s) = Err e ->
  let s' :=
    Agent.steps (Agent.step s (Agent.HandshakeAnswered srv GENESIS_HASH timedOut))
                ls in
  Agent.handshaking (Agent.agent s') = true
  /\ Agent.syncing (Agent.agent s') = false
  /\ Agent.synced (Agent.agent s') = false
  /\ Agent.run Agent.CallSync s' = (Ok tt, s').
Proof.
  intros Hh Hsyncing Hsynced Hac Hah Herr s'.
  assert (Agent.stuck_in_handshake s') as (Hh' & Hs1 & Hs2 & _).
  { apply stuck_steps. unfold Agent.step. simpl in *.
    eapply stuck_control_kept; [by eapply sync_handshaken_failed|].
    by repeat split. }
  repeat split; try done.
  simpl. unfold Agent.sync_call. by rewrite Hh'.
Qed.


(** ** A method that is begun and resumed *)

Lemma appends_ret {A} (a : A) : Agent.appends (ret a).
Proof. intros log. unfold ret. simpl. by rewrite app_nil_r. Qed.

Lemma appends_throw {A} (e : Error) : Agent.appends (throw (A := A) e).
Proof. intros log. unfold throw. simpl. by rewrite app_nil_r. Qed.

Lemma appends_lift {A} (r : Result A) : Agent.appends (lift r).
Proof. intros log. unfold lift. simpl. by rewrite app_nil_r. Qed.

Lemma appends_request {A} (r : Request) (answer : Result A) :
  Agent.appends (request r answer).
Proof. intros log. reflexivity. Qed.

Lemma appends_bind {A B} (m : Api A) (k : A -> Api B) :
  Agent.appends m -> (forall a, Agent.appends (k a)) -> Agent.appends (bind m k).
Proof.
  intros Hm Hk log. unfold bind. rewrite (Hm log).
  destruct (m []) as [[a|e] l1]; simpl.
  - rewrite (Hk a (log ++ l1)), (Hk a l1). simpl. by rewrite app_assoc.
  - reflexivity.
Qed.

Ltac appends_walk :=
  repeat (intros;
    first
      [ apply appends_bind
      | apply appends_ret
      | apply appends_throw
      | apply appends_lift
      | apply appends_request
      | match goal with
        | |- Agent.appends (match ?x with _ => _ end) => destruct x
        | |- Agent.appends (if ?x then _ else _) => destruct x
        end ]).

Lemma getTransaction_appends (srv : Server) (hash : string)
  (arg : HeightOrBlockHeader) :
  Agent.appends (ElectrumApi.getTransaction srv hash arg).
Proof.
  unfold ElectrumApi.getTransaction, ElectrumApi.getTransactionMerkleRoot,
    ElectrumApi.getBlockHeader.
  appends_walk.
Qed.

Lemma proofTransaction_appends (srv : Server) (hash : string)
  (block : PlainBlockHeader) :
  Agent.appends (ElectrumApi.proofTransaction srv hash block).
Proof.
  unfold ElectrumApi.proofTransaction, ElectrumApi.getTransactionMerkleRoot.
  appends_walk.
Qed.

(** A method that is begun at a call and resumed at once is the method
    itself. *)
Lemma begun_resumed {A} (m : Api A) (log : list Request) :
  Agent.appends m ->
  (let* _ := Agent.begun m in Agent.resumed m) log = m log.
Proof.
  intros Hm. unfold bind, Agent.begun, Agent.resumed. rewrite (Hm log).
  destruct (m []) as [r requests]. simpl.
  by rewrite <- app_assoc, take_drop.
Qed.

(** ** What a notification of receipts fires and logs *)

Lemma trace_kept_refl (s : Agent.State) : Agent.trace_kept s s.
Proof. by split. Qed.

Lemma trace_kept_trans (s1 s2 s3 : Agent.State) :
  Agent.trace_kept s1 s2 -> Agent.trace_kept s2 s3 -> Agent.trace_kept s1 s3.
Proof. intros [A1 A2] [B1 B2]. split; congruence. Qed.

Lemma tk_on_connection {A} (m : Api A) :
  Agent.Sat Agent.trace_kept (Agent.on_connection m).
Proof.
  intros s. unfold Agent.on_connection.
  by destruct (m (Agent.sent (Agent.world s))) as [r log].
Qed.

Lemma tk_call {A} (m : Api A) : Agent.Sat Agent.trace_kept (Agent.call m).
Proof.
  intros s. unfold Agent.call.
  destruct (Agent.connection (Agent.agent s)); [|apply trace_kept_refl].
  by destruct (m (Agent.sent (Agent.world s))) as [r log].
Qed.

Lemma tk_require_synced : Agent.Sat Agent.trace_kept Agent.require_synced.
Proof.
  intros s. unfold Agent.require_synced.
  destruct (Agent.synced (Agent.agent s)); apply trace_kept_refl.
Qed.

Lemma tk_modify (f : Agent.State -> Agent.State) :
  (forall s, Agent.trace_kept s (f s)) ->
  Agent.Sat Agent.trace_kept (Agent.modify f).
Proof. intros Hf s. apply Hf. Qed.

Ltac tk_leaf :=
  first
    [ apply tk_call
    | apply tk_on_connection
    | apply tk_require_synced
    | (apply tk_modify; intros ?; by split) ].

Ltac tk :=
  unfold Agent.BlockStore_set, Agent.TransactionStore_set;
  sat_walk trace_kept_refl trace_kept_trans tk_leaf.

Lemma tk_started (srv : Server) (receipt : Receipt) :
  Agent.Sat Agent.trace_kept
    (attempt (let* block := Agent.block_of_receipt srv receipt in
              Agent.start_check srv receipt block)).
Proof.
  unfold Agent.block_of_receipt, Agent.getBlockHeader, Agent.start_check. tk.
Qed.

(** The loop starts at most one check for each changed receipt, and one
    for each when it does not throw; it fires and logs nothing. *)
Lemma start_checks_count (srv : Server) (known : gmap string Receipt)
  (receipts : list Receipt) (s : Agent.State) :
  exists checks err s1,
    Agent.start_checks srv known receipts s = (Ok (checks, err), s1)
    /\ Agent.trace_kept s s1
    /\ (length checks <= length (Agent.changed known receipts))%nat
    /\ (err = None -> length checks = length (Agent.changed known receipts)).
Proof.
  revert s. induction receipts as [|receipt rest IH]; intros s; simpl.
  - exists [], None, s. repeat split; done.
  - unfold Agent.changed in *. simpl.
    destruct (Agent.unchanged known receipt); simpl; [apply IH|].
    unfold bind at 1.
    pose proof (tk_started srv receipt s) as Hk.
    destruct (attempt _ s) as [[started|e0] s0] eqn:E.
    2:{ unfold attempt in E. destruct (bind _ _ s) in E. discriminate. }
    cbn [snd] in Hk. destruct started as [check|e].
    + unfold bind at 1.
      destruct (IH s0) as (checks & err & s1 & -> & Hk1 & Hle & Heq).
      exists (check :: checks), err, s1. unfold ret. simpl.
      split; [done|]. split; [by eapply trace_kept_trans|].
      split; [lia|]. intros Hn. by rewrite Heq.
    + exists [], (Some e), s0. unfold ret. simpl.
      split; [done|]. split; [done|]. split; [lia|done].
Qed.

(** A check that settles fires one transaction event or logs one error. *)
Lemma settle_answers (srv : Server) (check : Agent.TxCheck) (s : Agent.State) :
  exists events errors s1,
    Agent.settle srv check s = (Ok tt, s1)
    /\ Agent.fired (Agent.world s1) = Agent.fired (Agent.world s) ++ events
    /\ Agent.logged (Agent.world s1)
       = Agent.logged (Agent.world s) ++ map Agent.LogError errors
    /\ forallb Agent.is_transaction_event events = true
    /\ (length events + length errors = 1)%nat.
Proof.
  assert (forall tx block (t : Agent.State),
    exists events,
      Agent.fire_transaction tx block t
      = (Ok tt, Agent.with_world
                  (fun w => Agent.set_fired (Agent.fired w ++ events) w) t)
      /\ forallb Agent.is_transaction_event events = true
      /\ length events = 1%nat) as Hfire.
  { intros tx [b|] t; eexists [_]; by repeat split. }
  destruct check as [hash block|stored b|stored]; unfold Agent.settle.
  - unfold bind at 1. unfold attempt, Agent.on_connection.
    destruct (Agent.resumed
                (ElectrumApi.getTransaction srv hash (header_arg block))
                (Agent.sent (Agent.world s))) as [[tx|e] log].
    + unfold bind, Agent.TransactionStore_set, Agent.modify.
      match goal with
      | |- context [Agent.fire_transaction tx block ?t] =>
          destruct (Hfire tx block t) as (events & -> & Hev & Hlen)
      end.
      exists events, []. eexists. split; [reflexivity|]. simpl.
      rewrite app_nil_r. repeat split; [done|lia].
    + exists [], [e]. eexists. split; [reflexivity|]. simpl.
      rewrite app_nil_r. by repeat split.
  - unfold bind at 1. unfold attempt, Agent.on_connection.
    destruct (Agent.resumed
                (ElectrumApi.proofTransaction srv (t_transactionHash stored) b)
                (Agent.sent (Agent.world s))) as [[ok|e] log].
    + match goal with
      | |- context [Agent.fire_transaction stored (Some b) ?t] =>
          destruct (Hfire stored (Some b) t) as (events & -> & Hev & Hlen)
      end.
      exists events, []. eexists. split; [reflexivity|]. simpl.
      rewrite app_nil_r. repeat split; [done|lia].
    + exists [], [e]. eexists. split; [reflexivity|]. simpl.
      rewrite app_nil_r. by repeat split.
  - destruct (Hfire stored None s) as (events & -> & Hev & Hlen).
    exists events, []. eexists. split; [reflexivity|]. simpl.
    rewrite app_nil_r. repeat split; [done|lia].
Qed.

Lemma settle_order_length (checks : list Agent.TxCheck) :
  length (Agent.settle_order checks) = length checks.
Proof.
  unfold Agent.settle_order. rewrite length_app.
  induction checks as [|check checks IH]; simpl; [reflexivity|].
  destruct (Agent.resolved check); simpl; lia.
Qed.

Lemma settle_all_answers (srv : Server) (checks : list Agent.TxCheck)
  (s : Agent.State) :
  exists events errors units s1,
    for_each (Agent.settle srv) checks s = (Ok units, s1)
    /\ Agent.fired (Agent.world s1) = Agent.fired (Agent.world s) ++ events
    /\ Agent.logged (Agent.world s1)
       = Agent.logged (Agent.world s) ++ map Agent.LogError errors
    /\ forallb Agent.is_transaction_event events = true
    /\ (length events + length errors = length checks)%nat.
Proof.
  revert s. induction checks as [|check checks IH]; intros s; simpl.
  - exists [], [], [], s. simpl. rewrite !app_nil_r. by repeat split.
  - destruct (settle_answers srv check s)
      as (ev1 & er1 & s1 & E1 & Hf1 & Hl1 & Hev1 & Hn1).
    destruct (IH s1) as (ev2 & er2 & units & s2 & E2 & Hf2 & Hl2 & Hev2 & Hn2).
    unfold bind. rewrite E1, E2. unfold ret.
    exists (ev1 ++ ev2), (er1 ++ er2). eexists _, _. split; [reflexivity|].
    rewrite Hf2, Hf1, Hl2, Hl1, map_app, <- !app_assoc, forallb_app, Hev1, Hev2.
    rewrite !length_app. repeat split; lia.
Qed.

(** A notification for an address that has a baseline only adds to the
    events and to the log: the events it fires are transaction events, the
    lines it logs are errors, and there is at most one of them for each
    receipt that is not skipped, and exactly one when the run does not
    throw. *)
Theorem onReceipts_answers_each_changed_receipt (srv : Server)
  (address : string) (receipts : list Receipt) (known : gmap string Receipt)
  (s : Agent.State) :
  Agent.knownReceipts (Agent.agent s) !! address = Some known ->
  let r := Agent.onReceipts srv address receipts s in
  exists events errors,
    Agent.fired (Agent.world (snd r)) = Agent.fired (Agent.world s) ++ events
    /\ Agent.logged (Agent.world (snd r))
       = Agent.logged (Agent.world s) ++ map Agent.LogError errors
    /\ forallb Agent.is_transaction_event events = true
    /\ (length events + length errors
        <= length (Agent.changed known receipts))%nat
    /\ (fst r = Ok tt ->
        (length events + length errors
         = length (Agent.changed known receipts))%nat).
Proof.
  intros Hk. cbv zeta.
  destruct (Agent.onReceipts srv address receipts s) as [res sf] eqn:Erun.
  rewrite (onReceipts_later _ _ _ _ _ Hk) in Erun. revert Erun.
  unfold bind at 1.
  destruct (start_checks_count srv known receipts s)
    as (checks & err & s1 & -> & [Hf Hl] & Hle & Heq).
  unfold bind at 1. cbn [fst snd].
  destruct (settle_all_answers srv (Agent.settle_order checks) s1)
    as (events & errors & units & s2 & -> & Hf2 & Hl2 & Hev & Hn).
  rewrite settle_order_length in Hn. intros Erun. exists events, errors. rewrite <- Hf, <- Hl. cbn [fst snd].
  destruct err as [e|]; injection Erun as <- <-;
    (split; [done|]); (split; [done|]); (split; [done|]); (split; [lia|]).
  - discriminate.
  - intros _. rewrite <- Heq by done. lia.
Qed.


(** [getTransaction] without a block sends the one request for the raw
    transaction, whatever the answer is. *)
Lemma getTransaction_unproved (srv : Server) (hash : string)
  (log : list Request) :
  ElectrumApi.getTransaction srv hash Undefined log
  = (fst (ElectrumApi.getTransaction srv hash Undefined []),
     log ++ [ReqTransactionGet hash]).
Proof.
  unfold ElectrumApi.getTransaction, bind, ret, request, lift.
  by destruct (srv_transaction_get srv hash).
Qed.

(** A notification of one changed receipt whose height is not positive,
    to an agent with a connection: when the store has the transaction,
    [TRANSACTION_ADDED] is fired with the stored transaction and nothing
    is sent; when it has not, the transaction is fetched without a proof
    and, if that succeeds, stored under the hash it decodes to and
    announced with [TRANSACTION_ADDED]; if it fails, the error is logged
    and nothing is fired or stored. *)
Theorem unconfirmed_change_is_announced_as_added (srv : Server)
  (address : string) (r : Receipt) (known : gmap string Receipt)
  (s : Agent.State) :
  Agent.knownReceipts (Agent.agent s) !! address = Some known ->
  Agent.unchanged known r = false ->
  r_blockHeight r <= 0 ->
  is_Some (Agent.connection (Agent.agent s)) ->
  Agent.onReceipts srv address [r] s
  = (Ok tt,
     match Agent.TransactionStore (Agent.world s) !! r_transactionHash r with
     | Some stored =>
         Agent.with_world
           (fun w => Agent.set_fired
                       (Agent.fired w ++ [Agent.TRANSACTION_ADDED stored]) w) s
     | None =>
         match ElectrumApi.getTransaction srv (r_transactionHash r) Undefined
                 (Agent.sent (Agent.world s)) with
         | (Ok tx, log) =>
             Agent.with_world
               (fun w =>
                  Agent.set_fired (Agent.fired w ++ [Agent.TRANSACTION_ADDED tx])
                    (Agent.set_TransactionStore
                       (<[t_transactionHash tx := tx]> (Agent.TransactionStore w))
                       (Agent.set_sent log w))) s
         | (Err e, log) =>
             Agent.with_world
               (fun w => Agent.set_logged (Agent.logged w ++ [Agent.LogError e])
                           (Agent.set_sent log w)) s
         end
     end).
Proof.
  intros Hk Hr Hh [c Hc]. rewrite (onReceipts_later _ _ _ _ _ Hk).
  unfold bind at 1. cbn [Agent.start_checks]. rewrite Hr.
  unfold Agent.block_of_receipt.
  replace (r_blockHeight r >? 0) with false
    by (symmetry; rewrite Z.gtb_ltb; apply Z.ltb_ge; lia).
  unfold Agent.start_check, Agent.settle_order.
  unfold_act.
  destruct (Agent.TransactionStore (Agent.world s) !! r_transactionHash r)
    as [stored|]; simpl; [reflexivity|].
  unfold Agent.call, Agent.on_connection, Agent.begun, Agent.resumed,
    Agent.fire_transaction.
  rewrite Hc. unfold_act.
  rewrite (getTransaction_unproved srv (r_transactionHash r)
             (Agent.sent (Agent.world s))).
  destruct (ElectrumApi.getTransaction srv (r_transactionHash r) Undefined [])
    as [res requests] eqn:E.
  rewrite (getTransaction_unproved srv (r_transactionHash r) []) in E.
  injection E as <- <-. simpl.
  unfold Agent.on_connection, Agent.resumed, Agent.fire_transaction.
  unfold_act.
  destruct (ElectrumApi.getTransaction srv (r_transactionHash r) Undefined [])
    as [res requests] eqn:E.
  rewrite (getTransaction_unproved srv (r_transactionHash r) []) in E.
  injection E as <- <-. simpl. unfold_setters. rewrite app_nil_r.
  by destruct (fst (ElectrumApi.getTransaction srv (r_transactionHash r)
                      Undefined [])) as [tx|e].
Qed.

(** ** A ping that is answered *)

(** A ping that the peer answers sends one request and clears its own
    timeout: the pending timeouts are as before, and the handler of the
    ping's timeout, if it is called, does nothing. *)
Theorem answered_ping_leaves_no_timeout (srv srv' : Server) (k : Z)
  (s : Agent.State) :
  is_Some (Agent.connection (Agent.agent s)) ->
  srv_ping srv = Ok tt ->
  Agent.timers_fresh s ->
  Agent.ping srv k s = (Ok tt, Agent.after_pings 1 s)
  /\ Agent.on_timeout srv' (Agent.nextTimer (Agent.pending s))
       (Agent.after_pings 1 s)
     = (Ok tt, Agent.after_pings 1 s).
Proof.
  intros [c Hc] Hans Hfresh. unfold Agent.timers_fresh in Hfresh. split.
  - unfold Agent.ping, Agent.call, ElectrumApi.ping_request, request,
      Agent.after_pings.
    unfold_act. rewrite Hc, Hans. simpl. unfold_setters.
    rewrite filter_app, filter_fresh by exact Hfresh.
    rewrite filter_cons, decide_False by (simpl; lia).
    rewrite filter_nil, app_nil_r.
    by destruct s as [a w [? ? ? ? ? ? ?]].
  - unfold Agent.on_timeout, Agent.after_pings. simpl.
    destruct (List.find _ _) as [t|] eqn:Hfind; [|reflexivity].
    apply find_some in Hfind as [Ht Hid]. apply list_elem_of_In in Ht.
    rewrite Forall_forall in Hfresh. specialize (Hfresh t Ht).
    apply Z.eqb_eq in Hid. lia.
Qed.

(** ** [subscribe] *)

Lemma addressToScriptHash_log (address h : string) (log : list Request) :
  ElectrumApi.scriptHash_of address = Ok h ->
  ElectrumApi.addressToScriptHash address log = (Ok h, log).
Proof.
  unfold ElectrumApi.scriptHash_of, ElectrumApi.addressToScriptHash, bind, lift, ret.
  destruct (address_toOutputScript address); simpl; [|discriminate].
  by intros [= ->].
Qed.

Lemma subscribe_each (addresses hashes : list string) (s : Agent.State) :
  is_Some (Agent.connection (Agent.agent s)) ->
  Forall2 (fun a h => ElectrumApi.scriptHash_of a = Ok h) addresses hashes ->
  exists units,
    for_each
      (fun address =>
         let* scriptHash := Agent.call (ElectrumApi.subscribeReceipts address) in
         Agent.modify
           (Agent.with_pending
              (fun p => Agent.set_subscriptions
                          (Agent.subscriptions p ++ [(address, scriptHash)]) p)))
      addresses s
    = (Ok units, Agent.subscribed addresses hashes s).
Proof.
  intros Hc Hall. revert s Hc.
  induction Hall as [|a h addresses hashes Hh Hall IH]; intros s Hc.
  - exists []. simpl. unfold ret, Agent.subscribed. simpl.
    destruct s as [ag [? ? ? ? ? ?] [? ? ? ? ? ? ?]]. unfold_setters.
    by rewrite !app_nil_r.
  - cbn [for_each]. unfold bind at 1 2. unfold Agent.call at 1.
    destruct Hc as [c Hc]. rewrite Hc.
    unfold ElectrumApi.subscribeReceipts at 1. unfold bind at 1.
    rewrite (addressToScriptHash_log _ _ _ Hh).
    unfold bind at 1. unfold request at 1. unfold ret at 1.
    unfold Agent.modify at 1. unfold bind at 1.
    match goal with
    | |- context [for_each ?f addresses ?t] =>
        destruct (IH t) as [units ->]; [simpl; rewrite Hc; by eexists|]
    end.
    eexists. unfold ret. f_equal.
    unfold Agent.subscribed. simpl.
    destruct s as [ag [? ? ? ? ? ?] [? ? ? ? ? ? ?]]. unfold_setters.
    by rewrite <- !app_assoc.
Qed.

Lemma for_each_app_fails {S A B} (f : A -> M S B) (pre : list A) (x : A)
  (post : list A) (ys : list B) (e : Error) (s s1 s2 : S) :
  for_each f pre s = (Ok ys, s1) ->
  f x s1 = (Err e, s2) ->
  for_each f (pre ++ x :: post) s = (Err e, s2).
Proof.
  revert s ys. induction pre as [|y pre IH]; intros s ys; simpl.
  - unfold ret. intros [= <- <-] Hx. unfold bind. by rewrite Hx.
  - intros Hpre Hx. unfold bind in *.
    destruct (f y s) as [[b|e0] s0]; [|discriminate].
    destruct (for_each f pre s0) as [[bs|e0] s3] eqn:E; [|discriminate].
    unfold ret in Hpre. injection Hpre as <- <-.
    by rewrite (IH _ _ E Hx).
Qed.

(** [subscribe] on a synced agent with a connection subscribes the
    addresses one after the other, each with its script hash.  At the
    first address that the library does not decode it fails with the
    error of the library; the addresses before it stay subscribed and the
    addresses after it are not tried. *)
Theorem subscribe_stops_at_the_first_undecodable_address
  (pre : list string) (bad : string) (post hashes : list string)
  (s : Agent.State) :
  Agent.synced (Agent.agent s) = true ->
  is_Some (Agent.connection (Agent.agent s)) ->
  Forall2 (fun a h => ElectrumApi.scriptHash_of a = Ok h) pre hashes ->
  address_toOutputScript bad = None ->
  Agent.subscribe pre s = (Ok tt, Agent.subscribed pre hashes s)
  /\ Agent.subscribe (pre ++ bad :: post) s
     = (Err (LibraryError bad), Agent.subscribed pre hashes s).
Proof.
  intros Hsynced Hc Hall Hbad.
  destruct (subscribe_each pre hashes s Hc Hall) as [units E].
  assert (Agent.require_synced s = (Ok tt, s)) as Hreq
    by (unfold Agent.require_synced; by rewrite Hsynced).
  unfold Agent.subscribe. split.
  - unfold bind at 1. rewrite Hreq. cbv beta iota.
    unfold bind at 1. by rewrite E.
  - unfold bind at 1. rewrite Hreq. cbv beta iota.
    unfold bind at 1.
    erewrite for_each_app_fails; [reflexivity|exact E|].
    unfold bind, Agent.call. destruct Hc as [c Hc]. simpl. rewrite Hc.
    unfold ElectrumApi.subscribeReceipts, ElectrumApi.addressToScriptHash,
      bind, lift. rewrite Hbad. simpl.
    unfold Agent.subscribed. simpl.
    destruct s as [ag [? ? ? ? ? ?] [? ? ? ? ? ? ?]]. by unfold_setters.
Qed.

(** ** The handshake *)

(** The handshake on a connection, when its timeout does not fire: a
    peer that refuses the protocol version is rejected with "Incompatible
    protocol version" and is not asked for its features; a failing request
    for the features fails the handshake with its error; a peer of another
    genesis hash is rejected with "Wrong genesis hash"; with the expected
    hash the handshake passes. *)
Theorem handshake_checks_version_then_genesis (srv : Server)
  (GENESIS_HASH : string) (s : Agent.State) :
  is_Some (Agent.connection (Agent.agent s)) ->
  let sent_to l :=
    Agent.with_world (fun w => Agent.set_sent (Agent.sent w ++ l) w) s in
  (forall e, srv_version srv = Err e ->
     Agent.handshake srv GENESIS_HASH false s
     = (Err (JsError "Incompatible protocol version"), sent_to [ReqVersion]))
  /\ (forall e, srv_version srv = Ok tt ->
        srv_features_genesis_hash srv = Err e ->
        Agent.handshake srv GENESIS_HASH false s
        = (Err e, sent_to [ReqVersion; ReqFeatures]))
  /\ (forall hash, srv_version srv = Ok tt ->
        srv_features_genesis_hash srv = Ok hash ->
        Agent.handshake srv GENESIS_HASH false s
        = (if bool_decide (hash = GENESIS_HASH) then Ok true
           else Err (JsError "Wrong genesis hash"),
           sent_to [ReqVersion; ReqFeatures])).
Proof.
  intros [c Hc] sent_to. subst sent_to.
  unfold Agent.handshake, Agent.handshake_answers, Agent.call,
    ElectrumApi.setProtocolVersion, ElectrumApi.getFeatures, request.
  repeat split.
  - intros e He. unfold_act. rewrite Hc, He. reflexivity.
  - intros e Hv He. unfold_act. rewrite Hc, Hv. simpl. rewrite Hc, He.
    simpl. unfold_setters. by rewrite <- app_assoc.
  - intros hash Hv Hh. unfold_act. rewrite Hc, Hv. simpl. rewrite Hc, Hh.
    simpl. unfold_setters. rewrite <- app_assoc.
    by destruct (bool_decide (hash = GENESIS_HASH)).
Qed.

(** One call of [sync] on an idle agent with a connection, to a peer that
    accepts the version and reports the expected genesis hash: when the
    connection is established and the handshake answered, the requests
    for the version, the features and the subscription to the headers are
    sent in this order, [handshaking] is reset, the agent is syncing and
    [SYNCING] is fired. *)
Theorem sync_handshakes_then_subscribes_to_headers (srv : Server)
  (GENESIS_HASH : string) (s : Agent.State) :
  is_Some (Agent.connection (Agent.agent s)) ->
  Agent.handshaking (Agent.agent s) = false ->
  Agent.syncing (Agent.agent s) = false ->
  Agent.synced (Agent.agent s) = false ->
  Agent.awaitingConnection (Agent.pending s) = 0%nat ->
  Agent.awaitingHandshake (Agent.pending s) = 0%nat ->
  srv_version srv = Ok tt ->
  srv_features_genesis_hash srv = Ok GENESIS_HASH ->
  Agent.steps s [Agent.CallSync; Agent.ConnectionEstablished;
                 Agent.HandshakeAnswered srv GENESIS_HASH false]
  = Agent.handshaken s.
Proof.
  intros [c Hc] Hh Hsyncing Hsynced Hac Hah Hv Hg.
  unfold Agent.steps, Agent.step. simpl.
  unfold Agent.sync_call at 1. rewrite Hh, Hsyncing, Hsynced, Hc. simpl.
  unfold Agent.sync_connected at 1. simpl. rewrite Hac. unfold_act. rewrite Hc.
  simpl. unfold Agent.sync_handshaken. simpl. rewrite Hah.
  unfold Agent.handshake, Agent.handshake_answers, Agent.call,
    ElectrumApi.setProtocolVersion, ElectrumApi.getFeatures, request,
    Agent.requestHead, Agent.on_connection, ElectrumApi.subscribeHeaders.
  unfold_act. rewrite Hc, Hv. simpl. rewrite Hc, Hg. simpl.
  rewrite bool_decide_eq_true_2 by done. simpl. rewrite Hc. simpl.
  unfold Agent.handshaken.
  destruct s as [ag [? ? ? ? ? ?] [? ? ? ? ? ? ?]]. unfold_setters. simpl in *.
  subst. by rewrite <- !app_assoc.
Qed.


(** ** The stores *)

Lemma stores_grow_refl (s : Agent.State) : Agent.stores_grow s s.
Proof. by split. Qed.

Lemma stores_grow_trans (s1 s2 s3 : Agent.State) :
  Agent.stores_grow s1 s2 -> Agent.stores_grow s2 s3 ->
  Agent.stores_grow s1 s3.
Proof. intros [A1 A2] [B1 B2]. split; intros k Hk; auto. Qed.

Lemma stores_grow_same (s s' : Agent.State) :
  Agent.BlockStore (Agent.world s') = Agent.BlockStore (Agent.world s) ->
  Agent.TransactionStore (Agent.world s')
  = Agent.TransactionStore (Agent.world s) ->
  Agent.stores_grow s s'.
Proof. intros E1 E2. split; intros k Hk; by rewrite ?E1, ?E2. Qed.

Lemma sg_modify (f : Agent.State -> Agent.State) :
  (forall s, Agent.stores_grow s (f s)) ->
  Agent.Sat Agent.stores_grow (Agent.modify f).
Proof. intros Hf s. apply Hf. Qed.

Lemma sg_BlockStore_set (h : Z) (b : PlainBlockHeader) :
  Agent.Sat Agent.stores_grow (Agent.BlockStore_set h b).
Proof.
  intros s. split; intros k Hk; simpl; [|done].
  apply lookup_insert_is_Some. destruct (decide (h = k)); auto.
Qed.

Lemma sg_TransactionStore_set (h : string) (tx : PlainTransaction) :
  Agent.Sat Agent.stores_grow (Agent.TransactionStore_set h tx).
Proof.
  intros s. split; intros k Hk; simpl; [done|].
  apply lookup_insert_is_Some. destruct (decide (h = k)); auto.
Qed.

Lemma sg_on_connection {A} (m : Api A) :
  Agent.Sat Agent.stores_grow (Agent.on_connection m).
Proof.
  intros s. unfold Agent.on_connection.
  destruct (m (Agent.sent (Agent.world s))) as [r log].
  by apply stores_grow_same.
Qed.

Lemma sg_call {A} (m : Api A) : Agent.Sat Agent.stores_grow (Agent.call m).
Proof.
  intros s. unfold Agent.call.
  destruct (Agent.connection (Agent.agent s)); [|apply stores_grow_refl].
  destruct (m (Agent.sent (Agent.world s))) as [r log].
  by apply stores_grow_same.
Qed.

Lemma sg_require_synced : Agent.Sat Agent.stores_grow Agent.require_synced.
Proof.
  intros s. unfold Agent.require_synced.
  destruct (Agent.synced (Agent.agent s)); apply stores_grow_refl.
Qed.

Lemma sg_setTimeout (d k : Z) :
  Agent.Sat Agent.stores_grow (Agent.setTimeout d k).
Proof. intros s. by apply stores_grow_same. Qed.

Lemma sg_setInterval (d : Z) :
  Agent.Sat Agent.stores_grow (Agent.setInterval d).
Proof. intros s. by apply stores_grow_same. Qed.

Ltac sg_leaf :=
  first
    [ apply sg_call
    | apply sg_on_connection
    | apply sg_require_synced
    | apply sg_BlockStore_set
    | apply sg_TransactionStore_set
    | apply sg_setTimeout
    | apply sg_setInterval
    | (apply sg_modify; intros ?; by apply stores_grow_same) ].

Ltac sg :=
  unfold Agent.fire, Agent.logger, Agent.clearTimeout, Agent.clearInterval;
  sat_walk stores_grow_refl stores_grow_trans sg_leaf.

Lemma sg_start_checks (srv : Server) (known : gmap string Receipt)
  (receipts : list Receipt) :
  Agent.Sat Agent.stores_grow (Agent.start_checks srv known receipts).
Proof.
  induction receipts as [|receipt rest IH]; simpl; [sg|].
  destruct (Agent.unchanged known receipt); [exact IH|].
  unfold Agent.block_of_receipt, Agent.getBlockHeader, Agent.start_check.
  sg; exact IH.
Qed.

Lemma sg_onReceipts (srv : Server) (address : string) (receipts : list Receipt) :
  Agent.Sat Agent.stores_grow (Agent.onReceipts srv address receipts).
Proof.
  unfold Agent.onReceipts. sg; first [apply sg_start_checks|idtac].
  unfold Agent.settle, Agent.fire_transaction. sg.
Qed.

Lemma sg_onBlock (srv : Server) (block : PlainBlockHeader) :
  Agent.Sat Agent.stores_grow (Agent.onBlock srv block).
Proof.
  unfold Agent.onBlock, Agent.onBlock_fetched, Agent.onBlock_decide. sg.
Qed.

Lemma sg_ping (srv : Server) (k : Z) :
  Agent.Sat Agent.stores_grow (Agent.ping srv k).
Proof. unfold Agent.ping. sg. Qed.

Lemma sg_close (reason : string) :
  Agent.Sat Agent.stores_grow (Agent.close reason).
Proof. intros s. apply stores_grow_same; by rewrite close_state. Qed.

Lemma sg_run (l : Agent.Label) : Agent.Sat Agent.stores_grow (Agent.run l).
Proof.
  destruct l; simpl.
  - intros s. apply stores_grow_same; unfold Agent.sync_call;
      (destruct (_ || _); [done|]);
      by destruct (Agent.connection (Agent.agent s)).
  - intros s. apply stores_grow_same; unfold Agent.sync_connected;
      (destruct (Agent.awaitingConnection (Agent.pending s)); [done|]);
      unfold_act; by destruct (Agent.connection (Agent.agent s)).
  - intros s. unfold Agent.sync_handshaken.
    destruct (Agent.awaitingHandshake (Agent.pending s)) as [|n];
      [apply stores_grow_refl|].
    revert s.
    apply (sat_bind stores_grow_trans); [sg|]. intros _.
    apply (sat_bind stores_grow_trans).
    { intros s. unfold Agent.handshake.
      assert (Agent.Sat Agent.stores_grow
                (Agent.handshake_answers srv GENESIS_HASH)) as Hm
        by (unfold Agent.handshake_answers; sg).
      specialize (Hm s). by destruct (Agent.handshake_answers srv GENESIS_HASH s). }
    intros _. sg. intros. intros s. unfold Agent.requestHead.
    destruct (Agent.connection (Agent.agent s)); [|apply stores_grow_refl].
    revert s. sg.
  - intros s. destruct (Agent.headSubscriptions (Agent.pending s));
      [apply stores_grow_refl|apply sg_onBlock].
  - intros s. destruct (bool_decide _); [|apply stores_grow_refl].
    revert s. unfold Agent.on_status.
    apply (sat_bind stores_grow_trans); [apply sg_on_connection|].
    intros receipts. apply sg_onReceipts.
  - unfold Agent.subscribe. sg.
  - apply sg_close.
  - intros s. unfold Agent.on_interval.
    destruct (existsb _ _); [apply sg_ping|apply stores_grow_refl].
  - intros s. unfold Agent.on_timeout.
    destruct (List.find _ _) as [[[? ?] k]|]; [|apply stores_grow_refl].
    revert s. apply (sat_bind stores_grow_trans); [sg|].
    intros _. unfold Agent.ping_timeout.
    destruct (k >? 1); [apply sg_close|apply sg_ping].
Qed.

(** No run of the agent removes a header or a transaction from the
    stores: what is stored at a height or under a hash before a sequence
    of runs is still stored there after it (possibly replaced). *)
Theorem agent_never_removes_from_the_stores (ls : list Agent.Label)
  (s : Agent.State) :
  (forall height,
      is_Some (Agent.BlockStore (Agent.world s) !! height) ->
      is_Some (Agent.BlockStore (Agent.world (Agent.steps s ls)) !! height))
  /\ (forall hash,
      is_Some (Agent.TransactionStore (Agent.world s) !! hash) ->
      is_Some (Agent.TransactionStore (Agent.world (Agent.steps s ls)) !! hash)).
Proof.
  change (Agent.stores_grow s (Agent.steps s ls)).
  revert s. induction ls as [|l ls IH]; intros s; simpl.
  - apply stores_grow_refl.
  - eapply stores_grow_trans; [apply (sg_run l s)|apply IH].
Qed.

(** ** The constructor *)

Lemma ports_get_port_for (peer : Agent.AgentPeer) (t : Agent.Transport) :
  Agent.ports_get (ports (Agent.info peer)) (Agent.transportToString t)
  = Agent.port_for peer t.
Proof. by destruct t. Qed.

(** The constructor takes the first transport that can be used among the
    ones it considers: the preferred transport alone when the peer has a
    port for it, and else WSS, SSL and TCP in this order.  A transport can
    be used when the peer has a port for it and, for SSL and TCP, the
    options give a proxy.  When none can be used the constructor throws;
    so it does when the preferred transport has a port and no proxy,
    whatever other ports the peer has. *)
Theorem constructor_takes_the_first_usable_transport
  (NETWORK_NAME Network_MAIN Network_TEST : string)
  (peer : Agent.AgentPeer) (options : Agent.PartialOptions)
  (blocks : gmap Z PlainBlockHeader)
  (transactions : gmap string PlainTransaction) :
  match List.find (Agent.usable peer options) (Agent.candidates peer) with
  | Some t =>
      exists s,
        Agent.constructor NETWORK_NAME Network_MAIN Network_TEST peer options
          blocks transactions = Ok (t, s)
  | None =>
      Agent.constructor NETWORK_NAME Network_MAIN Network_TEST peer options
        blocks transactions = Err Agent.no_transport
  end.
Proof.
  unfold Agent.constructor, Agent.candidates, Agent.enforced. cbv zeta.
  rewrite ?ports_get_port_for.
  destruct (Agent.preferTransport peer) as [[]|];
    rewrite ?ports_get_port_for;
    cbn [Agent.port_for];
    destruct (Agent.truthy_port (tcp (ports (Agent.info peer)))) as [pt|] eqn:Et;
    destruct (Agent.truthy_port (ssl (ports (Agent.info peer)))) as [ps|] eqn:Es;
    destruct (Agent.truthy_port (wss (ports (Agent.info peer)))) as [pw|] eqn:Ew;
    destruct (Agent.truthy_url (Agent.sslProxyUrl (Agent.spread options)))
      as [us|] eqn:Eus;
    destruct (Agent.truthy_url (Agent.tcpProxyUrl (Agent.spread options)))
      as [ut|] eqn:Eut;
    cbn [Agent.allows Agent.is_some List.find];
    unfold Agent.usable; cbn [Agent.port_for];
    rewrite ?Et, ?Es, ?Ew, ?Eus, ?Eut;
    cbn [Agent.is_some andb];
    rewrite ?bool_decide_eq_true_2 by done;
    rewrite ?bool_decide_eq_false_2 by done;
    eauto.
Qed.


(** An agent that the constructor returns uses a transport that the peer
    has a port for, and the preferred one if the peer has a port for
    that.  With WSS the connection goes to the peer itself, without proxy
    and token; with SSL and TCP it goes to the proxy of the options and
    carries the token of the network and the host.  The agent is idle: it
    has sent nothing and fired nothing. *)
Theorem constructor_connects_as_the_transport_needs
  (NETWORK_NAME Network_MAIN Network_TEST : string)
  (peer : Agent.AgentPeer) (options : Agent.PartialOptions)
  (blocks : gmap Z PlainBlockHeader)
  (transactions : gmap string PlainTransaction)
  (t : Agent.Transport) (s : Agent.State) :
  Agent.constructor NETWORK_NAME Network_MAIN Network_TEST peer options
    blocks transactions = Ok (t, s) ->
  exists port c,
    Agent.truthy_port (Agent.port_for peer t) = Some port
    /\ Agent.connection (Agent.agent s) = Some c
    /\ match t with
       | Agent.WSS =>
           Agent.proxy c = false /\ Agent.token c = None
           /\ Agent.endpoint c
              = "wss://" +:+ host (Agent.info peer) +:+ ":" +:+ pretty port
                +:+ "/" +:+ default "" (Agent.wssPath peer)
       | Agent.SSL =>
           Agent.proxy c = true
           /\ Agent.token c
              = Some (Agent.token_of NETWORK_NAME Network_MAIN Network_TEST peer)
           /\ Agent.truthy_url (Agent.sslProxyUrl (Agent.spread options))
              = Some (Agent.endpoint c)
       | Agent.TCP =>
           Agent.proxy c = true
           /\ Agent.token c
              = Some (Agent.token_of NETWORK_NAME Network_MAIN Network_TEST peer)
           /\ Agent.truthy_url (Agent.tcpProxyUrl (Agent.spread options))
              = Some (Agent.endpoint c)
       end
    /\ (forall t', Agent.preferTransport peer = Some t' ->
                   is_Some (Agent.truthy_port (Agent.port_for peer t')) ->
                   t = t')
    /\ Agent.handshaking (Agent.agent s) = false
    /\ Agent.syncing (Agent.agent s) = false
    /\ Agent.synced (Agent.agent s) = false
    /\ Agent.sent (Agent.world s) = []
    /\ Agent.fired (Agent.world s) = [].
Proof.
  unfold Agent.constructor, Agent.enforced. cbv zeta.
  destruct (Agent.preferTransport peer) as [[]|] eqn:Ep;
    rewrite ?ports_get_port_for; cbn [Agent.port_for];
    destruct (Agent.truthy_port (wss (ports (Agent.info peer)))) as [pw|] eqn:Ew;
    destruct (Agent.truthy_port (ssl (ports (Agent.info peer)))) as [ps|] eqn:Es;
    destruct (Agent.truthy_port (tcp (ports (Agent.info peer)))) as [pt|] eqn:Et;
    destruct (Agent.truthy_url (Agent.sslProxyUrl (Agent.spread options)))
      as [us|] eqn:Eus;
    destruct (Agent.truthy_url (Agent.tcpProxyUrl (Agent.spread options)))
      as [ut|] eqn:Eut;
    cbn [Agent.allows];
    rewrite ?bool_decide_eq_true_2 by done;
    rewrite ?bool_decide_eq_false_2 by done;
    intros E; try discriminate E; inversion E; subst; clear E;
    eexists _, _; cbn [Agent.port_for];
    (split; [eassumption|]); (split; [reflexivity|]);
    (split; [by repeat split|]);
    (split;
     [intros t' [= <-] Hsome; cbn [Agent.port_for] in Hsome;
      first [reflexivity
            |rewrite ?Ew, ?Es, ?Et in Hsome; destruct Hsome; discriminate]
     |by repeat split]).
Qed.

End AgentProperties.

(** * Further properties of the calls of [ElectrumApi] *)

Section ApiBehaviour.
Context `{Platform} `{BitcoinLib} `{ElectrumApi.Payments}.

(** ** The sort and the cuts *)

Lemma sort_insert_Permutation {A} (compare : A -> A -> Z) (x : A) (l : list A) :
  sort_insert compare x l ≡ₚ x :: l.
Proof.
  induction l as [|y l IH]; simpl; [reflexivity|].
  destruct (compare x y >? 0); [|reflexivity].
  rewrite IH. apply Permutation_swap.
Qed.

Lemma sort_Permutation {A} (compare : A -> A -> Z) (l : list A) :
  sort compare l ≡ₚ l.
Proof.
  unfold sort. induction l as [|x l IH]; simpl; [reflexivity|].
  rewrite sort_insert_Permutation. by rewrite IH.
Qed.

Lemma slice0_is_prefix {A} (l : list A) (n : Z) : slice0 l n `prefix_of` l.
Proof. unfold slice0. apply prefix_take. Qed.

Lemma findIndex_from_split {A} (p : A -> bool) (l : list A) (i : Z) :
  (Forall (fun x => p x = false) l /\ findIndex_from p l i = -1)
  \/ exists pre x post,
       l = pre ++ x :: post /\ Forall (fun y => p y = false) pre /\ p x = true
       /\ findIndex_from p l i = i + Z.of_nat (length pre).
Proof.
  revert i. induction l as [|y l IH]; intros i; simpl.
  - left. by split.
  - destruct (p y) eqn:Hy.
    + right. exists [], y, l. simpl. repeat split; [constructor|done|lia].
    + destruct (IH (i + 1)) as [[Hall E]|(pre & x & post & -> & Hpre & Hx & E)].
      * left. split; [by constructor|done].
      * right. exists (y :: pre), x, post. simpl.
        repeat split; [by constructor|done|lia].
Qed.

(** ** The peer list *)

Lemma peer_meta_cases (testnet : bool) (p : Peer) (a : ascii) (rest : string) :
  ElectrumApi.peer_meta testnet p (String a rest)
  = {| ip := ip p; host := host p;
       p_version := if Ascii.eqb a "v" then rest else p_version p;
       pruningLimit := if Ascii.eqb a "p" then Number_parseInt rest
                       else pruningLimit p;
       ports := {|
         tcp := if Ascii.eqb a "t"
                then ElectrumApi.port_of testnet rest 50001 60001
                else tcp (ports p);
         ssl := if Ascii.eqb a "s"
                then ElectrumApi.port_of testnet rest 50002 60002
                else ssl (ports p);
         wss := if Ascii.eqb a "w"
                then ElectrumApi.port_of testnet rest 50004 60004
                else wss (ports p) |} |}.
Proof.
  destruct p as [i h v pl [t s w]].
  destruct a as [[] [] [] [] [] [] [] []]; reflexivity.
Qed.

Lemma last_feature_snoc (c : ascii) (metas : list string) (meta : string) :
  ElectrumApi.last_feature c (metas ++ [meta])
  = match ElectrumApi.feature_rest c meta with
    | Some rest => Some rest
    | None => ElectrumApi.last_feature c metas
    end.
Proof.
  unfold ElectrumApi.last_feature. rewrite omap_app. simpl.
  destruct (ElectrumApi.feature_rest c meta) as [rest|]; simpl.
  - apply last_snoc.
  - by rewrite app_nil_r.
Qed.

(** The peer that [getPeers] makes of an entry of the peer list keeps the
    address and the host as they are, and takes each of the other fields
    from the last feature that starts with its letter: the version from
    the last [v] feature (the empty string when there is none), the
    pruning limit from the last [p] feature, and each port from the last
    [t], [s] or [w] feature, where an empty port stands for the default
    port of the network.  A feature with another first letter, and the
    empty feature, change nothing. *)
Theorem peer_of_last_feature (testnet : bool) (ip0 host0 : string)
  (metas : list string) :
  ElectrumApi.peer_of testnet (ip0, host0, metas)
  = {| ip := ip0; host := host0;
       p_version := default "" (ElectrumApi.last_feature "v" metas);
       pruningLimit := ElectrumApi.last_feature "p" metas ≫= Number_parseInt;
       ports := {|
         tcp := ElectrumApi.last_feature "t" metas
                ≫= (fun rest => ElectrumApi.port_of testnet rest 50001 60001);
         ssl := ElectrumApi.last_feature "s" metas
                ≫= (fun rest => ElectrumApi.port_of testnet rest 50002 60002);
         wss := ElectrumApi.last_feature "w" metas
                ≫= (fun rest => ElectrumApi.port_of testnet rest 50004 60004) |} |}.
Proof.
  induction metas as [|meta metas IH] using rev_ind; [reflexivity|].
  unfold ElectrumApi.peer_of in *. rewrite fold_left_app. cbn [fold_left].
  rewrite IH. rewrite !last_feature_snoc. clear IH.
  destruct meta as [|a rest]; [reflexivity|].
  rewrite peer_meta_cases. cbn [ElectrumApi.feature_rest ip host p_version pruningLimit ports tcp ssl wss].
  destruct (Ascii.eqb a "v"), (Ascii.eqb a "p"), (Ascii.eqb a "t"),
    (Ascii.eqb a "s"), (Ascii.eqb a "w"); reflexivity.
Qed.


(** ** Decoding a transaction *)

Lemma all_ok_imap_inv {A B} (f : nat -> A -> Result B) (l : list A)
  (ys : list B) :
  all_ok (imap f l) = Ok ys ->
  length ys = length l
  /\ forall k y, ys !! k = Some y ->
       exists x, l !! k = Some x /\ f k x = Ok y.
Proof.
  revert f ys. induction l as [|x l IH]; intros f ys.
  - intros [= <-]. split; [reflexivity|]. intros k y Hk.
    by rewrite lookup_nil in Hk.
  - rewrite imap_cons. cbn [all_ok].
    destruct (f 0%nat x) as [y0|e] eqn:E0; [|discriminate].
    destruct (all_ok (imap (f ∘ S) l)) as [ys'|e] eqn:E; [|discriminate].
    intros [= <-]. destruct (IH _ _ E) as [Hlen Hk].
    split; [simpl; by rewrite Hlen|].
    intros [|k] y Hy; simpl in Hy.
    + injection Hy as <-. by exists x.
    + exact (Hk k y Hy).
Qed.

Lemma all_ok_imap_pass {A B} (f : nat -> A -> Result B) (l : list A) :
  (forall k x, l !! k = Some x -> is_ok (f k x) = true) ->
  exists ys, all_ok (imap f l) = Ok ys.
Proof.
  revert f. induction l as [|x l IH]; intros f Hall; [by exists []|].
  rewrite imap_cons. cbn [all_ok].
  pose proof (Hall 0%nat x eq_refl) as Hx.
  destruct (f 0%nat x) as [y0|e]; [|discriminate].
  destruct (IH (f ∘ S)) as [ys ->]; [|by eexists].
  intros k x' Hk. exact (Hall (S k) x' Hk).
Qed.

Lemma all_ok_imap_fail {A B} (f : nat -> A -> Result B) (pre : list A)
  (bad : A) (post : list A) (e : Error) :
  (forall k x, pre !! k = Some x -> is_ok (f k x) = true) ->
  f (length pre) bad = Err e ->
  all_ok (imap f (pre ++ bad :: post)) = Err e.
Proof.
  revert f. induction pre as [|x pre IH]; intros f Hall Hbad.
  - simpl in *. by rewrite Hbad.
  - rewrite <- app_comm_cons, imap_cons. cbn [all_ok].
    pose proof (Hall 0%nat x eq_refl) as Hx.
    destruct (f 0%nat x) as [y0|e0]; [|discriminate].
    rewrite (IH (f ∘ S)); [reflexivity| |exact Hbad].
    intros k x' Hk. exact (Hall (S k) x' Hk).
Qed.

Lemma inputToPlain_ok (input : TxInput) (k : nat) :
  is_ok (ElectrumApi.inputToPlain input k)
  = is_ok (ElectrumApi.input_address input).
Proof.
  unfold ElectrumApi.inputToPlain.
  by destruct (ElectrumApi.input_address input).
Qed.

Lemma inputToPlain_err (input : TxInput) (k : nat) (e : Error) :
  ElectrumApi.input_address input = Err e ->
  ElectrumApi.inputToPlain input k = Err e.
Proof. intros E. unfold ElectrumApi.inputToPlain. by rewrite E. Qed.

Lemma inputToPlain_sequence (input : TxInput) (k : nat) (i : PlainInput) :
  ElectrumApi.inputToPlain input k = Ok i ->
  i_sequence i = in_sequence input /\ i_index i = k
  /\ i_outputIndex i = in_index input
  /\ i_script i = bytesToHex (in_script input).
Proof.
  unfold ElectrumApi.inputToPlain.
  destruct (ElectrumApi.input_address input); [|discriminate].
  by intros [= <-].
Qed.

Lemma outputToPlain_ok (o : TxOutput) (k : nat) :
  is_ok (ElectrumApi.outputToPlain o k) = true
  <-> is_Some (address_fromOutputScript (out_script o)).
Proof.
  unfold ElectrumApi.outputToPlain.
  destruct (address_fromOutputScript (out_script o)); simpl.
  - split; [by eexists|done].
  - split; [done|by intros [? ?]].
Qed.

Lemma all_ok_imap_err {A B} (f : nat -> A -> Result B) (l : list A)
  (e : Error) :
  all_ok (imap f l) = Err e -> exists k x, l !! k = Some x /\ f k x = Err e.
Proof.
  revert f. induction l as [|x l IH]; intros f; [discriminate|].
  rewrite imap_cons. cbn [all_ok].
  destruct (f 0%nat x) as [y0|e0] eqn:E0.
  - destruct (all_ok (imap (f ∘ S) l)) as [ys|e1] eqn:E; [discriminate|].
    intros [= <-]. destruct (IH _ E) as (k & x' & Hk & Hx).
    by exists (S k), x'.
  - intros [= <-]. by exists 0%nat, x.
Qed.

Lemma all_ok_outputs_fail (l : list TxOutput) :
  ~ Forall (fun o => is_Some (address_fromOutputScript (out_script o))) l ->
  all_ok (imap (fun k o => ElectrumApi.outputToPlain o k) l)
  = Err (LibraryError "no matching Address").
Proof.
  intros Hall.
  destruct (all_ok (imap (fun k o => ElectrumApi.outputToPlain o k) l))
    as [outs|e] eqn:E.
  - exfalso. apply Hall. apply Forall_lookup. intros k o Ho.
    destruct (all_ok_imap_inv _ _ _ E) as [Hlen Hk].
    destruct (outs !! k) as [p|] eqn:Hp.
    + destruct (Hk k p Hp) as (o' & Ho' & Hok). rewrite Ho in Ho'.
      injection Ho' as <-. apply (outputToPlain_ok o k). by rewrite Hok.
    + apply lookup_ge_None in Hp. apply lookup_lt_Some in Ho. lia.
  - destruct (all_ok_imap_err _ _ _ E) as (k & o & _ & Ho). revert Ho.
    unfold ElectrumApi.outputToPlain.
    destruct (address_fromOutputScript (out_script o)); [discriminate|].
    by intros [= <-].
Qed.

Lemma outputToPlain_fields (out : TxOutput) (k : nat) (o : PlainOutput) :
  ElectrumApi.outputToPlain out k = Ok o ->
  o_index o = k /\ o_value o = out_value out
  /\ o_script o = bytesToHex (out_script out)
  /\ address_fromOutputScript (out_script out) = Some (o_address o).
Proof.
  unfold ElectrumApi.outputToPlain.
  destruct (address_fromOutputScript (out_script out)); [|discriminate].
  by intros [= <-].
Qed.

Lemma attach_block_kept (plain : PlainTransaction)
  (plainHeader : option PlainBlockHeader) :
  let tx := ElectrumApi.attach_block plain plainHeader in
  t_transactionHash tx = t_transactionHash plain
  /\ t_inputs tx = t_inputs plain
  /\ t_outputs tx = t_outputs plain
  /\ t_replaceByFee tx = t_replaceByFee plain.
Proof. by destruct plainHeader. Qed.

(** A raw transaction that the library decodes is converted exactly when
    [deriveAddressFromInput] returns for every input and the library has
    an address for the script of every output.  Then the plain
    transaction has the identifier of the transaction and one input and
    one output for each of its inputs and outputs, in order and numbered
    from [0], each output with the value, the script and the address of
    its output.  The inputs come first: when [deriveAddressFromInput]
    throws for an input and returns for the inputs before it, the
    conversion throws the same, whatever the outputs are.  When it
    returns for every input and some output script has no address, the
    conversion fails with the error of the library.  All of this with or
    without a block header. *)
Theorem transactionToPlain_needs_every_input_and_output (raw : string)
  (plainHeader : option PlainBlockHeader) (tx : Transaction) :
  Transaction_fromHex raw = Some tx ->
  let returns := fun input => is_ok (ElectrumApi.input_address input) = true in
  let has_address :=
    fun o => is_Some (address_fromOutputScript (out_script o)) in
  (is_ok (ElectrumApi.transactionToPlain raw plainHeader) = true
   <-> Forall returns (tx_ins tx) /\ Forall has_address (tx_outs tx))
  /\ (forall plain,
        ElectrumApi.transactionToPlain raw plainHeader = Ok plain ->
        t_transactionHash plain = Transaction_getId tx
        /\ length (t_inputs plain) = length (tx_ins tx)
        /\ length (t_outputs plain) = length (tx_outs tx)
        /\ (forall k i, t_inputs plain !! k = Some i ->
              exists input, tx_ins tx !! k = Some input
                /\ ElectrumApi.inputToPlain input k = Ok i)
        /\ (forall k o, t_outputs plain !! k = Some o ->
              o_index o = k
              /\ exists out, tx_outs tx !! k = Some out
                   /\ o_value o = out_value out
                   /\ o_script o = bytesToHex (out_script out)
                   /\ address_fromOutputScript (out_script out)
                      = Some (o_address o)))
  /\ (forall pre bad post e,
        tx_ins tx = pre ++ bad :: post ->
        Forall returns pre ->
        ElectrumApi.input_address bad = Err e ->
        ElectrumApi.transactionToPlain raw plainHeader = Err e)
  /\ (Forall returns (tx_ins tx) -> ~ Forall has_address (tx_outs tx) ->
      ElectrumApi.transactionToPlain raw plainHeader
      = Err (LibraryError "no matching Address")).
Proof.
  intros Hraw returns has_address.
  assert (forall plain,
        ElectrumApi.transactionToPlain raw plainHeader = Ok plain ->
        exists ins outs,
          all_ok (imap (fun k i => ElectrumApi.inputToPlain i k) (tx_ins tx))
          = Ok ins
          /\ all_ok (imap (fun k o => ElectrumApi.outputToPlain o k) (tx_outs tx))
             = Ok outs
          /\ t_inputs plain = ins /\ t_outputs plain = outs
          /\ t_transactionHash plain = Transaction_getId tx) as Hshape.
  { intros plain. unfold ElectrumApi.transactionToPlain. rewrite Hraw.
    destruct (all_ok (imap _ (tx_ins tx))) as [ins|e]; [|discriminate].
    destruct (all_ok (imap _ (tx_outs tx))) as [outs|e]; [|discriminate].
    intros [= <-]. exists ins, outs.
    match goal with
    | |- context [ElectrumApi.attach_block ?p _] =>
        destruct (attach_block_kept p plainHeader) as (-> & -> & -> & _)
    end.
    by repeat split. }
  assert (forall pre bad post e,
        tx_ins tx = pre ++ bad :: post ->
        Forall returns pre ->
        ElectrumApi.input_address bad = Err e ->
        ElectrumApi.transactionToPlain raw plainHeader = Err e) as Hinput.
  { intros pre bad post e Hins Hpre Hbad.
    unfold ElectrumApi.transactionToPlain. rewrite Hraw, Hins.
    rewrite (all_ok_imap_fail _ pre bad post e); [reflexivity| |].
    - intros k x Hk. rewrite inputToPlain_ok.
      by apply (proj1 (Forall_lookup _ _) Hpre k).
    - by apply inputToPlain_err. }
  assert (Forall returns (tx_ins tx) ->
          exists ins,
            all_ok (imap (fun k i => ElectrumApi.inputToPlain i k) (tx_ins tx))
            = Ok ins) as Hins.
  { intros Hall. apply all_ok_imap_pass. intros k x Hk.
    rewrite inputToPlain_ok. by apply (proj1 (Forall_lookup _ _) Hall k). }
  assert (Forall returns (tx_ins tx) -> ~ Forall has_address (tx_outs tx) ->
      ElectrumApi.transactionToPlain raw plainHeader
      = Err (LibraryError "no matching Address")) as Houtput.
  { intros Hall Hnot. destruct (Hins Hall) as [ins Eins].
    unfold ElectrumApi.transactionToPlain. rewrite Hraw, Eins.
    by rewrite (all_ok_outputs_fail _ Hnot). }
  split; [|split; [|split; [exact Hinput|exact Houtput]]].
  - split.
    + destruct (ElectrumApi.transactionToPlain raw plainHeader) as [plain|e]
        eqn:E; [intros _|discriminate].
      destruct (Hshape plain eq_refl) as (ins & outs & Ei & Eo & _).
      destruct (all_ok_imap_inv _ _ _ Ei) as [Hli Hki].
      destruct (all_ok_imap_inv _ _ _ Eo) as [Hlo Hko].
      split; apply Forall_lookup.
      * intros k input Hk. unfold returns.
        destruct (ins !! k) as [i|] eqn:Hi.
        -- destruct (Hki k i Hi) as (input' & Hk' & Hok). rewrite Hk in Hk'.
           injection Hk' as <-. rewrite <- (inputToPlain_ok input k).
           by rewrite Hok.
        -- apply lookup_ge_None in Hi. apply lookup_lt_Some in Hk. lia.
      * intros k out Hk. unfold has_address.
        destruct (outs !! k) as [o|] eqn:Ho.
        -- destruct (Hko k o Ho) as (out' & Hk' & Hok). rewrite Hk in Hk'.
           injection Hk' as <-. apply (outputToPlain_ok out k). by rewrite Hok.
        -- apply lookup_ge_None in Ho. apply lookup_lt_Some in Hk. lia.
    + intros [Hall Hout]. destruct (Hins Hall) as [ins Eins].
      destruct (all_ok_imap_pass (fun k o => ElectrumApi.outputToPlain o k)
                  (tx_outs tx)) as [outs Eouts].
      { intros k o Hk. apply outputToPlain_ok.
        by apply (proj1 (Forall_lookup _ _) Hout k). }
      unfold ElectrumApi.transactionToPlain. by rewrite Hraw, Eins, Eouts.
  - intros plain Hplain.
    destruct (Hshape plain Hplain) as (ins & outs & Ei & Eo & -> & -> & ->).
    destruct (all_ok_imap_inv _ _ _ Ei) as [Hli Hki].
    destruct (all_ok_imap_inv _ _ _ Eo) as [Hlo Hko].
    split; [reflexivity|]. split; [exact Hli|]. split; [exact Hlo|].
    split; [exact Hki|].
    intros k o Ho. destruct (Hko k o Ho) as (out & Hout & Hok).
    destruct (outputToPlain_fields _ _ _ Hok) as (Hi & Hv & Hs & Ha).
    split; [exact Hi|]. by exists out.
Qed.

(** A converted transaction signals replace-by-fee exactly when one of its
    inputs has a sequence number below [0xfffffffe]. *)
Theorem replaceByFee_iff_low_sequence (raw : string)
  (plainHeader : option PlainBlockHeader) (tx : Transaction)
  (plain : PlainTransaction) :
  Transaction_fromHex raw = Some tx ->
  ElectrumApi.transactionToPlain raw plainHeader = Ok plain ->
  t_replaceByFee plain = true
  <-> exists input, input ∈ tx_ins tx /\ in_sequence input < 4294967294.
Proof.
  intros Hraw. unfold ElectrumApi.transactionToPlain. rewrite Hraw.
  destruct (all_ok (imap _ (tx_ins tx))) as [ins|e] eqn:Ei; [|discriminate].
  destruct (all_ok (imap _ (tx_outs tx))) as [outs|e]; [|discriminate].
  intros [= <-].
  match goal with
  | |- context [ElectrumApi.attach_block ?p _] =>
      destruct (attach_block_kept p plainHeader) as (_ & _ & _ & ->)
  end.
  destruct (all_ok_imap_inv _ _ _ Ei) as [Hlen Hk].
  simpl. rewrite existsb_exists. split.
  - intros (i & Hin & Hseq). apply list_elem_of_In in Hin.
    apply list_elem_of_lookup in Hin as [k Hi].
    destruct (Hk k i Hi) as (input & Hinput & Hok).
    apply inputToPlain_sequence in Hok as (Hs & _).
    exists input. split; [by eapply list_elem_of_lookup_2|].
    rewrite <- Hs. by apply Z.ltb_lt in Hseq.
  - intros (input & Hin & Hseq). apply list_elem_of_lookup in Hin as [k Hinput].
    destruct (ins !! k) as [i|] eqn:Hi.
    + destruct (Hk k i Hi) as (input' & Hinput' & Hok).
      rewrite Hinput in Hinput'. injection Hinput' as <-.
      apply inputToPlain_sequence in Hok as (Hs & _).
      exists i. split.
      * apply list_elem_of_In. by eapply list_elem_of_lookup_2.
      * rewrite Hs. by apply Z.ltb_lt.
    + apply lookup_ge_None in Hi. apply lookup_lt_Some in Hinput. lia.
Qed.


(** ** An address that the library does not decode *)

(** For an address that the library does not decode, [getBalance],
    [getReceipts], [subscribeReceipts] and [getHistory] fail with the
    error of the library before anything is sent: the log of the requests
    is as it was. *)
Theorem undecodable_address_sends_nothing (srv : Server) (address : string)
  (log : list Request) :
  address_toOutputScript address = None ->
  ElectrumApi.getBalance srv address log = (Err (LibraryError address), log)
  /\ ElectrumApi.getReceipts srv address false log
     = (Err (LibraryError address), log)
  /\ ElectrumApi.subscribeReceipts address log
     = (Err (LibraryError address), log)
  /\ (forall since known limit,
        ElectrumApi.getHistory srv address since known limit log
        = (Err (LibraryError address), log)).
Proof.
  intros Hno.
  assert (ElectrumApi.addressToScriptHash address log
          = (Err (LibraryError address), log)) as E.
  { unfold ElectrumApi.addressToScriptHash, bind, lift. by rewrite Hno. }
  assert (ElectrumApi.getReceipts srv address false log
          = (Err (LibraryError address), log)) as R.
  { unfold ElectrumApi.getReceipts. unfold bind at 1 2. by rewrite E. }
  split; [|split; [exact R|split]].
  - unfold ElectrumApi.getBalance, bind. by rewrite E.
  - unfold ElectrumApi.subscribeReceipts. unfold bind at 1. by rewrite E.
  - intros since known limit. unfold ElectrumApi.getHistory, bind. by rewrite R.
Qed.

(** ** The loop of [getHistory] *)

Lemma fetch_one_ok (srv : Server) (receipt : Receipt)
  (blockHeaders : gmap Z PlainBlockHeader) (txs : list PlainTransaction)
  (log : list Request) :
  exists exit log',
    ElectrumApi.fetch_one srv receipt blockHeaders txs log = (Ok exit, log')
    /\ match exit with
       | ElectrumApi.Continue _ txs' | ElectrumApi.Return txs' =>
           txs' = txs \/ exists tx, txs' = txs ++ [tx]
       end.
Proof.
  unfold ElectrumApi.fetch_one, try_catch, bind, ret.
  destruct (ElectrumApi.header_for srv blockHeaders (r_blockHeight receipt) log)
    as [[hb|e] log1].
  - destruct (ElectrumApi.getTransaction srv (r_transactionHash receipt)
                (header_arg (fst hb)) log1) as [[tx|e] log2].
    + eexists _, _. split; [reflexivity|]. right. by exists tx.
    + eexists _, _. split; [reflexivity|]. by left.
  - eexists _, _. split; [reflexivity|]. by left.
Qed.

Lemma fetch_transactions_ok (srv : Server) (knownTxs : gmap string Receipt)
  (history : list Receipt) (blockHeaders : gmap Z PlainBlockHeader)
  (txs : list PlainTransaction) (log : list Request) :
  exists txs' log',
    ElectrumApi.fetch_transactions srv knownTxs history blockHeaders txs log
    = (Ok txs', log')
    /\ (length txs' <= length txs + length history)%nat.
Proof.
  revert blockHeaders txs log.
  induction history as [|receipt rest IH]; intros blockHeaders txs log; simpl.
  - exists txs, log. split; [reflexivity|lia].
  - destruct (ElectrumApi.is_known knownTxs receipt).
    + destruct (IH blockHeaders txs log) as (txs' & log' & E & Hlen).
      exists txs', log'. split; [exact E|lia].
    + destruct (fetch_one_ok srv receipt blockHeaders txs log)
        as (exit & log1 & E1 & Hexit).
      unfold bind. rewrite E1. destruct exit as [blockHeaders' txs1|txs1].
      * destruct (IH blockHeaders' txs1 log1) as (txs' & log' & E & Hlen).
        exists txs', log'. split; [exact E|].
        destruct Hexit as [->|[tx ->]]; [lia|]. rewrite length_app in Hlen.
        simpl in Hlen. lia.
      * exists txs1, log1. split; [reflexivity|].
        destruct Hexit as [->|[tx ->]]; [lia|]. rewrite length_app. simpl. lia.
Qed.

(** [getHistory] fails exactly when its call of [getReceipts] fails, and
    then with the same error and the same requests sent.  Once the
    receipts are there, every failure of a header or of a transaction is
    caught in the loop, and the call returns a list. *)
Theorem getHistory_fails_only_with_getReceipts (srv : Server)
  (address : string) (since : Z) (known : list Receipt) (limit : option Z)
  (log : list Request) :
  (forall e,
      fst (ElectrumApi.getHistory srv address since known limit log) = Err e
      <-> fst (ElectrumApi.getReceipts srv address false log) = Err e)
  /\ (forall e,
      fst (ElectrumApi.getReceipts srv address false log) = Err e ->
      ElectrumApi.getHistory srv address since known limit log
      = (Err e, snd (ElectrumApi.getReceipts srv address false log))).
Proof.
  unfold ElectrumApi.getHistory, bind.
  destruct (ElectrumApi.getReceipts srv address false log) as [[history|e0] log1];
    simpl.
  - destruct (fetch_transactions_ok srv (receipts_by_hash known)
                (ElectrumApi.history_to_fetch since limit history) ∅ [] log1)
      as (txs & log' & -> & _).
    simpl. split; [|discriminate]. intros e. by split.
  - split; [intros e; split; by intros [= ->]|]. by intros e [= ->].
Qed.

Lemma slice0_length {A} (l : list A) (n : Z) :
  0 <= n -> Z.of_nat (length (slice0 l n)) <= n.
Proof.
  intros Hn. unfold slice0.
  replace (n <? 0) with false by (symmetry; apply Z.ltb_ge; lia).
  rewrite length_take. lia.
Qed.

Lemma slice0_shorter {A} (l : list A) (n : Z) :
  (length (slice0 l n) <= length l)%nat.
Proof. unfold slice0. rewrite length_take. lia. Qed.

Lemma history_to_fetch_shorter (since : Z) (limit : option Z)
  (receipts : list Receipt) :
  (length (ElectrumApi.history_to_fetch since limit receipts)
   <= length (ElectrumApi.sorted_history limit receipts))%nat.
Proof.
  unfold ElectrumApi.history_to_fetch.
  destruct (since >? 0); [apply slice0_shorter|lia].
Qed.

(** With a limit that is not negative, [getHistory] returns at most that
    many transactions. *)
Theorem getHistory_returns_at_most_limit (srv : Server) (address : string)
  (since : Z) (known : list Receipt) (n : Z) (log log' : list Request)
  (txs : list PlainTransaction) :
  0 <= n ->
  ElectrumApi.getHistory srv address since known (Some n) log = (Ok txs, log') ->
  Z.of_nat (length txs) <= n.
Proof.
  intros Hn. unfold ElectrumApi.getHistory, bind.
  destruct (ElectrumApi.getReceipts srv address false log) as [[history|e0] log1];
    [|discriminate].
  destruct (fetch_transactions_ok srv (receipts_by_hash known)
              (ElectrumApi.history_to_fetch since (Some n) history) ∅ [] log1)
    as (txs' & log'' & -> & Hlen).
  intros [= <- <-].
  pose proof (history_to_fetch_shorter since (Some n) history) as Hs.
  pose proof (slice0_length (sort ElectrumApi.by_height_desc history) n Hn) as Hl.
  unfold ElectrumApi.sorted_history in Hs. simpl in Hlen. lia.
Qed.


(** ** What the loop of [getHistory] goes through *)

Lemma history_to_fetch_subset (since : Z) (limit : option Z)
  (receipts : list Receipt) (r : Receipt) :
  r ∈ ElectrumApi.history_to_fetch since limit receipts -> r ∈ receipts.
Proof.
  intros Hr.
  assert (r ∈ ElectrumApi.sorted_history limit receipts) as Hs.
  { unfold ElectrumApi.history_to_fetch in Hr.
    destruct (since >? 0); [|exact Hr].
    eapply elem_of_prefix; [exact Hr|apply slice0_is_prefix]. }
  unfold ElectrumApi.sorted_history in Hs.
  rewrite <- (sort_Permutation ElectrumApi.by_height_desc receipts).
  destruct limit as [n|]; [|exact Hs].
  eapply elem_of_prefix; [exact Hs|apply slice0_is_prefix].
Qed.

Lemma fetch_transactions_known (srv : Server) (knownTxs : gmap string Receipt)
  (history : list Receipt) (blockHeaders : gmap Z PlainBlockHeader)
  (txs : list PlainTransaction) (log : list Request) :
  Forall (fun r => ElectrumApi.is_known knownTxs r = true) history ->
  ElectrumApi.fetch_transactions srv knownTxs history blockHeaders txs log
  = (Ok txs, log).
Proof.
  induction 1 as [|r history Hr _ IH]; simpl; [reflexivity|]. by rewrite Hr.
Qed.

(** When the known receipts passed to [getHistory] are the receipts that
    the peer now has for the address, with distinct transaction hashes and
    no negative height, every receipt is skipped: the call returns the
    empty list and sends the history request only. *)
Theorem getHistory_of_known_history_fetches_nothing (srv : Server)
  (address scriptHash : string) (since : Z) (limit : option Z)
  (entries : list HistoryEntry) (log : list Request) :
  fst (ElectrumApi.addressToScriptHash address log) = Ok scriptHash ->
  srv_get_history srv scriptHash = Ok entries ->
  NoDup (map tx_hash entries) ->
  Forall (fun e => 0 <= height e) entries ->
  ElectrumApi.getHistory srv address since
    (map ElectrumApi.receipt_of_entry entries) limit log
  = (Ok [], log ++ [ReqGetHistory scriptHash]).
Proof.
  intros Hsh Hans Hnd Hpos.
  assert (ElectrumApi.getReceipts srv address false log
          = (Ok (map ElectrumApi.receipt_of_entry entries),
             log ++ [ReqGetHistory scriptHash])) as R.
  { unfold ElectrumApi.getReceipts, bind, request, ret.
    unfold ElectrumApi.addressToScriptHash, bind, lift, ret in *.
    destruct (address_toOutputScript address); simpl in *; [|discriminate].
    injection Hsh as ->. by rewrite Hans. }
  unfold ElectrumApi.getHistory, bind. rewrite R.
  apply fetch_transactions_known. apply Forall_forall. intros r Hr.
  apply history_to_fetch_subset in Hr.
  unfold ElectrumApi.is_known, receipts_by_hash.
  rewrite receipts_by_hash_member; [| |exact Hr].
  - apply bool_decide_eq_true.
    apply list_elem_of_fmap in Hr as (e & -> & He).
    rewrite Forall_forall in Hpos. specialize (Hpos e He). simpl. lia.
  - by rewrite <- list_fmap_compose.
Qed.

(** With a positive [sinceBlockHeight], the receipts that the loop of
    [getHistory] goes through are a prefix of the sorted history, and
    none of them has a height strictly between [0] and
    [sinceBlockHeight]. *)
Theorem getHistory_fetches_nothing_unwanted (since : Z) (limit : option Z)
  (receipts : list Receipt) :
  since > 0 ->
  Forall (fun r => ~ (0 < r_blockHeight r < since))
         (ElectrumApi.history_to_fetch since limit receipts)
  /\ ElectrumApi.history_to_fetch since limit receipts
     `prefix_of` ElectrumApi.sorted_history limit receipts.
Proof.
  intros Hs. unfold ElectrumApi.history_to_fetch.
  replace (since >? 0) with true by (symmetry; apply Z.gtb_lt; lia).
  split; [|apply slice0_is_prefix].
  set (history := ElectrumApi.sorted_history limit receipts).
  unfold findIndex.
  destruct (findIndex_from_split (ElectrumApi.unwanted since) history 0)
    as [[Hall ->]|(pre & x & post & E & Hpre & Hx & ->)].
  - eapply Forall_impl with (P := fun r => ElectrumApi.unwanted since r = false).
    + apply Forall_forall. intros r Hr.
      rewrite Forall_forall in Hall. apply Hall.
      eapply elem_of_prefix; [exact Hr|apply slice0_is_prefix].
    + intros r Hr Hbad. apply unwanted_spec in Hbad. congruence.
  - rewrite E, Z.add_0_l, slice0_prefix.
    eapply Forall_impl; [exact Hpre|].
    intros r Hr Hbad. apply unwanted_spec in Hbad. congruence.
Qed.

(** ** The headers that [getHistory] requests *)

Lemma header_requests_app (h : Z) (l1 l2 : list Request) :
  ElectrumApi.header_requests h (l1 ++ l2)
  = (ElectrumApi.header_requests h l1 + ElectrumApi.header_requests h l2)%nat.
Proof. unfold ElectrumApi.header_requests. by rewrite filter_app, length_app. Qed.

Lemma header_requests_other (h : Z) (r : Request) :
  r <> ReqBlockHeader h -> ElectrumApi.header_requests h [r] = 0%nat.
Proof.
  intros Hr. unfold ElectrumApi.header_requests. rewrite filter_cons.
  by rewrite decide_False.
Qed.

Lemma header_requests_self (h : Z) : ElectrumApi.header_requests h [ReqBlockHeader h] = 1%nat.
Proof.
  unfold ElectrumApi.header_requests. rewrite filter_cons. by rewrite decide_True.
Qed.

Lemma getTransaction_requests_no_header (srv : Server) (hash : string)
  (o : option PlainBlockHeader) (h : Z) (log : list Request) :
  ElectrumApi.header_requests h
    (snd (ElectrumApi.getTransaction srv hash (header_arg o) log))
  = ElectrumApi.header_requests h log.
Proof.
  unfold ElectrumApi.getTransaction, ElectrumApi.getTransactionMerkleRoot,
    bind, ret, request, throw, lift.
  destruct o as [b|]; simpl.
  - destruct (srv_get_merkle srv hash (h_blockHeight b)) as [proof|e]; simpl.
    + destruct (bool_decide _); simpl.
      * destruct (srv_transaction_get srv hash); simpl;
          rewrite !header_requests_app, !header_requests_other by discriminate;
          lia.
      * rewrite !header_requests_app, !header_requests_other by discriminate. lia.
    + rewrite !header_requests_app, !header_requests_other by discriminate. lia.
  - destruct (srv_transaction_get srv hash); simpl;
      rewrite !header_requests_app, !header_requests_other by discriminate; lia.
Qed.

(** The inner [try] of a turn of the loop asks for no header. *)
Lemma fetch_one_inner (srv : Server) (receipt : Receipt)
  (o : option PlainBlockHeader) (cache : gmap Z PlainBlockHeader)
  (txs : list PlainTransaction) (h : Z) (log1 : list Request) :
  exists txs' log2,
    try_catch
      (let* tx := ElectrumApi.getTransaction srv (r_transactionHash receipt)
                    (header_arg o) in
       ret (ElectrumApi.Continue cache (txs ++ [tx])))
      (fun _ => ret (ElectrumApi.Continue cache txs)) log1
    = (Ok (ElectrumApi.Continue cache txs'), log2)
    /\ ElectrumApi.header_requests h log2 = ElectrumApi.header_requests h log1.
Proof.
  pose proof (getTransaction_requests_no_header srv
                (r_transactionHash receipt) o h log1) as E.
  unfold try_catch, bind, ret.
  destruct (ElectrumApi.getTransaction srv (r_transactionHash receipt)
              (header_arg o) log1) as [[tx|e] log2]; cbn [snd] in E;
    eexists _, _; (split; [reflexivity|exact E]).
Qed.

(** A turn of the loop asks for the header of [h] at most when the cache
    has none, and then the cache has one when the loop goes on. *)
Lemma fetch_one_header_requests (srv : Server) (receipt : Receipt)
  (blockHeaders : gmap Z PlainBlockHeader) (txs : list PlainTransaction)
  (h : Z) (log : list Request) :
  let r := ElectrumApi.fetch_one srv receipt blockHeaders txs log in
  (is_Some (blockHeaders !! h) ->
   ElectrumApi.header_requests h (snd r) = ElectrumApi.header_requests h log)
  /\ (ElectrumApi.header_requests h (snd r) <= ElectrumApi.header_requests h log + 1)%nat
  /\ forall blockHeaders' txs',
       fst r = Ok (ElectrumApi.Continue blockHeaders' txs') ->
       (is_Some (blockHeaders !! h) -> is_Some (blockHeaders' !! h))
       /\ (ElectrumApi.header_requests h (snd r) = ElectrumApi.header_requests h log
           \/ is_Some (blockHeaders' !! h)).
Proof.
  intros r.
  assert (r = ElectrumApi.fetch_one srv receipt blockHeaders txs log) as Hr
    by reflexivity.
  clearbody r. revert Hr.
  unfold ElectrumApi.fetch_one, ElectrumApi.header_for.
  unfold try_catch at 1. unfold bind at 1.
  destruct (blockHeaders !! r_blockHeight receipt) as [b|] eqn:Hb.
  - unfold ret at 1. cbn [fst snd].
    destruct (fetch_one_inner srv receipt (Some b) blockHeaders txs h log)
      as (txs' & log2 & -> & E).
    intros ->. cbn [fst snd]. rewrite E. split; [done|]. split; [lia|].
    intros ? ? [= <- <-]. split; [done|by left].
  - destruct (r_blockHeight receipt >? 0).
    + unfold ElectrumApi.getBlockHeader, request, lift. unfold bind at 1 2.
      assert (ElectrumApi.header_requests h (log ++ [ReqBlockHeader (r_blockHeight receipt)])
              = (ElectrumApi.header_requests h log
                 + if decide (r_blockHeight receipt = h) then 1%nat else 0%nat)%nat)
        as L.
      { rewrite header_requests_app. case_decide as Hh.
        - by rewrite Hh, header_requests_self.
        - rewrite header_requests_other; [done|congruence]. }
      assert (is_Some (blockHeaders !! h) ->
              (if decide (r_blockHeight receipt = h) then 1%nat else 0%nat)
              = 0%nat) as C.
      { intros [x Hx]. case_decide as Hh; [congruence|done]. }
      destruct (srv_block_header srv (r_blockHeight receipt)) as [raw|e].
      * destruct (ElectrumApi.blockHeaderToPlain raw (r_blockHeight receipt))
          as [b|e].
        -- unfold ret at 1. cbn [fst snd].
           destruct (fetch_one_inner srv receipt (Some b)
                       (<[r_blockHeight receipt := b]> blockHeaders) txs h
                       (log ++ [ReqBlockHeader (r_blockHeight receipt)]))
             as (txs' & log2 & -> & E).
           intros ->. cbn [fst snd]. rewrite E, L.
           split; [intros Hc; rewrite C by done; lia|].
           split; [case_decide; lia|].
           intros ? ? [= <- <-]. split.
           ++ intros [x Hx].
              destruct (decide (r_blockHeight receipt = h)) as [->|Hne].
              ** rewrite lookup_insert_eq. eauto.
              ** rewrite lookup_insert_ne by done. eauto.
           ++ destruct (decide (r_blockHeight receipt = h)) as [->|Hne].
              ** right. rewrite lookup_insert_eq. eauto.
              ** left. lia.
        -- cbn [fst snd]. unfold ret. intros ->. cbn [fst snd]. rewrite L.
           split; [intros Hc; rewrite C by done; lia|].
           split; [case_decide; lia|]. intros ? ? [=].
      * cbn [fst snd]. unfold ret. intros ->. cbn [fst snd]. rewrite L.
        split; [intros Hc; rewrite C by done; lia|].
        split; [case_decide; lia|]. intros ? ? [=].
    + unfold ret at 1. cbn [fst snd].
      destruct (fetch_one_inner srv receipt None blockHeaders txs h log)
        as (txs' & log2 & -> & E).
      intros ->. cbn [fst snd]. rewrite E. split; [done|]. split; [lia|].
      intros ? ? [= <- <-]. split; [done|by left].
Qed.

Lemma fetch_transactions_header_requests (srv : Server)
  (knownTxs : gmap string Receipt) (history : list Receipt)
  (blockHeaders : gmap Z PlainBlockHeader) (txs : list PlainTransaction)
  (h : Z) (log : list Request) :
  let log' := snd (ElectrumApi.fetch_transactions srv knownTxs history
                     blockHeaders txs log) in
  (is_Some (blockHeaders !! h) -> ElectrumApi.header_requests h log' = ElectrumApi.header_requests h log)
  /\ (ElectrumApi.header_requests h log' <= ElectrumApi.header_requests h log + 1)%nat.
Proof.
  revert blockHeaders txs log.
  induction history as [|receipt rest IH]; intros blockHeaders txs log; simpl.
  - split; [done|lia].
  - destruct (ElectrumApi.is_known knownTxs receipt); [apply IH|].
    destruct (fetch_one_header_requests srv receipt blockHeaders txs h log)
      as (Hcached & Hone & Hcont).
    unfold bind.
    destruct (ElectrumApi.fetch_one srv receipt blockHeaders txs log)
      as [[[blockHeaders' txs'|txs']|e] log1]; cbn [fst snd] in *.
    + destruct (Hcont _ _ eq_refl) as [Hkeep Hor].
      destruct (IH blockHeaders' txs' log1) as [IHc IHo]. split.
      * intros Hc. rewrite IHc by auto. auto.
      * destruct Hor as [E|Hc]; [lia|]. rewrite IHc by done. lia.
    + split; [exact Hcached|exact Hone].
    + split; [exact Hcached|exact Hone].
Qed.

(** In one call of [getHistory] the header of a height is requested at
    most once, whatever the number of receipts at that height: a header
    that was fetched is kept for the rest of the loop, and a header
    request that fails ends the loop. *)
Theorem getHistory_requests_each_header_once (srv : Server) (address : string)
  (since : Z) (known : list Receipt) (limit : option Z) (h : Z)
  (log : list Request) :
  (ElectrumApi.header_requests h
     (snd (ElectrumApi.getHistory srv address since known limit log))
   <= ElectrumApi.header_requests h log + 1)%nat.
Proof.
  unfold ElectrumApi.getHistory. unfold bind at 1.
  assert (ElectrumApi.header_requests h (snd (ElectrumApi.getReceipts srv address false log))
          = ElectrumApi.header_requests h log) as R.
  { unfold ElectrumApi.getReceipts, ElectrumApi.addressToScriptHash,
      bind, lift, ret, request.
    destruct (address_toOutputScript address); simpl; [|reflexivity].
    destruct (srv_get_history srv _); simpl;
      rewrite header_requests_app, header_requests_other by discriminate; lia. }
  destruct (ElectrumApi.getReceipts srv address false log) as [[history|e] log1];
    cbn [fst snd] in *; [|lia].
  rewrite <- R. apply fetch_transactions_header_requests.
Qed.

(** ** The Merkle path *)

Lemma merkle_fold_mod (path : list string) (i : Z) (node : list byte) :
  0 <= i ->
  snd (fold_left ElectrumApi.merkle_step path (i, node))
  = snd (fold_left ElectrumApi.merkle_step path
           (i mod 2 ^ Z.of_nat (length path), node)).
Proof.
  revert i node. induction path as [|pairHash path IH]; intros i node Hi;
    [reflexivity|].
  cbn [fold_left length]. unfold ElectrumApi.merkle_step at 2 4.
  rewrite Nat2Z.inj_succ, Z.pow_succ_r by lia.
  set (m := 2 ^ Z.of_nat (length path)).
  assert (0 < m) as Hm by (apply Z.pow_pos_nonneg; lia).
  assert (i mod (2 * m) = i mod 2 + 2 * ((i / 2) mod m)) as E
    by (apply Z.rem_mul_r; lia).
  assert (0 <= i mod (2 * m)) as Hnn by (apply Z.mod_pos_bound; lia).
  assert ((i mod (2 * m)) / 2 = (i / 2) mod m) as Ediv.
  { rewrite E. pose proof (Z.mod_pos_bound i 2 ltac:(lia)).
    replace (i mod 2 + 2 * ((i / 2) mod m))
      with ((i / 2) mod m * 2 + i mod 2) by lia.
    rewrite Z.div_add_l by lia.
    rewrite (Z.div_small (i mod 2)) by lia. lia. }
  assert (Z.rem (i mod (2 * m)) 2 = Z.rem i 2) as Erem.
  { rewrite !Z.rem_mod_nonneg by lia. rewrite E.
    replace (i mod 2 + 2 * ((i / 2) mod m))
      with (i mod 2 + (i / 2) mod m * 2) by lia.
    rewrite Z.mod_add by lia. apply Z.mod_mod. lia. }
  rewrite Erem, Ediv.
  rewrite IH by (apply Z.div_pos; lia).
  symmetry. rewrite IH by (apply Z.mod_pos_bound; lia).
  by rewrite Z.mod_mod by lia.
Qed.

(** The root that [getTransactionMerkleRoot] computes depends on the
    response only through the path and, for a position that is not
    negative, through as many low bits of the position as the path is
    long: two responses with the same path whose positions agree on these
    bits give the same root, whatever else the positions and the block
    heights of the responses are. *)
Theorem merkle_root_from_path_and_low_bits (hash : string)
  (proof proof' : MerkleProof) :
  merkle proof' = merkle proof ->
  0 <= pos proof -> 0 <= pos proof' ->
  pos proof' mod 2 ^ Z.of_nat (length (merkle proof))
  = pos proof mod 2 ^ Z.of_nat (length (merkle proof)) ->
  ElectrumApi.merkle_root_of hash proof' = ElectrumApi.merkle_root_of hash proof.
Proof.
  intros Hpath Hp Hp' Hmod. unfold ElectrumApi.merkle_root_of.
  rewrite Hpath.
  rewrite (merkle_fold_mod _ (pos proof')), (merkle_fold_mod _ (pos proof)) by done.
  by rewrite Hmod.
Qed.

(** When the peer answers with an empty Merkle path, the computed root is
    the transaction hash itself, for a hash that the hex helpers decode
    and encode back to itself, as it is in a block of one transaction. *)
Theorem empty_merkle_path_proves_the_root (srv : Server) (hash : string)
  (height : Z) (proof : MerkleProof) (log : list Request) :
  srv_get_merkle srv hash height = Ok proof ->
  merkle proof = [] ->
  bytesToHex (hexToBytes hash) = hash ->
  ElectrumApi.getTransactionMerkleRoot srv hash height log
  = (Ok hash, log ++ [ReqGetMerkle hash height]).
Proof.
  intros Hans Hempty Hhex.
  unfold ElectrumApi.getTransactionMerkleRoot, bind, request, ret.
  rewrite Hans. unfold ElectrumApi.merkle_root_of. rewrite Hempty. simpl.
  by rewrite rev_involutive, Hhex.
Qed.

(** ** The order in which [getHistory] goes through the receipts *)

Lemma sort_insert_sorted (x : Receipt) (l : list Receipt) :
  StronglySorted (fun a b => ElectrumApi.sort_key b <= ElectrumApi.sort_key a) l ->
  StronglySorted (fun a b => ElectrumApi.sort_key b <= ElectrumApi.sort_key a)
                 (sort_insert ElectrumApi.by_height_desc x l).
Proof.
  induction 1 as [|y l Hl IH Hy]; simpl.
  - by repeat constructor.
  - unfold ElectrumApi.by_height_desc at 1. fold (ElectrumApi.sort_key x) (ElectrumApi.sort_key y).
    destruct (Z.gtb_spec (ElectrumApi.sort_key y - ElectrumApi.sort_key x) 0) as [Hgt|Hle].
    + constructor; [exact IH|].
      rewrite (sort_insert_Permutation ElectrumApi.by_height_desc x l).
      constructor; [lia|exact Hy].
    + constructor; [by constructor|].
      constructor; [lia|].
      eapply Forall_impl; [exact Hy|]. simpl. intros z Hz. lia.
Qed.

Lemma sort_sorted (l : list Receipt) :
  StronglySorted (fun a b => ElectrumApi.sort_key b <= ElectrumApi.sort_key a)
                 (sort ElectrumApi.by_height_desc l).
Proof.
  unfold sort. induction l as [|x l IH]; simpl; [constructor|].
  by apply sort_insert_sorted.
Qed.

Lemma slice0_sorted {A} (R : A -> A -> Prop) (l : list A) (n : Z) :
  StronglySorted R l -> StronglySorted R (slice0 l n).
Proof.
  unfold slice0. generalize (Z.to_nat
    (if n <? 0 then Z.max (Z.of_nat (length l) + n) 0
     else Z.min n (Z.of_nat (length l)))).
  intros k Hl. revert k. induction Hl as [|x l Hl IH Hx]; intros [|k]; simpl;
    try constructor; [apply IH|].
  apply Forall_forall. intros y Hy. rewrite Forall_forall in Hx. apply Hx.
  eapply elem_of_prefix; [exact Hy|apply prefix_take].
Qed.

(** The receipts that the loop of [getHistory] goes through are in the
    order of the sort: the key of a receipt never grows along the list,
    where the key is the height, and [MAX_SAFE_INTEGER] for the height
    [0].  So the receipts of height [0] come first, then the positive
    heights from the highest down, and the negative heights last. *)
Theorem getHistory_fetches_newest_first (since : Z) (limit : option Z)
  (receipts : list Receipt) :
  StronglySorted (fun a b => ElectrumApi.sort_key b <= ElectrumApi.sort_key a)
                 (ElectrumApi.history_to_fetch since limit receipts)
  /\ (forall r, r_blockHeight r = 0 -> ElectrumApi.sort_key r = MAX_SAFE_INTEGER)
  /\ (forall r, r_blockHeight r <> 0 -> ElectrumApi.sort_key r = r_blockHeight r).
Proof.
  split; [|split].
  - unfold ElectrumApi.history_to_fetch, ElectrumApi.sorted_history.
    destruct (since >? 0), limit as [n|];
      repeat apply slice0_sorted; apply sort_sorted.
  - intros r Hr. unfold ElectrumApi.sort_key, or_default. by rewrite Hr.
  - intros r Hr. unfold ElectrumApi.sort_key, or_default.
    by destruct (Z.eqb_spec (r_blockHeight r) 0).
Qed.

(** ** A transaction without a block *)

(** Without a second argument, and with a height that is not positive,
    [getTransaction] fetches no header and checks no Merkle proof: it
    sends the one request for the raw transaction and returns what the
    answer decodes to; the block fields of the transaction are [null]. *)
Theorem getTransaction_without_header_checks_nothing (srv : Server)
  (hash : string) (arg : HeightOrBlockHeader) (log : list Request) :
  arg = Undefined \/ (exists h, arg = Height h /\ h <= 0) ->
  ElectrumApi.getTransaction srv hash arg log
  = (match srv_transaction_get srv hash with
     | Ok raw => ElectrumApi.transactionToPlain raw None
     | Err e => Err e
     end, log ++ [ReqTransactionGet hash])
  /\ forall tx,
       fst (ElectrumApi.getTransaction srv hash arg log) = Ok tx ->
       t_blockHash tx = None /\ t_blockHeight tx = None /\ t_timestamp tx = None.
Proof.
  intros Harg.
  assert (ElectrumApi.getTransaction srv hash arg log
          = (match srv_transaction_get srv hash with
             | Ok raw => ElectrumApi.transactionToPlain raw None
             | Err e => Err e
             end, log ++ [ReqTransactionGet hash])) as E.
  { unfold ElectrumApi.getTransaction, bind, ret, request, lift.
    destruct Harg as [->|(h & -> & Hh)].
    - by destruct (srv_transaction_get srv hash).
    - replace (h >? 0) with false
        by (symmetry; rewrite Z.gtb_ltb; apply Z.ltb_ge; lia).
      by destruct (srv_transaction_get srv hash). }
  split; [exact E|]. intros tx. rewrite E. simpl.
  destruct (srv_transaction_get srv hash) as [raw|e]; [|discriminate].
  unfold ElectrumApi.transactionToPlain.
  destruct (Transaction_fromHex raw); [|discriminate].
  destruct (all_ok _); [|discriminate].
  destruct (all_ok _); [|discriminate]. by intros [= <-].
Qed.

End ApiBehaviour.

(** ** The address of an input *)

Section InputAddressProps.
Context `{ElectrumApi.Payments}.

Lemma address_of_console (p : Result ElectrumApi.Payment) (lines : list Error) :
  snd (ElectrumApi.address_of p lines) = lines.
Proof. unfold ElectrumApi.address_of, bind, lift, ret. by destruct p. Qed.

(** What [deriveAddressFromInput] returns or throws does not depend on
    the lines that are on the console. *)
Lemma deriveAddressFromInput_outcome (input : TxInput) (lines : list Error) :
  fst (ElectrumApi.deriveAddressFromInput input lines)
  = ElectrumApi.input_address input.
Proof.
  unfold ElectrumApi.input_address, ElectrumApi.deriveAddressFromInput,
    ElectrumApi.address_of, ElectrumApi.console_error, bind, lift, ret.
  destruct (ElectrumApi.script_decompile _) as [decompiled|e]; [|reflexivity].
  repeat match goal with
         | |- context [if ?b then _ else _] => destruct b
         end;
  repeat match goal with
         | |- context [match ?r with Ok _ => _ | Err _ => _ end] =>
             destruct r; cbn [fst snd]
         end;
  reflexivity.
Qed.

(** [deriveAddressFromInput] gives up, with one line on the console and
    the result [undefined], exactly for the inputs whose numbers of script
    chunks and of witness items fit none of its six cases: no witness and
    fewer than two chunks, one witness item, or two or more of both.  For
    every other input it writes nothing on the console. *)
Theorem deriveAddressFromInput_has_six_shapes (input : TxInput)
  (decompiled : option (list ElectrumApi.Chunk)) (lines : list Error) :
  ElectrumApi.script_decompile (Some (ElectrumApi.Data (in_script input)))
  = Ok decompiled ->
  let chunks := length (default [] decompiled) in
  let witness := length (in_witness input) in
  (ElectrumApi.undecodable_shape chunks witness ->
   ElectrumApi.deriveAddressFromInput input lines
   = (Ok None, lines ++ [JsError "Cannot decode address from input"]))
  /\ (~ ElectrumApi.undecodable_shape chunks witness ->
      snd (ElectrumApi.deriveAddressFromInput input lines) = lines).
Proof.
  intros Hd. cbv zeta.
  unfold ElectrumApi.deriveAddressFromInput. rewrite Hd.
  change (bind (lift (Ok decompiled)) ?k lines) with (k decompiled lines).
  cbv beta zeta.
  unfold ElectrumApi.undecodable_shape.
  destruct (length (default [] decompiled) =? 2)%nat eqn:C2;
    destruct (length (default [] decompiled) =? 1)%nat eqn:C1;
    destruct (length (default [] decompiled) =? 0)%nat eqn:C0;
    destruct (2 <? length (default [] decompiled))%nat eqn:C3;
    destruct (length (in_witness input) =? 0)%nat eqn:W0;
    destruct (length (in_witness input) =? 2)%nat eqn:W2;
    destruct (2 <? length (in_witness input))%nat eqn:W3;
    rewrite ?Nat.eqb_eq, ?Nat.eqb_neq, ?Nat.ltb_lt, ?Nat.ltb_ge in *;
    try lia; cbn [andb];
    (split; [intros Hu; try lia; reflexivity|intros Hu; try (exfalso; lia)]);
    unfold bind, lift;
    repeat match goal with
           | |- context [match ?r with Ok _ => _ | Err _ => _ end] =>
               destruct r; cbn [fst snd]
           end;
    rewrite ?address_of_console; reflexivity.
Qed.

End InputAddressProps.

(* ===================================================================== *)
(** * The properties on the examples                                      *)
(* ===================================================================== *)

Section Examples.
Import Vectors.

(** ** The instance agrees with the chain *)

Example sha256_constants :
  length K = 64%nat /\ nth 0 K 0 = 0x428a2f98 /\ nth 63 K 0 = 0xc67178f2
  /\ length H0 = 8%nat /\ nth 0 H0 0 = 0x6a09e667 /\ nth 7 H0 0 = 0x5be0cd19.
Proof. vm_compute. repeat split. Qed.

Example sha256_abc :
  hex_encode (digest (hex_decode "616263"))
  = "ba7816bf8f01cfea414140de5dae2223b00361a396177a9cb410ff61f20015ad".
Proof. vm_compute. reflexivity. Qed.

Example header_170_decodes :
  ElectrumApi.blockHeaderToPlain (raw_header header_170) 170 = Ok block_170.
Proof. vm_compute. reflexivity. Qed.

Example header_1_follows_header_0 :
  ElectrumApi.blockHeaderToPlain (raw_header header_0) 0 = Ok block_0
  /\ ElectrumApi.blockHeaderToPlain (raw_header header_1) 1 = Ok block_1
  /\ h_prevHash block_1 = Some (h_blockHash block_0).
Proof. vm_compute. repeat split. Qed.

Example id_of_f4184 : Transaction_getId tx_f4184 = hash_f4184.
Proof. vm_compute. reflexivity. Qed.

Example script_hash_of_address :
  fst (ElectrumApi.addressToScriptHash p2pkh_address []) = Ok script_hash.
Proof. vm_compute. reflexivity. Qed.

(** ** The Merkle proof (C1) *)

(** The path of the payment of block 170 leads to the Merkle root of the
    header of block 170. *)
Example merkle_root_of_block_170 :
  Spec.computed_root hash_f4184 proof_f4184
  = "7dac2c5666815c17a3b36427de37bb9d2e2c5ccec3f8633eb91a4205cb4c10ff".
Proof. vm_compute. reflexivity. Qed.

(** A transaction with its path in its block is returned with the fields
    of the block. *)
Example getTransaction_in_block :
  exists tx,
    ElectrumApi.getTransaction honest hash_spend (Header block_spend) []
    = (Ok tx, [ReqGetMerkle hash_spend 171; ReqTransactionGet hash_spend])
    /\ t_transactionHash tx = hash_spend
    /\ t_blockHash tx = Some (h_blockHash block_spend)
    /\ t_blockHeight tx = Some 171
    /\ t_timestamp tx = Some 1231731625.
Proof. eexists. vm_compute. repeat split. Qed.

(** With one character of the pair hash changed the call fails with the
    error of the invalid proof, before the raw transaction is requested. *)
Example getTransaction_flipped_path :
  ElectrumApi.getTransaction peer_flipped hash_f4184 (Header block_170) []
  = (Err (JsError
            ("Invalid merkle proof for given block height: "
             +:+ hash_f4184 +:+ ", 170")),
     [ReqGetMerkle hash_f4184 170]).
Proof. vm_compute. reflexivity. Qed.

(** The peer answers with a path, and the code computes the root of the
    specification from it. *)
Lemma getTransaction_witness :
  srv_get_merkle honest hash_spend (h_blockHeight block_spend) = Ok proof_spend
  /\ ElectrumApi.getTransactionMerkleRoot honest hash_spend
       (h_blockHeight block_spend) []
     = (Ok (Spec.computed_root hash_spend proof_spend),
        [] ++ [ReqGetMerkle hash_spend (h_blockHeight block_spend)]).
Proof.
  split; [reflexivity|].
  exact (proj1 (getTransaction_succeeds_iff_root_and_raw
                  honest hash_spend block_spend proof_spend [] eq_refl)).
Defined.

(** The counterexample to C1 as it is stated.  The peer gives the true
    path of the payment of block 170, so that the computed root is the
    Merkle root of the header, and then does not answer the request for
    the raw transaction: the call fails although the roots are equal. *)
Lemma root_matches_but_call_fails :
  srv_get_merkle peer_without_raw hash_f4184 (h_blockHeight block_170)
  = Ok proof_f4184
  /\ h_merkleRoot block_170 = Some (Spec.computed_root hash_f4184 proof_f4184)
  /\ ElectrumApi.getTransaction peer_without_raw hash_f4184 (Header block_170) []
     = (Err (Rejected "connection lost"),
        [ReqGetMerkle hash_f4184 170; ReqTransactionGet hash_f4184])
  /\ ~ (is_ok (fst (ElectrumApi.getTransaction peer_without_raw hash_f4184
                      (Header block_170) [])) = true
        <-> h_merkleRoot block_170
            = Some (Spec.computed_root hash_f4184 proof_f4184)).
Proof.
  assert (h_merkleRoot block_170
          = Some (Spec.computed_root hash_f4184 proof_f4184)) as Hroot
    by (vm_compute; reflexivity).
  assert (ElectrumApi.getTransaction peer_without_raw hash_f4184
            (Header block_170) []
          = (Err (Rejected "connection lost"),
             [ReqGetMerkle hash_f4184 170; ReqTransactionGet hash_f4184])) as Hcall
    by (vm_compute; reflexivity).
  split; [reflexivity|]. split; [exact Hroot|]. split; [exact Hcall|].
  rewrite Hcall. intros [_ Hback].
  exact (Bool.diff_false_true (Hback Hroot)).
Qed.

(** The payment of block 170 itself pays to public keys, for which the
    library has no address: with the true path and the raw transaction the
    call fails in the decoding. *)
Example getTransaction_undecodable :
  ElectrumApi.getTransaction honest hash_f4184 (Header block_170) []
  = (Err (LibraryError "no matching Address"),
     [ReqGetMerkle hash_f4184 170; ReqTransactionGet hash_f4184]).
Proof. vm_compute. reflexivity. Qed.

(** ** Broadcast (C7) *)

Example spend_decodes :
  ElectrumApi.transactionToPlain raw_spend None = Ok plain_spend.
Proof. vm_compute. reflexivity. Qed.

Lemma broadcast_witness :
  srv_broadcast honest raw_spend = Ok hash_spend
  /\ ElectrumApi.broadcastTransaction honest raw_spend []
     = (Ok plain_spend, [] ++ [ReqBroadcast raw_spend]).
Proof.
  split; [reflexivity|].
  pose proof (broadcastTransaction_checks_returned_hash
                honest raw_spend hash_spend [] eq_refl) as Hb.
  rewrite spend_decodes in Hb.
  exact (proj1 Hb eq_refl).
Defined.

(** An answer that is not the hash is the message of the error. *)
Example broadcast_non_final :
  ElectrumApi.broadcastTransaction peer_rejecting raw_spend []
  = (Err (JsError "non-final"), [ReqBroadcast raw_spend]).
Proof. vm_compute. reflexivity. Qed.

(** ** Receipts and history (C9, C10) *)

Example receipts_of_history :
  ElectrumApi.getReceipts honest p2pkh_address false []
  = (Ok [receipt_coinbase_1; receipt_f4184; receipt_spend_unconfirmed],
     [ReqGetHistory script_hash]).
Proof. vm_compute. reflexivity. Qed.

Lemma receipts_witness :
  srv_get_history honest script_hash = history_answers script_hash
  /\ exists receipts,
      ElectrumApi.getReceipts honest script_hash true []
      = (Ok receipts, [] ++ [ReqGetHistory script_hash])
      /\ length receipts = 3%nat.
Proof.
  split; [reflexivity|].
  destruct (getReceipts_keeps_fee_iff_nonzero honest script_hash script_hash
              true _ [] eq_refl eq_refl) as (receipts & Hr & Hl & _).
  exists receipts. split; [exact Hr|exact Hl].
Defined.

(** With [sinceBlockHeight = 1] nothing is unwanted, and the receipt of
    block 1, the last of the sorted history, is not fetched. *)
Lemma history_witness :
  ElectrumApi.sorted_history None
    [receipt_coinbase_1; receipt_f4184; receipt_spend_unconfirmed]
  = [receipt_spend_unconfirmed; receipt_f4184] ++ [receipt_coinbase_1]
  /\ ElectrumApi.history_to_fetch 1 None
       [receipt_coinbase_1; receipt_f4184; receipt_spend_unconfirmed]
     = [receipt_spend_unconfirmed; receipt_f4184].
Proof.
  assert (ElectrumApi.sorted_history None
            [receipt_coinbase_1; receipt_f4184; receipt_spend_unconfirmed]
          = [receipt_spend_unconfirmed; receipt_f4184] ++ [receipt_coinbase_1])
    as Hsorted by (vm_compute; reflexivity).
  split; [exact Hsorted|].
  refine (proj1 (proj1 (getHistory_drops_last_when_nothing_unwanted
                          honest p2pkh_address 1 [] None [] _ _ _ receipts_of_history)
                   _ _ Hsorted _)); [lia|].
  intros r Hr.
  repeat (apply elem_of_cons in Hr as [->|Hr]; [simpl; lia|]).
  by apply elem_of_nil in Hr.
Defined.

Example history_since_1 :
  exists tx,
    ElectrumApi.getHistory honest p2pkh_address 1 [] None []
    = (Ok [tx],
       [ReqGetHistory script_hash; ReqTransactionGet hash_spend;
        ReqBlockHeader 170; ReqGetMerkle hash_f4184 170;
        ReqTransactionGet hash_f4184])
    /\ t_transactionHash tx = hash_spend.
Proof. eexists. vm_compute. split; reflexivity. Qed.

(** ** The guard of the public methods (C5) *)


(** [estimateFees] before the agent is synced: the second target fails and
    has [-1] in its place. *)
Example estimateFees_partly_failing :
  fst (Agent.estimateFees honest [1; 3; 6] fresh) = Ok [10; -1; 60]
  /\ Agent.sent (Agent.world (snd (Agent.estimateFees honest [1; 3; 6] fresh)))
     = [ReqEstimateFee 1; ReqEstimateFee 3; ReqEstimateFee 6].
Proof. vm_compute. split; reflexivity. Qed.


(** ** [close] (C4) *)

(** The counterexample to C4 as it is stated: a second call of [close]
    fires a second [CLOSE] event. *)
Lemma second_close_fires_again :
  let s1 := snd (Agent.close "done" synced_agent) in
  let s2 := snd (Agent.close "again" s1) in
  Agent.count Agent.is_CLOSE s1 = 1%nat
  /\ Agent.count Agent.is_CLOSE s2 = 2%nat
  /\ Agent.fired (Agent.world s2)
     = Agent.fired (Agent.world synced_agent)
       ++ [Agent.CLOSE "done"; Agent.CLOSE "again"]
  /\ ~ (Agent.count Agent.is_CLOSE s2 <= 1)%nat.
Proof.
  vm_compute. repeat split. intros Hle. inversion Hle as [|? Hle']. inversion Hle'.
Qed.

(** ** [onBlock] (C2, C3) *)

Example sync_enters_syncing :
  Agent.syncing (Agent.agent syncing_agent) = true
  /\ Agent.fired (Agent.world syncing_agent) = [Agent.SYNCING]
  /\ Agent.sent (Agent.world syncing_agent)
     = [ReqVersion; ReqFeatures; ReqSubscribeHeaders].
Proof. vm_compute. repeat split. Qed.

Lemma onBlock_witness :
  Agent.predecessor honest syncing_agent block_1 block_0
  /\ Agent.accepted block_1
       (<[h_blockHeight block_1 - 1 := block_0]>
          (Agent.BlockStore (Agent.world syncing_agent)))
       syncing_agent (snd (Agent.onBlock honest block_1 syncing_agent)).
Proof.
  assert (Agent.predecessor honest syncing_agent block_1 block_0) as Hpred.
  { right. split; [vm_compute; reflexivity|].
    split; [vm_compute; by eexists|]. vm_compute. reflexivity. }
  split; [exact Hpred|].
  pose proof (proj2 (onBlock_accepts_iff_consecutive honest block_1 syncing_agent)
                eq_refl block_0 Hpred) as (_ & Hiff & _).
  exact (proj2 Hiff eq_refl).
Defined.

(** The first header at height [0] needs no predecessor. *)
Example genesis_accepted :
  let s := snd (Agent.onBlock silent block_0 syncing_agent) in
  Agent.BlockStore (Agent.world s) !! 0 = Some block_0
  /\ Agent.fired (Agent.world s)
     = [Agent.SYNCING; Agent.BLOCK block_0; Agent.SYNCED]
  /\ Agent.sent (Agent.world s) = Agent.sent (Agent.world syncing_agent).
Proof. vm_compute. repeat split. Qed.

Lemma synced_witness :
  Agent.syncing (Agent.agent syncing_agent) = true
  /\ fst (Agent.onBlock honest block_1 syncing_agent) = Ok tt
  /\ Agent.synced (Agent.agent (snd (Agent.onBlock honest block_1 syncing_agent)))
     = true.
Proof.
  assert (Agent.syncing (Agent.agent syncing_agent) = true) as H1
    by (vm_compute; reflexivity).
  assert (fst (Agent.onBlock honest block_1 syncing_agent) = Ok tt) as H2
    by (vm_compute; reflexivity).
  split; [exact H1|]. split; [exact H2|].
  exact (proj1 (proj1 (synced_on_first_completed_header
                         honest block_1 syncing_agent) H1 H2)).
Defined.

(** The counterexample to C3 as it is stated.  The agent is in the
    syncing state and the peer announces, at height 1, a header that does
    not follow the header of height 0: the header is dropped (it is not
    stored, no [BLOCK] is fired, the warning is logged), and the agent is
    synced all the same, has fired [SYNCED] and has started the interval.
    And two calls of [sync] that both pass the guard lead to two [SYNCED]
    events. *)
Lemma dropped_header_makes_synced :
  let s := Agent.steps syncing_agent [Agent.HeaderNotified honest misplaced_header] in
  Agent.syncing (Agent.agent syncing_agent) = true
  /\ Agent.BlockStore (Agent.world s) !! 0 = Some block_0
  /\ Agent.BlockStore (Agent.world s) !! 1 = None
  /\ Agent.logged (Agent.world s)
     = [Agent.LogWarn "Agent: Received non-consecutive block:" misplaced_header]
  /\ Agent.fired (Agent.world s) = [Agent.SYNCING; Agent.SYNCED]
  /\ Agent.synced (Agent.agent s) = true
  /\ Agent.intervals (Agent.pending s) = [(1, 60000)]
  /\ Agent.count Agent.is_SYNCED (Agent.steps fresh overlapping_syncs) = 2%nat.
Proof. vm_compute. repeat split. Qed.

(** The headers of the examples, as the peer sends them. *)
Example rival_headers_decode :
  ElectrumApi.blockHeaderToPlain (raw_header header_2) 2 = Ok block_2
  /\ ElectrumApi.blockHeaderToPlain (raw_header header_1_rival) 1
     = Ok block_1_rival
  /\ h_prevHash block_2 = Some (h_blockHash block_1)
  /\ h_prevHash block_1_rival = Some (h_blockHash block_0).
Proof. vm_compute. repeat split. Qed.

(** The counterexample to C2 as it is stated.  The synced agent has
    accepted [block_1].  The peer announces [block_2], which follows it and
    is accepted, and then [block_1_rival], a second header at height 1
    that follows [block_0]: it is accepted too and replaces [block_1] in
    the store.  No header was dropped, and the accepted header at height 2
    is in the store with a previous hash that is not the block hash of
    the header stored at height 1. *)
Lemma later_header_breaks_the_link :
  let s := Agent.steps synced_agent
             [Agent.HeaderNotified honest block_2;
              Agent.HeaderNotified honest block_1_rival] in
  Agent.fired (Agent.world s)
  = [Agent.SYNCING; Agent.BLOCK block_1; Agent.SYNCED;
     Agent.BLOCK block_2; Agent.BLOCK block_1_rival]
  /\ Agent.logged (Agent.world s) = []
  /\ Agent.BlockStore (Agent.world s) !! 2 = Some block_2
  /\ Agent.BlockStore (Agent.world s) !! 1 = Some block_1_rival
  /\ Some (h_blockHash block_1_rival) <> h_prevHash block_2
  /\ ~ (exists q b,
          Agent.BlockStore (Agent.world s) !! 1 = Some q
          /\ Agent.BlockStore (Agent.world s) !! 2 = Some b
          /\ Some (h_blockHash q) = h_prevHash b).
Proof.
  intros s.
  assert (Agent.BlockStore (Agent.world s) !! 2 = Some block_2) as H2
    by (vm_compute; reflexivity).
  assert (Agent.BlockStore (Agent.world s) !! 1 = Some block_1_rival) as H1
    by (vm_compute; reflexivity).
  assert (Some (h_blockHash block_1_rival) <> h_prevHash block_2) as Hne
    by (vm_compute; discriminate).
  split; [vm_compute; reflexivity|]. split; [vm_compute; reflexivity|].
  split; [exact H2|]. split; [exact H1|]. split; [exact Hne|].
  intros (q & b & Hq & Hb & Hlink). rewrite H1 in Hq. rewrite H2 in Hb.
  injection Hq as <-. injection Hb as <-. exact (Hne Hlink).
Qed.

(** ** [ping] (C8) *)

Lemma ping_witness :
  Agent.timers_fresh synced_agent
  /\ srv_ping silent = Err (Rejected "connection lost")
  /\ let id := Agent.nextTimer (Agent.pending synced_agent) in
     let s0 := snd (Agent.ping silent 0 synced_agent) in
     let s1 := snd (Agent.on_timeout silent id s0) in
     let s2 := snd (Agent.on_timeout silent (id + 1) s1) in
     let s3 := snd (Agent.on_timeout silent (id + 2) s2) in
     Agent.fired (Agent.world s2) = Agent.fired (Agent.world synced_agent)
     /\ Agent.fired (Agent.world s3)
        = Agent.fired (Agent.world synced_agent) ++ [Agent.CLOSE "Ping timeout"].
Proof.
  assert (Agent.timers_fresh synced_agent) as Hfresh.
  { unfold Agent.timers_fresh.
    assert (Agent.timeouts (Agent.pending synced_agent) = []) as ->
      by (vm_compute; reflexivity).
    constructor. }
  assert (is_Some (Agent.connection (Agent.agent synced_agent))) as Halive
    by (vm_compute; by eexists).
  split; [exact Hfresh|]. split; [reflexivity|].
  pose proof (ping_closes_on_third_timeout silent (Rejected "connection lost")
                synced_agent Halive eq_refl Hfresh)
    as (_ & _ & _ & _ & _ & _ & H2 & _ & _ & H3 & _).
  exact (conj H2 H3).
Defined.

(** The counterexample to C8 as it is stated.  The agent is synced, the
    interval fires and the peer is silent from then on.  After the second
    timeout in a row the agent is not closed: no [CLOSE] was fired, the
    connection is there, a third ping was sent and its timeout is pending.
    The agent closes when that third timeout fires. *)
Lemma second_timeout_does_not_close :
  let s := Agent.steps synced_agent two_timeouts in
  Agent.count Agent.is_CLOSE s = 0%nat
  /\ Agent.connection (Agent.agent s) = Some connection_wss
  /\ Agent.synced (Agent.agent s) = true
  /\ Agent.sent (Agent.world s)
     = Agent.sent (Agent.world synced_agent) ++ [ReqPing; ReqPing; ReqPing]
  /\ Agent.timeouts (Agent.pending s) = [(4, 10000, 2)]
  /\ Agent.fired (Agent.world (Agent.steps s [Agent.TimeoutFired silent 4]))
     = Agent.fired (Agent.world synced_agent) ++ [Agent.CLOSE "Ping timeout"].
Proof. vm_compute. repeat split. Qed.

(** A ping that is answered leaves no timeout behind. *)
Example ping_answered :
  Agent.timeouts (Agent.pending (snd (Agent.ping honest 0 synced_agent))) = [].
Proof. vm_compute. reflexivity. Qed.

(** ** [onReceipts] (C6) *)

Lemma baseline_witness :
  Agent.knownReceipts (Agent.agent watching) !! p2pkh_address = None
  /\ Agent.onReceipts honest p2pkh_address [receipt_spend_unconfirmed] watching
     = (Ok tt,
        Agent.with_agent
          (fun a => Agent.set_knownReceipts
                      (<[p2pkh_address := receipts_by_hash [receipt_spend_unconfirmed]]>
                         (Agent.knownReceipts a)) a) watching).
Proof.
  assert (Agent.knownReceipts (Agent.agent watching) !! p2pkh_address = None) as Hn
    by (vm_compute; reflexivity).
  split; [exact Hn|].
  exact (proj1 (first_receipts_are_the_baseline
                  honest p2pkh_address [receipt_spend_unconfirmed] watching) Hn).
Defined.

(** The first notification fires nothing and sends nothing. *)
Example first_notification_is_silent :
  Agent.world watching_with_baseline = Agent.world watching
  /\ (Agent.knownReceipts (Agent.agent watching_with_baseline) !! p2pkh_address)
       ≫= (fun baseline => baseline !! hash_spend)
     = Some receipt_spend_unconfirmed.
Proof. split; vm_compute; reflexivity. Qed.

(** The same receipts again change nothing. *)
Example unchanged_receipt_is_skipped :
  Agent.onReceipts honest p2pkh_address [receipt_spend_unconfirmed]
    watching_with_baseline
  = (Ok tt, watching_with_baseline).
Proof. vm_compute. reflexivity. Qed.

(** The transaction of the baseline is mined, and a second transaction
    appears that does not decode: one [TRANSACTION_MINED] event after the
    Merkle proof, and one logged error. *)
Example later_notification :
  let s := snd (Agent.onReceipts honest p2pkh_address
                  [receipt_spend_mined; receipt_f4184] watching_with_baseline) in
  Agent.fired (Agent.world s)
  = Agent.fired (Agent.world watching)
    ++ [Agent.TRANSACTION_MINED
          (ElectrumApi.attach_block plain_spend (Some block_spend)) block_spend]
  /\ Agent.logged (Agent.world s)
     = [Agent.LogError (LibraryError "no matching Address")]
  /\ (Agent.knownReceipts (Agent.agent s) !! p2pkh_address)
       ≫= (fun baseline => baseline !! hash_spend)
     = Some receipt_spend_unconfirmed.
Proof. intros s. split; [|split]; vm_compute; reflexivity. Qed.

(** The requests of the same notification.  The first request of each
    check is sent inside the loop, before the header of the next receipt
    is fetched; the raw transactions are requested when the Merkle proofs
    have arrived. *)
Example requests_of_later_notification :
  let s := snd (Agent.onReceipts honest p2pkh_address
                  [receipt_spend_mined; receipt_f4184] watching_with_baseline) in
  Agent.sent (Agent.world s)
  = Agent.sent (Agent.world watching_with_baseline)
    ++ [ReqGetMerkle hash_spend 171;
        ReqBlockHeader 170; ReqGetMerkle hash_f4184 170;
        ReqTransactionGet hash_spend; ReqTransactionGet hash_f4184].
Proof. vm_compute. reflexivity. Qed.

(** A stored transaction without a block is announced before the check
    of a receipt that comes before it has its response. *)
Example resolved_check_settles_first :
  let s1 := snd (Agent.onReceipts honest p2pkh_address
                   [receipt_spend_unconfirmed_parent] watching_with_baseline) in
  let s2 := snd (Agent.onReceipts honest p2pkh_address
                   [receipt_spend_mined; receipt_spend_unconfirmed_parent] s1) in
  Agent.TransactionStore (Agent.world s1) !! hash_spend = Some plain_spend
  /\ Agent.fired (Agent.world s2)
     = Agent.fired (Agent.world s1)
       ++ [Agent.TRANSACTION_ADDED plain_spend;
           Agent.TRANSACTION_MINED plain_spend block_spend]
  /\ Agent.sent (Agent.world s2)
     = Agent.sent (Agent.world s1) ++ [ReqGetMerkle hash_spend 171].
Proof. vm_compute. repeat split. Qed.

(** ** The peer list *)

Example peer_with_default_ports :
  ElectrumApi.peer_of false
    ("203.0.113.5", "electrum.example", ["v1.4.1"; "s"; "t51001"; "x"; "v1.4.2"; "w"])
  = {| ip := "203.0.113.5"; host := "electrum.example"; p_version := "1.4.2";
       pruningLimit := None;
       ports := {| tcp := Some 51001; ssl := Some 50002; wss := Some 50004 |} |}.
Proof. vm_compute. reflexivity. Qed.

(** ** Decoding *)

(** The payment constructor refuses the opcode that the input of
    [tx_opcode_input] has in the place of the public key: the conversion
    throws at the input, and its output, which has an address, is not
    looked at. *)
Lemma decode_witness :
  Transaction_fromHex raw_opcode_input = Some tx_opcode_input
  /\ ElectrumApi.transactionToPlain raw_opcode_input None
     = Err (TypeError "Expected property pubkey of type ?isPoint").
Proof.
  assert (Transaction_fromHex raw_opcode_input = Some tx_opcode_input) as Hraw
    by (vm_compute; reflexivity).
  split; [exact Hraw|].
  destruct (transactionToPlain_needs_every_input_and_output
              raw_opcode_input None tx_opcode_input Hraw)
    as (_ & _ & Hinput & _).
  apply (Hinput [] _ [] _ eq_refl); [constructor|].
  vm_compute. reflexivity.
Defined.

(** Nothing is sent for a transaction whose conversion throws. *)
Example broadcast_undecodable_input :
  ElectrumApi.broadcastTransaction honest raw_opcode_input []
  = (Err (TypeError "Expected property pubkey of type ?isPoint"), []).
Proof. vm_compute. reflexivity. Qed.

(** The outputs of the payment of block 170 pay to public keys, for which
    the library of the examples has no address. *)
Example outputs_without_address :
  ElectrumApi.transactionToPlain raw_f4184 None
  = Err (LibraryError "no matching Address").
Proof. vm_compute. reflexivity. Qed.

Lemma replaceByFee_witness :
  Transaction_fromHex raw_spend = Some tx_spend
  /\ ElectrumApi.transactionToPlain raw_spend None = Ok plain_spend
  /\ (t_replaceByFee plain_spend = true
      <-> exists input, input ∈ tx_ins tx_spend /\ in_sequence input < 4294967294).
Proof.
  assert (Transaction_fromHex raw_spend = Some tx_spend) as Hraw
    by (vm_compute; reflexivity).
  split; [exact Hraw|]. split; [exact spend_decodes|].
  exact (replaceByFee_iff_low_sequence raw_spend None tx_spend plain_spend
           Hraw spend_decodes).
Defined.

Lemma address_witness :
  address_toOutputScript "nowhere" = None
  /\ ElectrumApi.getBalance honest "nowhere" []
     = (Err (LibraryError "nowhere"), []).
Proof.
  split; [reflexivity|].
  exact (proj1 (undecodable_address_sends_nothing honest "nowhere" [] eq_refl)).
Defined.

Lemma unverified_witness :
  (Height 0 = Undefined \/ exists h, Height 0 = Height h /\ h <= 0)
  /\ ElectrumApi.getTransaction honest hash_spend (Height 0) []
     = (match srv_transaction_get honest hash_spend with
        | Ok raw => ElectrumApi.transactionToPlain raw None
        | Err e => Err e
        end, [] ++ [ReqTransactionGet hash_spend]).
Proof.
  assert (Height 0 = Undefined \/ exists h, Height 0 = Height h /\ h <= 0) as Harg.
  { right. exists 0. split; [reflexivity|lia]. }
  split; [exact Harg|].
  exact (proj1 (getTransaction_without_header_checks_nothing
                  honest hash_spend (Height 0) [] Harg)).
Defined.

(** ** [getHistory] *)

Lemma limit_witness :
  0 <= 1
  /\ ElectrumApi.getHistory honest p2pkh_address 0 [] (Some 1) []
     = (Ok [plain_spend], [ReqGetHistory script_hash; ReqTransactionGet hash_spend])
  /\ Z.of_nat (length [plain_spend]) <= 1.
Proof.
  assert (ElectrumApi.getHistory honest p2pkh_address 0 [] (Some 1) []
          = (Ok [plain_spend],
             [ReqGetHistory script_hash; ReqTransactionGet hash_spend])) as Hcall
    by (vm_compute; reflexivity).
  assert (0 <= 1) as Hn by lia.
  split; [exact Hn|]. split; [exact Hcall|].
  exact (getHistory_returns_at_most_limit honest p2pkh_address 0 [] 1 [] _ _
           Hn Hcall).
Defined.

Lemma known_history_witness :
  fst (ElectrumApi.addressToScriptHash p2pkh_address []) = Ok script_hash
  /\ srv_get_history honest script_hash = Ok history_entries
  /\ NoDup (map tx_hash history_entries)
  /\ Forall (fun e => 0 <= height e) history_entries
  /\ ElectrumApi.getHistory honest p2pkh_address 0
       (map ElectrumApi.receipt_of_entry history_entries) None []
     = (Ok [], [] ++ [ReqGetHistory script_hash]).
Proof.
  assert (fst (ElectrumApi.addressToScriptHash p2pkh_address []) = Ok script_hash)
    as Hsh by (vm_compute; reflexivity).
  assert (srv_get_history honest script_hash = Ok history_entries) as Hans
    by (vm_compute; reflexivity).
  assert (NoDup (map tx_hash history_entries)) as Hnd
    by (apply (bool_decide_unpack _); vm_compute; exact I).
  assert (Forall (fun e => 0 <= height e) history_entries) as Hpos
    by (repeat constructor; simpl; lia).
  split; [exact Hsh|]. split; [exact Hans|]. split; [exact Hnd|].
  split; [exact Hpos|].
  exact (getHistory_of_known_history_fetches_nothing
           honest p2pkh_address script_hash 0 None history_entries []
           Hsh Hans Hnd Hpos).
Defined.

Lemma since_witness :
  100 > 0
  /\ Forall (fun r => ~ (0 < r_blockHeight r < 100))
       (ElectrumApi.history_to_fetch 100 None
          [receipt_coinbase_1; receipt_f4184; receipt_spend_unconfirmed]).
Proof.
  assert (100 > 0) as Hs by lia.
  split; [exact Hs|].
  exact (proj1 (getHistory_fetches_nothing_unwanted 100 None
                  [receipt_coinbase_1; receipt_f4184; receipt_spend_unconfirmed]
                  Hs)).
Defined.

(** The receipt of block 1 lies before block 100 and is cut off with what
    follows it; the two receipts before it are fetched. *)
Example history_since_100 :
  ElectrumApi.history_to_fetch 100 None
    [receipt_coinbase_1; receipt_f4184; receipt_spend_unconfirmed]
  = [receipt_spend_unconfirmed; receipt_f4184].
Proof. vm_compute. reflexivity. Qed.

(** ** The Merkle path *)

Lemma low_bits_witness :
  merkle proof_shifted = merkle proof_f4184
  /\ 0 <= pos proof_f4184
  /\ 0 <= pos proof_shifted
  /\ pos proof_shifted mod 2 ^ Z.of_nat (length (merkle proof_f4184))
     = pos proof_f4184 mod 2 ^ Z.of_nat (length (merkle proof_f4184))
  /\ ElectrumApi.merkle_root_of hash_f4184 proof_shifted
     = ElectrumApi.merkle_root_of hash_f4184 proof_f4184.
Proof.
  assert (0 <= pos proof_f4184) as Hp by (simpl; lia).
  assert (0 <= pos proof_shifted) as Hp' by (simpl; lia).
  assert (pos proof_shifted mod 2 ^ Z.of_nat (length (merkle proof_f4184))
          = pos proof_f4184 mod 2 ^ Z.of_nat (length (merkle proof_f4184)))
    as Hmod by (vm_compute; reflexivity).
  split; [reflexivity|]. split; [exact Hp|]. split; [exact Hp'|].
  split; [exact Hmod|].
  exact (merkle_root_from_path_and_low_bits hash_f4184 proof_f4184 proof_shifted
           eq_refl Hp Hp' Hmod).
Defined.

(** Block 1 has one transaction, whose hash is the Merkle root of the
    block. *)
Lemma empty_path_witness :
  let hash := r_transactionHash receipt_coinbase_1 in
  srv_get_merkle peer_single hash 1
  = Ok {| block_height := 1; merkle := []; pos := 0 |}
  /\ bytesToHex (hexToBytes hash) = hash
  /\ ElectrumApi.getTransactionMerkleRoot peer_single hash 1 []
     = (Ok hash, [] ++ [ReqGetMerkle hash 1])
  /\ h_merkleRoot block_1 = Some hash.
Proof.
  intros hash.
  assert (bytesToHex (hexToBytes hash) = hash) as Hhex
    by (vm_compute; reflexivity).
  split; [reflexivity|]. split; [exact Hhex|]. split.
  - exact (empty_merkle_path_proves_the_root peer_single hash 1
             {| block_height := 1; merkle := []; pos := 0 |} []
             eq_refl eq_refl Hhex).
  - vm_compute. reflexivity.
Defined.

(** ** The address of an input *)

Lemma input_witness :
  ElectrumApi.script_decompile
    (Some (ElectrumApi.Data (in_script input_f4184)))
  = Ok (decompile (length (in_script input_f4184)) (in_script input_f4184))
  /\ ElectrumApi.deriveAddressFromInput input_f4184 []
     = (Ok None, [] ++ [JsError "Cannot decode address from input"]).
Proof.
  assert (ElectrumApi.script_decompile
            (Some (ElectrumApi.Data (in_script input_f4184)))
          = Ok (decompile (length (in_script input_f4184))
                  (in_script input_f4184))) as Hd by reflexivity.
  split; [exact Hd|].
  apply (proj1 (deriveAddressFromInput_has_six_shapes input_f4184
                  (decompile (length (in_script input_f4184))
                             (in_script input_f4184)) [] Hd)).
  left. split; [reflexivity|]. vm_compute. repeat constructor.
Defined.

(** An input with a signature and a public key and no witness is taken
    for the spending of a pay-to-pubkey-hash output. *)
Example input_of_two_chunks :
  ElectrumApi.deriveAddressFromInput input_p2pkh [] = (Ok (Some "p2pkh:0279be"), []).
Proof. vm_compute. reflexivity. Qed.

(** ** The constructor *)

(** Without a preference the agent connects to the peer itself. *)
Example constructor_direct :
  Agent.constructor "bitcoin" "bitcoin" "testnet" peer_any default_options ∅ ∅
  = Ok (Agent.WSS,
        Agent.connecting connection_wss
          "Agent: Connecting to wss://electrum.example:50004/" ∅ ∅).
Proof. vm_compute. reflexivity. Qed.

(** A peer that prefers SSL is not reached when the proxy for SSL is
    switched off, although it has a port for WSS. *)
Example constructor_without_fallback :
  Agent.constructor "bitcoin" "bitcoin" "testnet" peer_preferring_ssl
    without_ssl_proxy ∅ ∅
  = Err (JsError "No suitable transport protocol and port for peer").
Proof. vm_compute. reflexivity. Qed.

Lemma constructor_witness :
  Agent.constructor "bitcoin" "bitcoin" "testnet" peer_preferring_ssl
    default_options ∅ ∅
  = Ok (Agent.SSL,
        Agent.connecting connection_ssl
          "Agent: Connecting to ssl://electrum.example:50002" ∅ ∅)
  /\ exists c,
       Agent.connection
         (Agent.agent
            (Agent.connecting connection_ssl
               "Agent: Connecting to ssl://electrum.example:50002" ∅ ∅))
       = Some c
       /\ Agent.proxy c = true
       /\ Agent.token c = Some "mainnet:electrum.example".
Proof.
  assert (Agent.constructor "bitcoin" "bitcoin" "testnet" peer_preferring_ssl
            default_options ∅ ∅
          = Ok (Agent.SSL,
                Agent.connecting connection_ssl
                  "Agent: Connecting to ssl://electrum.example:50002" ∅ ∅))
    as Hnew by (vm_compute; reflexivity).
  split; [exact Hnew|].
  destruct (constructor_connects_as_the_transport_needs
              "bitcoin" "bitcoin" "testnet" peer_preferring_ssl default_options
              ∅ ∅ _ _ Hnew) as (port & c & _ & Hc & (Hproxy & Htoken & _) & _).
  exists c. split; [exact Hc|]. split; [exact Hproxy|].
  rewrite Htoken. vm_compute. reflexivity.
Defined.

(** ** The handshake and [sync] *)

Lemma handshake_witness :
  is_Some (Agent.connection (Agent.agent fresh))
  /\ Agent.handshake silent genesis false fresh
     = (Err (JsError "Incompatible protocol version"),
        Agent.with_world
          (fun w => Agent.set_sent (Agent.sent w ++ [ReqVersion]) w) fresh).
Proof.
  assert (is_Some (Agent.connection (Agent.agent fresh))) as Halive
    by (eexists; reflexivity).
  split; [exact Halive|].
  exact (proj1 (handshake_checks_version_then_genesis silent genesis fresh Halive)
               (Rejected "connection lost") eq_refl).
Defined.

Lemma sync_witness :
  is_Some (Agent.connection (Agent.agent fresh))
  /\ srv_features_genesis_hash honest = Ok genesis
  /\ Agent.steps fresh sync_run = Agent.handshaken fresh.
Proof.
  assert (is_Some (Agent.connection (Agent.agent fresh))) as Halive
    by (eexists; reflexivity).
  split; [exact Halive|]. split; [reflexivity|].
  exact (sync_handshakes_then_subscribes_to_headers honest genesis fresh
           Halive eq_refl eq_refl eq_refl eq_refl eq_refl eq_refl eq_refl).
Defined.

(** The peer does not answer the handshake: the agent stays in the
    handshake, and a second call of [sync] to a peer that would answer
    does not bring it out of it. *)
Lemma failed_handshake_witness :
  let later := [Agent.CallSync; Agent.ConnectionEstablished;
                Agent.HandshakeAnswered honest genesis false;
                Agent.HeaderNotified honest block_1] in
  let s' := Agent.steps
              (Agent.step handshaking_agent
                 (Agent.HandshakeAnswered silent genesis false)) later in
  fst (Agent.run (Agent.HandshakeAnswered silent genesis false) handshaking_agent)
  = Err (JsError "Incompatible protocol version")
  /\ Agent.handshaking (Agent.agent s') = true
  /\ Agent.syncing (Agent.agent s') = false
  /\ Agent.synced (Agent.agent s') = false.
Proof.
  intros later s'.
  assert (fst (Agent.run (Agent.HandshakeAnswered silent genesis false)
                 handshaking_agent)
          = Err (JsError "Incompatible protocol version")) as Herr
    by (vm_compute; reflexivity).
  split; [exact Herr|].
  destruct (lone_failed_handshake_blocks_every_later_sync silent genesis false _
              handshaking_agent later eq_refl eq_refl eq_refl eq_refl eq_refl Herr)
    as (Hh & Hsyncing & Hsynced & _).
  exact (conj Hh (conj Hsyncing Hsynced)).
Defined.

(** Two calls of [sync] pass the guard before the connection is
    established.  The handshake of the first fails, the handshake of the
    second passes and resets [handshaking]: the agent becomes synced. *)
Example second_sync_resets_handshaking :
  let s := Agent.steps fresh
             [Agent.CallSync; Agent.CallSync;
              Agent.ConnectionEstablished; Agent.ConnectionEstablished;
              Agent.HandshakeAnswered silent genesis false;
              Agent.HandshakeAnswered honest genesis false;
              Agent.HeaderNotified honest block_1] in
  Agent.handshaking (Agent.agent s) = false
  /\ Agent.synced (Agent.agent s) = true.
Proof. vm_compute. split; reflexivity. Qed.

(** ** Receipts *)

Lemma changed_receipts_witness :
  Agent.knownReceipts (Agent.agent watching_with_baseline) !! p2pkh_address
  = Some (receipts_by_hash [receipt_spend_unconfirmed])
  /\ exists (events : list Agent.Event) (errors : list Error),
       Agent.fired (Agent.world
         (snd (Agent.onReceipts honest p2pkh_address [receipt_spend_mined]
                 watching_with_baseline)))
       = Agent.fired (Agent.world watching_with_baseline) ++ events
       /\ (length events + length errors
           <= length (Agent.changed (receipts_by_hash [receipt_spend_unconfirmed])
                        [receipt_spend_mined]))%nat.
Proof.
  assert (Agent.knownReceipts (Agent.agent watching_with_baseline) !! p2pkh_address
          = Some (receipts_by_hash [receipt_spend_unconfirmed])) as Hk
    by (vm_compute; reflexivity).
  split; [exact Hk|].
  destruct (onReceipts_answers_each_changed_receipt honest p2pkh_address
              [receipt_spend_mined] _ watching_with_baseline Hk)
    as (events & errors & Hf & _ & _ & Hle & _).
  exists events, errors. exact (conj Hf Hle).
Defined.

Lemma added_witness :
  Agent.knownReceipts (Agent.agent watching_with_baseline) !! p2pkh_address
  = Some (receipts_by_hash [receipt_spend_unconfirmed])
  /\ Agent.unchanged (receipts_by_hash [receipt_spend_unconfirmed])
       receipt_spend_unconfirmed_parent = false
  /\ fst (Agent.onReceipts honest p2pkh_address [receipt_spend_unconfirmed_parent]
            watching_with_baseline) = Ok tt.
Proof.
  assert (Agent.knownReceipts (Agent.agent watching_with_baseline) !! p2pkh_address
          = Some (receipts_by_hash [receipt_spend_unconfirmed])) as Hk
    by (vm_compute; reflexivity).
  assert (Agent.unchanged (receipts_by_hash [receipt_spend_unconfirmed])
            receipt_spend_unconfirmed_parent = false) as Hr
    by (vm_compute; reflexivity).
  assert (r_blockHeight receipt_spend_unconfirmed_parent <= 0) as Hh
    by (simpl; lia).
  assert (is_Some (Agent.connection (Agent.agent watching_with_baseline)))
    as Halive by (vm_compute; by eexists).
  split; [exact Hk|]. split; [exact Hr|].
  exact (f_equal fst
           (unconfirmed_change_is_announced_as_added honest p2pkh_address
              receipt_spend_unconfirmed_parent _ watching_with_baseline
              Hk Hr Hh Halive)).
Defined.

(** The transaction is fetched, stored and announced. *)
Example unconfirmed_parent_notified :
  let s := snd (Agent.onReceipts honest p2pkh_address
                  [receipt_spend_unconfirmed_parent] watching_with_baseline) in
  Agent.fired (Agent.world s)
  = Agent.fired (Agent.world watching_with_baseline)
    ++ [Agent.TRANSACTION_ADDED plain_spend]
  /\ Agent.TransactionStore (Agent.world s) !! hash_spend = Some plain_spend.
Proof. vm_compute. split; reflexivity. Qed.

(** ** Ping and [subscribe] *)

Lemma answered_ping_witness :
  is_Some (Agent.connection (Agent.agent synced_agent))
  /\ srv_ping honest = Ok tt
  /\ Agent.timers_fresh synced_agent
  /\ Agent.ping honest 0 synced_agent = (Ok tt, Agent.after_pings 1 synced_agent).
Proof.
  assert (Agent.timers_fresh synced_agent) as Hfresh.
  { unfold Agent.timers_fresh.
    assert (Agent.timeouts (Agent.pending synced_agent) = []) as ->
      by (vm_compute; reflexivity).
    constructor. }
  assert (is_Some (Agent.connection (Agent.agent synced_agent))) as Halive
    by (vm_compute; by eexists).
  split; [exact Halive|]. split; [reflexivity|]. split; [exact Hfresh|].
  exact (proj1 (answered_ping_leaves_no_timeout honest honest 0 synced_agent
                  Halive eq_refl Hfresh)).
Defined.

Lemma subscribe_witness :
  Agent.synced (Agent.agent synced_agent) = true
  /\ Forall2 (fun a h => ElectrumApi.scriptHash_of a = Ok h)
       [p2pkh_address] [script_hash]
  /\ address_toOutputScript "nowhere" = None
  /\ Agent.subscribe [p2pkh_address; "nowhere"; p2pkh_address] synced_agent
     = (Err (LibraryError "nowhere"),
        Agent.subscribed [p2pkh_address] [script_hash] synced_agent).
Proof.
  assert (Agent.synced (Agent.agent synced_agent) = true) as Hsynced
    by (vm_compute; reflexivity).
  assert (is_Some (Agent.connection (Agent.agent synced_agent))) as Halive
    by (vm_compute; by eexists).
  assert (Forall2 (fun a h => ElectrumApi.scriptHash_of a = Ok h)
            [p2pkh_address] [script_hash]) as Hall
    by (constructor; [vm_compute; reflexivity|constructor]).
  split; [exact Hsynced|]. split; [exact Hall|]. split; [reflexivity|].
  exact (proj2 (subscribe_stops_at_the_first_undecodable_address
                  [p2pkh_address] "nowhere" [p2pkh_address] [script_hash]
                  synced_agent Hsynced Halive Hall eq_refl)).
Defined.

End Examples.
